(** * bencher: a shallow embedding of the reporting layer and of the sampling core

    The development follows the sources file by file:

    - [std]: the C++ standard-library facilities the sources call
      (exceptions, [std::sort], [std::min_element], [std::max_element],
      [std::find_if], [std::from_chars], [std::format], the two output streams);
    - [BarChart]: [include/bencher/bar_chart.hpp] (colour utilities and the
      SVG bar chart);
    - [bencher]: the namespace [bencher] -- the sampling core of
      [bencher/bencher.hpp] (modelled from the specification, the header is not
      among the sources), then [include/bencher/diagnostics.hpp] and
      [include/bencher/json.hpp] (over the JSON writer of the glaze library,
      whose output format is modelled from the specification).

    A C++ [double] is a primitive binary64 float, so every comparison and every
    arithmetic operation below is the IEEE-754 one.  Unsigned integers are [N],
    [int] is [Z]; a [std::string] is a [string] of bytes (UTF-8). *)

From Stdlib Require Import ZArith NArith List String Ascii Bool Lia Floats.
From Stdlib Require Import DecimalString Permutation Sorted.
Import ListNotations.

#[local] Open Scope list_scope.
#[local] Open Scope string_scope.

(** ** Standard-library facilities *)

Module std.

Abbreviation double := float.

(** The line feed written ["\n"] in the sources. *)
Definition nl : string := String "010"%char EmptyString.

(** The exceptions the sources throw, with their [what()] text. *)
Inductive exception : Type :=
| invalid_argument (what : string)
| runtime_error (what : string).

(** The result of a call that may throw. *)
Inductive outcome (A : Type) : Type :=
| Returned (a : A)
| Thrown (e : exception).
Arguments Returned {A} a.
Arguments Thrown {A} e.

Definition throws {A : Type} (o : outcome A) : bool :=
  match o with Returned _ => false | Thrown _ => true end.

(** The strings of a list, one after the other. *)
Definition join (l : list string) : string := fold_right String.append "" l.

(** *** Algorithms *)

(** [std::sort(first, last, comp)].  The standard fixes the result only when
    [comp] is a strict weak ordering, and then only up to the order of
    equivalent elements.  The model is the insertion sort that libstdc++ runs
    on a range of at most 16 elements ([std::__insertion_sort]); it keeps
    equivalent elements in the order of the input. *)

(** [std::__unguarded_linear_insert]: [val] moves in front of the elements it
    precedes, the nearest first.  [before] lists the elements in front of
    [val], from the nearest to the first of the range; the result lists the
    range in the same way, [val] included. *)
Fixpoint unguarded_linear_insert {A : Type} (comp : A -> A -> bool) (val : A)
  (before : list A) : list A :=
  match before with
  | [] => [val]
  | next :: before' =>
      if comp val next then next :: unguarded_linear_insert comp val before'
      else val :: before
  end.

(** One round of the loop of [std::__insertion_sort]: an element that
    precedes the first of the range is moved to the front, any other is
    inserted from the back.  [before] is the sorted part, from its last
    element to its first. *)
Definition insertion_round {A : Type} (comp : A -> A -> bool) (before : list A)
  (val : A) : list A :=
  if comp val (last before val) then before ++ [val]
  else unguarded_linear_insert comp val before.

Definition sort {A : Type} (comp : A -> A -> bool) (l : list A) : list A :=
  match l with
  | [] => []
  | first :: l' => rev (fold_left (insertion_round comp) l' [first])
  end.

(** [std::min_element(first, last, comp)]: the first element that no other
    element precedes; [None] stands for the [last] iterator of an empty range. *)
Fixpoint min_element_from {A : Type} (comp : A -> A -> bool) (smallest : A)
  (l : list A) : A :=
  match l with
  | [] => smallest
  | x :: l' => min_element_from comp (if comp x smallest then x else smallest) l'
  end.

Definition min_element {A : Type} (comp : A -> A -> bool) (l : list A) : option A :=
  match l with
  | [] => None
  | x :: l' => Some (min_element_from comp x l')
  end.

(** [std::max_element(first, last)] with [operator<]. *)
Fixpoint max_element_from {A : Type} (comp : A -> A -> bool) (largest : A)
  (l : list A) : A :=
  match l with
  | [] => largest
  | x :: l' => max_element_from comp (if comp largest x then x else largest) l'
  end.

Definition max_element {A : Type} (comp : A -> A -> bool) (l : list A) : option A :=
  match l with
  | [] => None
  | x :: l' => Some (max_element_from comp x l')
  end.

(** [std::find_if(first, last, pred)]; [None] is the [last] iterator. *)
Definition find_if {A : Type} (pred : A -> bool) (l : list A) : option A :=
  List.find pred l.

(** *** Conversions between integers and [double] *)

(** An unsigned integer converted to [double] (round to nearest even). *)
Definition double_of_N (n : N) : double :=
  SF2Prim (binary_normalize prec emax (Z.of_N n) 0 false).

(** [static_cast<size_t>(x)] for a [double]: the value truncated toward zero
    when that fits 64 bits.  The cast of any other value (a NaN, an infinity,
    a value at or below -1 or at or above 2^64) is undefined in C++; the model
    leaves its result to [out_of_range], which no theorem constrains. *)
Definition truncate (x : double) : option Z :=
  match Prim2SF x with
  | S754_zero _ => Some 0%Z
  | S754_finite s m e =>
      let t := (if 0 <=? e then Z.shiftl (Zpos m) e else Z.shiftr (Zpos m) (- e))%Z in
      if s then (if t =? 0 then Some 0 else None)%Z
      else (if t <? 2 ^ 64 then Some t else None)%Z
  | _ => None
  end.

Definition size_t_of_double (out_of_range : double -> N) (x : double) : N :=
  match truncate x with
  | Some t => Z.to_N t
  | None => out_of_range x
  end.

(** *** [std::from_chars] *)

Inductive errc : Type := errc_none | errc_invalid_argument | errc_result_out_of_range.

(** The largest [unsigned int], of 32 bits. *)
Definition UINT_MAX : Z := 4294967295.

(** The value of a base-16 digit, in either case. *)
Definition hex_digit (c : ascii) : option Z :=
  let n := Z.of_nat (nat_of_ascii c) in
  if ((48 <=? n) && (n <=? 57))%Z then Some (n - 48)%Z
  else if ((97 <=? n) && (n <=? 102))%Z then Some (n - 87)%Z
  else if ((65 <=? n) && (n <=? 70))%Z then Some (n - 55)%Z
  else None.

(** The digits of the longest prefix of [s] made of base-16 digits. *)
Fixpoint hex_prefix (s : string) : list Z :=
  match s with
  | EmptyString => []
  | String c s' =>
      match hex_digit c with
      | Some d => d :: hex_prefix s'
      | None => []
      end
  end.

Definition hex_value (ds : list Z) : Z :=
  fold_left (fun acc d => acc * 16 + d)%Z ds 0%Z.

(** [std::from_chars(first, last, value, 16)] for an [unsigned int]: it reads
    the longest prefix of digits; with no digit it reports [invalid_argument],
    with a number that does not fit 32 bits [result_out_of_range], and in both
    cases leaves [value] as it was.  The characters after the digits are not
    an error.  (The returned pointer is not used by the caller and is left
    out.) *)
Definition from_chars_hex (s : string) (value : Z) : Z * errc :=
  match hex_prefix s with
  | [] => (value, errc_invalid_argument)
  | ds =>
      if (hex_value ds <=? UINT_MAX)%Z then (hex_value ds, errc_none)
      else (value, errc_result_out_of_range)
  end.

(** *** [std::format] *)

(** The replacement fields the sources use.  [fixed p x] is ["{:.pf}"] of a
    [double], [align_left w s] is ["{:<w}"] and [align_right w s] is ["{:>w}"]
    of an already formatted field.  The library is not part of the
    repository, so the sources are embedded over any implementation. *)
Class Format : Type := {
  fixed : nat -> double -> string;
  align_left : nat -> string -> string;
  align_right : nat -> string -> string
}.

(** ["{}"] of an unsigned and of a signed integer: decimal digits. *)
Definition to_string_N (n : N) : string := NilZero.string_of_uint (N.to_uint n).
Definition to_string_Z (z : Z) : string := NilZero.string_of_int (Z.to_int z).

(** ["{}"] of a value of type [P]. *)
Class Formattable (P : Type) : Type := { to_text : P -> string }.

#[global] Instance Formattable_N : Formattable N := {| to_text := to_string_N |}.
#[global] Instance Formattable_Z : Formattable Z := {| to_text := to_string_Z |}.
#[global] Instance Formattable_string : Formattable string := {| to_text := fun s => s |}.

(** ["{:02X}"] of a non-negative [int]: upper-case base-16 digits, padded
    with zeros to two characters. *)
Definition hex_char (d : N) : ascii :=
  if (d <? 10)%N then ascii_of_N (48 + d) else ascii_of_N (55 + d).

Fixpoint hex_digits (fuel : nat) (n : N) (acc : string) : string :=
  match fuel with
  | O => acc
  | S fuel' =>
      let acc' := String (hex_char (n mod 16)) acc in
      if (n / 16 =? 0)%N then acc' else hex_digits fuel' (n / 16) acc'
  end.

Definition to_hex_upper (n : N) : string :=
  hex_digits (S (N.to_nat (N.log2 n))) n "".

Definition format_02X (n : N) : string :=
  let s := to_hex_upper n in
  if (String.length s <? 2)%nat then "0" ++ s else s.

(** *** The output streams *)

(** What was written to [std::cout] and to [std::cerr]. *)
Record console : Type := { cout : string; cerr : string }.

(** A C++ statement sequence that writes to the streams and may throw. *)
Definition IO (A : Type) : Type := console -> outcome A * console.

Definition ret {A : Type} (a : A) : IO A := fun c => (Returned a, c).

Definition bind {A B : Type} (m : IO A) (k : A -> IO B) : IO B :=
  fun c =>
    match m c with
    | (Returned a, c') => k a c'
    | (Thrown e, c') => (Thrown e, c')
    end.

Definition write_cout (s : string) : IO unit :=
  fun c => (Returned tt, {| cout := cout c ++ s; cerr := cerr c |}).

Definition write_cerr (s : string) : IO unit :=
  fun c => (Returned tt, {| cout := cout c; cerr := cerr c ++ s |}).

Definition throw {A : Type} (e : exception) : IO A := fun c => (Thrown e, c).

(** How the body of a range-[for] ends: it falls through to the next element
    or executes [break]. *)
Inductive loop_exit : Type := loop_next | loop_break.

Fixpoint for_each {X : Type} (xs : list X) (body : X -> IO loop_exit) : IO unit :=
  match xs with
  | [] => ret tt
  | x :: xs' =>
      bind (body x) (fun e =>
        match e with
        | loop_next => for_each xs' body
        | loop_break => ret tt
        end)
  end.

(** *** Facilities of [include/bencher/bar_chart.hpp] *)

(** The double quote (character 34), which the sources write escaped inside
    their format strings and which delimits the keys of a JSON object, and a
    text between two of them. *)
Definition dq : string := String "034"%char EmptyString.
Definition quoted (s : string) : string := dq ++ s ++ dq.

(** A call that may throw, followed by what is done with its result. *)
Definition and_then {A B : Type} (o : outcome A) (k : A -> outcome B) : outcome B :=
  match o with
  | Returned a => k a
  | Thrown e => Thrown e
  end.

(** An [int] converted to [double]: exact, an [int] has 32 bits. *)
Definition double_of_int (z : Z) : double :=
  SF2Prim (binary_normalize prec emax z 0 false).

Definition INT_MIN : Z := -2147483648.
Definition INT_MAX : Z := 2147483647.

(** A finite [double] with its fractional part discarded. *)
Definition toward_zero (x : double) : option Z :=
  match Prim2SF x with
  | S754_zero _ => Some 0%Z
  | S754_finite s m e =>
      let t := (if 0 <=? e then Z.shiftl (Zpos m) e else Z.shiftr (Zpos m) (- e))%Z in
      Some (if s then (- t)%Z else t)
  | _ => None
  end.

(** [static_cast<int>(x)] for a [double]: the value truncated toward zero
    when that is an [int].  The cast of any other value is undefined in C++;
    the model leaves its result to [out_of_range]. *)
Definition int_of_double (out_of_range : double -> Z) (x : double) : Z :=
  match toward_zero x with
  | Some t => if ((INT_MIN <=? t) && (t <=? INT_MAX))%Z then t else out_of_range x
  | None => out_of_range x
  end.

(** What [static_cast<int>] yields where C++ leaves the cast undefined. *)
Class IntCasts : Type := { int_out_of_range : double -> Z }.

(** [std::clamp(v, lo, hi)] *)
Definition clamp (v lo hi : Z) : Z :=
  if (v <? lo)%Z then lo else if (hi <? v)%Z then hi else v.

(** ["{}"] of a [double]: the shortest decimal text that reads back as the
    same number.  Like the fields of [Format] it is left to the
    implementation. *)
Class FormatDefault : Type := { general : double -> string }.

End std.

Declare Scope io_scope.
Delimit Scope io_scope with io.
Notation "m ;; k" := (std.bind m (fun _ => k))
  (at level 61, right associativity) : io_scope.
Notation "x <- m ;; k" := (std.bind m (fun x => k))
  (at level 61, m at next level, right associativity) : io_scope.

(** A reference implementation of the replacement fields, used to evaluate
    the embedding on concrete inputs.  [fixed] prints the exact binary value
    rounded to [p] decimals, ties to even; the alignments pad with spaces up
    to [w] code points. *)
Module reference_format.
Import std.

Definition round_half_even (a b : Z) : Z :=
  let q := (a / b)%Z in
  let r := (a mod b)%Z in
  if (b <? 2 * r)%Z then (q + 1)%Z
  else if ((2 * r =? b) && Z.odd q)%Z then (q + 1)%Z
  else q.

(** [z] (non-negative) with a decimal point before its last [p] digits. *)
Definition place_point (p : nat) (z : Z) : string :=
  let whole := to_string_N (Z.to_N (z / 10 ^ Z.of_nat p)) in
  let frac := to_string_N (Z.to_N (z mod 10 ^ Z.of_nat p)) in
  match p with
  | O => whole
  | _ => whole ++ "." ++ string_of_list_ascii (repeat "0"%char (p - String.length frac)) ++ frac
  end.

Definition fixed_digits (p : nat) (x : double) : string :=
  match Prim2SF x with
  | S754_nan => "nan"
  | S754_infinity s => if s then "-inf" else "inf"
  | S754_zero s => (if s then "-" else "") ++ place_point p 0
  | S754_finite s m e =>
      let scaled :=
        if (0 <=? e)%Z then (Zpos m * 2 ^ e * 10 ^ Z.of_nat p)%Z
        else round_half_even (Zpos m * 10 ^ Z.of_nat p) (2 ^ (- e)) in
      (if s then "-" else "") ++ place_point p scaled
  end.

(** The number of code points of a UTF-8 string. *)
Fixpoint code_points (s : string) : nat :=
  match s with
  | EmptyString => O
  | String c s' =>
      let n := nat_of_ascii c in
      if ((128 <=? n) && (n <? 192))%nat then code_points s' else S (code_points s')
  end.

Definition spaces (n : nat) : string := string_of_list_ascii (repeat " "%char n).

#[global] Instance reference : Format := {|
  fixed := fixed_digits;
  align_left := fun w s => s ++ spaces (w - code_points s);
  align_right := fun w s => spaces (w - code_points s) ++ s
|}.

End reference_format.

(** ** [include/bencher/bar_chart.hpp]: colour utilities *)

Module BarChart.
Import std.

(** [struct RGB { int r{}; int g{}; int b{}; }] *)
Record RGB : Type := { r : Z; g : Z; b : Z }.

(** [hex_to_rgb]: the string must start with ['#']; what follows is read by
    [std::from_chars] in base 16 into an [unsigned int], and the three colour
    components are the low three bytes of that value. *)
Definition hex_to_rgb (hex : string) : outcome RGB :=
  match hex with
  | String "#"%char digits =>
      let '(value, ec) := from_chars_hex digits 0 in
      match ec with
      | errc_none =>
          Returned {| r := Z.land (Z.shiftr value 16) 255;
                      g := Z.land (Z.shiftr value 8) 255;
                      b := Z.land value 255 |}
      | _ => Thrown (invalid_argument "Invalid hex color format")
      end
  | _ => Thrown (invalid_argument "Hex color must start with '#'")
  end.

(** [rgb_to_hex]: ["#{0:02X}{1:02X}{2:02X}"] of the three components masked to
    a byte. *)
Definition rgb_to_hex (color : RGB) : string :=
  "#" ++ format_02X (Z.to_N (Z.land (r color) 255))
      ++ format_02X (Z.to_N (Z.land (g color) 255))
      ++ format_02X (Z.to_N (Z.land (b color) 255)).

(** [darken_color]: each component is scaled by [1.0 - percentage] in
    [double], cast back to [int] and clamped to a byte. *)
Definition darken_color {I : IntCasts} (hex : string) (percentage : double) : outcome string :=
  and_then (hex_to_rgb hex) (fun color =>
    let color :=
      {| r := int_of_double int_out_of_range (double_of_int (r color) * (1 - percentage))%float;
         g := int_of_double int_out_of_range (double_of_int (g color) * (1 - percentage))%float;
         b := int_of_double int_out_of_range (double_of_int (b color) * (1 - percentage))%float |} in
    let color :=
      {| r := clamp (r color) 0 255; g := clamp (g color) 0 255; b := clamp (b color) 0 255 |} in
    Returned (rgb_to_hex color)).

(** The two colour themes, as they are initialised. *)
Module themes.

Definition bright : list string :=
  ["#4CAF50"; "#2196F3"; "#FF9800"; "#9C27B0"; "#F44336";
   "#009688"; "#3F51B5"; "#795548"; "#00BCD4"; "#E91E63"].

Definition dark : list string :=
  ["#1B5E20"; "#0D47A1"; "#E65100"; "#4A148C"; "#B71C1C";
   "#004D40"; "#283593"; "#3E2723"; "#006064"; "#880E4F"].

End themes.

(** [struct chart_config], and the object its default member initialisers
    give. *)
Module chart_config.
#[local] Open Scope float_scope.

Record t : Type := {
  chart_width : double;
  chart_height : double;
  margin_left : double;
  margin_right : double;
  margin_top : double;
  margin_bottom : double;
  y_axis_label : string;
  x_axis_label : string;
  colors : list string;
  font_size_title : double;
  font_size_axis_label : double;
  font_size_tick_label : double;
  font_size_bar_label : double;
  font_size_value_label : double;
  title : string;
  label_rotation : double;
  background_color : string
}.

Definition default : t :=
  {| chart_width := 1000;
     chart_height := 600;
     margin_left := 120;
     margin_right := 50;
     margin_top := 80;
     margin_bottom := 120;
     y_axis_label := "MB/s";
     x_axis_label := "";
     colors := themes.bright;
     font_size_title := 32;
     font_size_axis_label := 28;
     font_size_tick_label := 22;
     font_size_bar_label := 24;
     font_size_value_label := 24;
     title := "";
     label_rotation := -45;
     background_color := "#FFFFFF" |}.

End chart_config.
Abbreviation chart_config := chart_config.t.

Section Svg.
Import chart_config.
Context {F : Format} {D : FormatDefault} {I : IntCasts}.
#[local] Open Scope float_scope.

(** "Find maximum value for scaling", then "Avoid division by zero". *)
Definition scaling_maximum (data : list double) : double :=
  let max_value :=
    fold_left (fun max_value value => if max_value <? value then value else max_value) data 0 in
  if max_value =? 0 then 1 else max_value.

(** The width of a bar: what the gaps leave of the inner width, shared among
    the bars, and not below [min_bar_width]. *)
Definition bar_width_of (cfg : chart_config) (bar_count : N) (bar_gap : double) : double :=
  let chart_inner_width := chart_width cfg - margin_left cfg - margin_right cfg in
  let total_gap_width := double_of_N (bar_count + 1) * bar_gap in
  let dynamic_bar_width := (chart_inner_width - total_gap_width) / double_of_N bar_count in
  let min_bar_width := 20 in
  if dynamic_bar_width <? min_bar_width then min_bar_width else dynamic_bar_width.

Definition font_family : string :=
  "font-family=" ++ quoted "Arial, Helvetica, sans-serif".

(** What one round of the loop "Define gradients" appends. *)
Definition gradient (i : N) (base_color dark_color : string) : string :=
  let gradient_id := "grad" ++ to_string_N i in
  "    <linearGradient id=" ++ quoted gradient_id ++ " x1=" ++ quoted "0%"
  ++ " y1=" ++ quoted "0%" ++ " x2=" ++ quoted "0%" ++ " y2=" ++ quoted "100%" ++ ">" ++ nl
  ++ "      <stop offset=" ++ quoted "0%" ++ " style="
  ++ quoted ("stop-color:" ++ base_color ++ ";stop-opacity:1") ++ " />" ++ nl
  ++ "      <stop offset=" ++ quoted "100%" ++ " style="
  ++ quoted ("stop-color:" ++ dark_color ++ ";stop-opacity:1") ++ " />" ++ nl
  ++ "    </linearGradient>" ++ nl.

(** The loop "Define gradients" from index [i] on: every colour of the
    configuration is darkened by 30%, used by a bar or not. *)
Fixpoint gradients (i : N) (colors : list string) (svg : string) : outcome string :=
  match colors with
  | [] => Returned svg
  | base_color :: colors' =>
      and_then (darken_color base_color 0x1.3333333333333p-2) (fun dark_color =>
        gradients (i + 1) colors' (svg ++ gradient i base_color dark_color))
  end.

(** A [<text>] element centred at ([x], [y]): the title and the label of the
    x axis. *)
Definition centred_text (x y font_size : double) (text : string) : string :=
  "  <text x=" ++ quoted (general x) ++ " y=" ++ quoted (general y)
  ++ " text-anchor=" ++ quoted "middle" ++ " " ++ font_family ++ " "
  ++ "font-size=" ++ quoted (fixed 1 font_size) ++ " font-weight=" ++ quoted "bold" ++ ">"
  ++ text ++ "</text>" ++ nl.

(** What one round of the loop "Add horizontal gridlines" appends: the
    gridline, the tick and its label. *)
Definition gridline (cfg : chart_config) (max_value scale : double) (num_ticks i : Z) : string :=
  let y_axis_x := margin_left cfg in
  let y_axis_y_end := chart_height cfg - margin_bottom cfg in
  let value := max_value / double_of_int num_ticks * double_of_int i in
  let y := y_axis_y_end - value * scale in
  let formatted_value := fixed 0 value in
  "  <line x1=" ++ quoted (general y_axis_x) ++ " y1=" ++ quoted (fixed 2 y)
  ++ " x2=" ++ quoted (general (chart_width cfg - margin_right cfg)) ++ " y2=" ++ quoted (fixed 2 y)
  ++ " stroke=" ++ quoted "#e0e0e0" ++ " stroke-dasharray=" ++ quoted "4,2" ++ " />" ++ nl
  ++ "  <line x1=" ++ quoted (general (y_axis_x - 5)) ++ " y1=" ++ quoted (fixed 2 y)
  ++ " x2=" ++ quoted (general y_axis_x) ++ " y2=" ++ quoted (fixed 2 y)
  ++ " stroke=" ++ quoted "black" ++ " />" ++ nl
  ++ "  <text x=" ++ quoted (general (y_axis_x - 10)) ++ " y=" ++ quoted (fixed 2 (y + 5))
  ++ " text-anchor=" ++ quoted "end" ++ " " ++ font_family ++ " "
  ++ "font-size=" ++ quoted (fixed 1 (font_size_tick_label cfg)) ++ " fill=" ++ quoted "#333" ++ ">"
  ++ formatted_value ++ "</text>" ++ nl.

(** What one round of the last loop appends for the bar at index [i], drawn
    at [x_pos]: the bar with its value, and the label below it. *)
Definition bar (cfg : chart_config) (names : list string) (data : list double)
  (dynamic_bar_width scale x_pos : double) (i : nat) : string :=
  let y_axis_y_end := chart_height cfg - margin_bottom cfg in
  let bar_value := nth i data 0 in
  let bar_height := bar_value * scale in
  let bar_x := x_pos in
  let bar_y := y_axis_y_end - bar_height in
  let gradient_fill :=
    match colors cfg with
    | [] => "black"
    | _ =>
        let gradient_index := (N.of_nat i mod N.of_nat (List.length (colors cfg)))%N in
        "url(#grad" ++ to_string_N gradient_index ++ ")"
    end in
  let label_x := bar_x + dynamic_bar_width / 2 in
  let label_y := chart_height cfg - margin_bottom cfg + 20 in
  let text_anchor :=
    if label_rotation cfg <? -10 then "end"
    else if 10 <? label_rotation cfg then "start"
    else "middle" in
  "  <g>" ++ nl
  ++ "    <rect x=" ++ quoted (fixed 2 bar_x) ++ " y=" ++ quoted (fixed 2 bar_y)
  ++ " width=" ++ quoted (fixed 2 dynamic_bar_width) ++ " height=" ++ quoted (fixed 2 bar_height)
  ++ " fill=" ++ quoted gradient_fill ++ " rx=" ++ quoted "5" ++ " ry=" ++ quoted "5" ++ " />" ++ nl
  ++ "    <text x=" ++ quoted (fixed 2 (bar_x + dynamic_bar_width / 2))
  ++ " y=" ++ quoted (fixed 2 (bar_y - 10))
  ++ " text-anchor=" ++ quoted "middle" ++ " " ++ font_family ++ " "
  ++ "font-size=" ++ quoted (fixed 1 (font_size_value_label cfg))
  ++ " font-weight=" ++ quoted "bold" ++ " fill=" ++ quoted "#333" ++ ">"
  ++ fixed 0 bar_value ++ "</text>" ++ nl
  ++ "  </g>" ++ nl
  ++ (if negb (label_rotation cfg =? 0) then
        "  <text x=" ++ quoted (fixed 2 label_x) ++ " y=" ++ quoted (fixed 2 label_y)
        ++ " text-anchor=" ++ quoted text_anchor ++ " " ++ font_family ++ " "
        ++ "font-size=" ++ quoted (fixed 1 (font_size_bar_label cfg))
        ++ " font-weight=" ++ quoted "bold" ++ " fill=" ++ quoted "#333"
        ++ " transform="
        ++ quoted ("rotate(" ++ fixed 1 (label_rotation cfg) ++ ", " ++ fixed 2 label_x
                   ++ ", " ++ fixed 2 label_y ++ ")")
        ++ ">" ++ nth i names "" ++ "</text>" ++ nl
      else
        "  <text x=" ++ quoted (fixed 2 label_x) ++ " y=" ++ quoted (fixed 2 label_y)
        ++ " text-anchor=" ++ quoted "middle" ++ " " ++ font_family ++ " "
        ++ "font-size=" ++ quoted (fixed 1 (font_size_bar_label cfg))
        ++ " font-weight=" ++ quoted "bold" ++ " fill=" ++ quoted "#333" ++ ">"
        ++ nth i names "" ++ "</text>" ++ nl).

(** The last loop: the text so far and [x_pos], bar after bar. *)
Definition bars (cfg : chart_config) (names : list string) (data : list double)
  (dynamic_bar_width bar_gap scale : double) (bar_count : nat) (svg : string) (start_x : double)
  : string * double :=
  fold_left
    (fun '(svg, x_pos) i =>
       (svg ++ bar cfg names data dynamic_bar_width scale x_pos i,
        x_pos + (dynamic_bar_width + bar_gap)))
    (seq 0 bar_count) (svg, start_x).

(** [generate_bar_chart_svg(names, data, cfg)] *)
Definition generate_bar_chart_svg (names : list string) (data : list double)
  (cfg : chart_config) : outcome string :=
  if negb (List.length names =? List.length data)%nat then
    Thrown (invalid_argument "Names and data vectors must have the same length.")
  else
    let max_value := scaling_maximum data in
    let bar_count := N.of_nat (List.length data) in
    let bar_gap := 300 / double_of_N (bar_count + 2) in
    let dynamic_bar_width := bar_width_of cfg bar_count bar_gap in
    let drawable_height := chart_height cfg - margin_top cfg - margin_bottom cfg in
    let scale := drawable_height / max_value in
    let svg := "" in
    let svg :=
      svg ++ "<svg width=" ++ quoted (general (chart_width cfg))
      ++ " height=" ++ quoted (general (chart_height cfg))
      ++ " viewBox="
      ++ quoted ("0 0 " ++ to_string_Z (int_of_double int_out_of_range (chart_width cfg))
                 ++ " " ++ to_string_Z (int_of_double int_out_of_range (chart_height cfg)))
      ++ " xmlns=" ++ quoted "http://www.w3.org/2000/svg"
      ++ " version=" ++ quoted "1.1" ++ ">" ++ nl in
    let svg :=
      svg ++ "  <rect x=" ++ quoted "0" ++ " y=" ++ quoted "0"
      ++ " width=" ++ quoted (to_string_Z (int_of_double int_out_of_range (chart_width cfg)))
      ++ " height=" ++ quoted (to_string_Z (int_of_double int_out_of_range (chart_height cfg)))
      ++ " style=" ++ quoted ("fill:" ++ background_color cfg) ++ "/>" ++ nl in
    let svg := svg ++ "  <defs>" ++ nl in
    and_then (gradients 0 (colors cfg) svg) (fun svg =>
      let svg := svg ++ "  </defs>" ++ nl ++ nl in
      let svg :=
        svg ++ centred_text (chart_width cfg / 2) (margin_top cfg / 2)
                 (font_size_title cfg) (title cfg) in
      let svg :=
        svg ++ "  <text x=" ++ quoted (general (margin_left cfg / 2))
        ++ " y=" ++ quoted (general (chart_height cfg / 2))
        ++ " text-anchor=" ++ quoted "middle"
        ++ " transform="
        ++ quoted ("rotate(-90, " ++ general (margin_left cfg / 2.5) ++ ", "
                   ++ general (chart_height cfg / 2) ++ ")")
        ++ " " ++ font_family ++ " font-size=" ++ quoted (fixed 1 (font_size_axis_label cfg))
        ++ " font-weight=" ++ quoted "bold" ++ ">" ++ y_axis_label cfg ++ "</text>" ++ nl in
      let svg :=
        svg ++ centred_text
                 (margin_left cfg + (chart_width cfg - margin_left cfg - margin_right cfg) / 2)
                 (chart_height cfg - margin_bottom cfg / 3)
                 (font_size_axis_label cfg) (x_axis_label cfg) in
      let y_axis_x := margin_left cfg in
      let y_axis_y_start := margin_top cfg in
      let y_axis_y_end := chart_height cfg - margin_bottom cfg in
      let svg :=
        svg ++ "  <line x1=" ++ quoted (general y_axis_x) ++ " y1=" ++ quoted (general y_axis_y_start)
        ++ " x2=" ++ quoted (general y_axis_x) ++ " y2=" ++ quoted (general y_axis_y_end)
        ++ " stroke=" ++ quoted "black" ++ " stroke-width=" ++ quoted "2" ++ " />" ++ nl in
      let num_ticks := 5%Z in
      let svg :=
        fold_left (fun svg i => svg ++ gridline cfg max_value scale num_ticks (Z.of_nat i))
          (seq 0 (S (Z.to_nat num_ticks))) svg in
      let start_x := margin_left cfg + bar_gap in
      let svg :=
        fst (bars cfg names data dynamic_bar_width bar_gap scale (N.to_nat bar_count) svg start_x) in
      Returned (svg ++ "</svg>" ++ nl)).

End Svg.

End BarChart.

(** ** The namespace [bencher] *)

Module bencher.
Import std.

(** *** The data model of [bencher/bencher.hpp] *)

(** Modelled from the spec: [bencher/bencher.hpp], which declares the records,
    the statistics and the [stage] operations, is not among the sources.
    [performance_metrics] has the fields the specification lists in its data
    model, under the names and in the order in which [print_results] and
    [to_markdown] read them; the tests read [bytes_processed] and
    [total_iteration_count] through [has_value()], and the counter fields are
    those the specification calls present only when hardware counters are. *)
Module performance_metrics.
Record t : Type := {
  name : string;
  bytes_processed : option double;
  throughput_mb_per_sec : double;
  throughput_median_percentage_deviation : double;
  instructions_per_execution : option double;
  instructions_percentage_deviation : option double;
  instructions_per_cycle : option double;
  instructions_per_byte : option double;
  branches_per_execution : option double;
  branch_misses_per_execution : option double;
  cycles_per_execution : option double;
  cycles_percentage_deviation : option double;
  cycles_per_byte : option double;
  frequency_ghz : option double;
  total_iteration_count : option N
}.

(** Modelled from the spec: [operator>] of [performance_metrics], declared in
    the absent header.  "Comparison between two records is defined solely on
    throughput (strict ordering by that one field)". *)
Definition gt (a b : t) : bool :=
  (throughput_mb_per_sec b <? throughput_mb_per_sec a)%float.

End performance_metrics.
Abbreviation performance_metrics := performance_metrics.t.

(** Modelled from the spec: the [stage] record of the absent header: "name;
    minimum sample count; maximum sample count; convergence threshold as a
    percentage; optional baseline name; unit labels for processed quantity
    and throughput; an insertion-ordered sequence of performance metrics
    records, appended to only". *)
Module stage.
Record t : Type := {
  name : string;
  min_execution_count : N;
  max_execution_count : N;
  confidence_interval_threshold : double;
  baseline : string;
  processed_units_label : string;
  throughput_units_label : string;
  results : list performance_metrics
}.

(** Modelled from the spec: [results.push_back(m)], the one way in which a
    stage changes ("appended to only"). *)
Definition push_back (s : t) (m : performance_metrics) : t :=
  {| name := name s;
     min_execution_count := min_execution_count s;
     max_execution_count := max_execution_count s;
     confidence_interval_threshold := confidence_interval_threshold s;
     baseline := baseline s;
     processed_units_label := processed_units_label s;
     throughput_units_label := throughput_units_label s;
     results := results s ++ [m] |}.

End stage.
Abbreviation stage := stage.t.

(** Modelled from the spec: the raw sample of one iteration (the header's
    [event_count]): elapsed seconds, bytes processed, and the four hardware
    counters, present or absent together. *)
Module event_count.
Record t : Type := {
  elapsed : double;
  bytes_processed : N;
  cycles : option N;
  instructions : option N;
  branches : option N;
  missed_branches : option N
}.

Definition elapsed_ns (e : t) : double := (elapsed e * 1000000000)%float.

End event_count.
Abbreviation event_count := event_count.t.

(** *** Statistics *)

Module stats.

(** Modelled from the spec: [stats::median] of the absent header.
    "median(xs): sorts a copy; odd length -> middle element; even length ->
    average of the two middle elements".  The function receives the caller's
    sequence and works on [sorted], its own copy.  The specification leaves
    the empty sequence open; the model reads an absent element as 0. *)
Definition median (xs : list double) : double :=
  let sorted := sort PrimFloat.ltb xs in
  let n := List.length sorted in
  if Nat.odd n then nth (n / 2) sorted 0%float
  else ((nth (n / 2 - 1) sorted 0 + nth (n / 2) sorted 0) / 2)%float.

(** Modelled from the spec: a call of [stats::median] on the caller's vector
    [xs]: the vector as the call leaves it ("internal sorting is a copy, not a
    mutation of the caller's sequence"), and the value returned. *)
Definition median_call (xs : list double) : list double * double := (xs, median xs).

(** Modelled from the spec: [stats::median_absolute_deviation] of the absent
    header, the "median of the absolute deviations of each element from the
    given median". *)
Definition median_absolute_deviation (xs : list double) (med : double) : double :=
  median (map (fun x => abs (x - med))%float xs).

End stats.

(** *** The measurement primitive and the adaptive sampler *)

Module hardware.
(** Modelled from the spec: the four hardware-counter values of one
    execution, which the absent header reads from the platform. *)
Record t : Type := { cycles : N; instructions : N; branches : N; missed_branches : N }.
End hardware.

(** Modelled from the spec: what the platform contributes to the measurement
    primitive of the absent header, for the [k]-th timed execution of the
    process: the elapsed seconds read from the monotonic clock and, when the
    platform grants hardware counters (one capability for the whole run), the
    four counter values. *)
Record platform : Type := {
  elapsed_seconds : nat -> double;
  counters : option (nat -> hardware.t)
}.

(** Modelled from the spec: a benchmark body that runs to completion: what
    its [k]-th timed execution yields, a byte count or nothing (a [void]
    callable yields nothing at every execution). *)
Definition body : Type := nat -> option N.

(** Modelled from the spec: the measurement primitive of the absent header:
    it "executes a body exactly once per invocation and populates a raw
    sample", with "bytes processed (non-negative integer, zero if the body
    yields no byte count)". *)
Definition measure (pf : platform) (k : nat) (b : body) : event_count :=
  {| event_count.elapsed := elapsed_seconds pf k;
     event_count.bytes_processed := match b k with Some n => n | None => 0%N end;
     event_count.cycles := option_map (fun h => hardware.cycles (h k)) (counters pf);
     event_count.instructions := option_map (fun h => hardware.instructions (h k)) (counters pf);
     event_count.branches := option_map (fun h => hardware.branches (h k)) (counters pf);
     event_count.missed_branches :=
       option_map (fun h => hardware.missed_branches (h k)) (counters pf) |}.

(** Modelled from the spec: one entry of the iteration buffer, "the raw
    sample (throughput + counters)". *)
Record iteration : Type := { throughput : double; sample : event_count }.

(** Modelled from the spec: the instantaneous throughput of one iteration,
    "bytes_processed > 0 ? bytes_processed / elapsed_seconds / 1_000_000 : 0". *)
Definition instantaneous_throughput (e : event_count) : double :=
  if (0 <? event_count.bytes_processed e)%N
  then (double_of_N (event_count.bytes_processed e) / event_count.elapsed e / 1000000)%float
  else 0%float.

(** Modelled from the spec: "deviation% = median > 0 ? (MAD/median)*100 : 0". *)
Definition deviation_percent (xs : list double) : double :=
  let median := stats.median xs in
  let mad := stats.median_absolute_deviation xs median in
  if (0 <? median)%float then (mad / median * 100)%float else 0%float.

(** Modelled from the spec: steps 1 and 2 of [run].  Each round measures one
    execution and appends it to the buffer; once the buffer holds at least
    [min_execution_count] samples the deviation is recomputed after every
    round, and sampling stops when it is within the threshold.  [remaining]
    counts the samples still allowed below [max_execution_count]: at zero the
    buffer has reached the ceiling and sampling stops whatever the deviation
    and the minimum are.  The first sample is always taken. *)
Fixpoint sample_loop (cfg : stage) (pf : platform) (b : body) (remaining k : nat)
  (buffer : list iteration) (deviation : double) : list iteration * double :=
  let e := measure pf k b in
  let buffer := (buffer ++ [{| throughput := instantaneous_throughput e; sample := e |}])%list in
  let enough := (stage.min_execution_count cfg <=? N.of_nat (List.length buffer))%N in
  let deviation := if enough then deviation_percent (map throughput buffer) else deviation in
  match remaining with
  | O => (buffer, deviation)
  | S remaining' =>
      if enough && (deviation <=? stage.confidence_interval_threshold cfg)%float
      then (buffer, deviation)
      else sample_loop cfg pf b remaining' (S k) buffer deviation
  end.

(** Modelled from the spec: the values of one counter over the buffer, "if
    hardware counters were captured for every buffered sample". *)
Fixpoint all_present (xs : list (option N)) : option (list double) :=
  match xs with
  | [] => Some []
  | Some n :: xs' => option_map (cons (double_of_N n)) (all_present xs')
  | None :: _ => None
  end.

(** Modelled from the spec: steps 3 and 4 of [run], the fold of the buffer
    into one record. *)
Definition aggregate (name : string) (buffer : list iteration) (deviation : double)
  : performance_metrics :=
  let samples := map sample buffer in
  let bytes := stats.median (map (fun e => double_of_N (event_count.bytes_processed e)) samples) in
  let hw :=
    match all_present (map event_count.cycles samples),
          all_present (map event_count.instructions samples),
          all_present (map event_count.branches samples),
          all_present (map event_count.missed_branches samples) with
    | Some c, Some i, Some b, Some m => Some (c, i, b, m)
    | _, _, _, _ => None
    end in
  let derive (f : list double -> list double -> list double -> list double -> double) :=
    option_map (fun '(c, i, b, m) => f c i b m) hw in
  {| performance_metrics.name := name;
     performance_metrics.bytes_processed := Some bytes;
     performance_metrics.throughput_mb_per_sec := stats.median (map throughput buffer);
     performance_metrics.throughput_median_percentage_deviation := deviation;
     performance_metrics.instructions_per_execution := derive (fun c i b m => stats.median i);
     performance_metrics.instructions_percentage_deviation :=
       derive (fun c i b m => deviation_percent i);
     performance_metrics.instructions_per_cycle :=
       derive (fun c i b m => stats.median i / stats.median c)%float;
     performance_metrics.instructions_per_byte :=
       derive (fun c i b m => stats.median i / bytes)%float;
     performance_metrics.branches_per_execution := derive (fun c i b m => stats.median b);
     performance_metrics.branch_misses_per_execution := derive (fun c i b m => stats.median m);
     performance_metrics.cycles_per_execution := derive (fun c i b m => stats.median c);
     performance_metrics.cycles_percentage_deviation :=
       derive (fun c i b m => deviation_percent c);
     performance_metrics.cycles_per_byte :=
       derive (fun c i b m => stats.median c / bytes)%float;
     performance_metrics.frequency_ghz :=
       derive (fun c i b m => stats.median c / stats.median (map event_count.elapsed_ns samples))%float;
     performance_metrics.total_iteration_count := Some (N.of_nat (List.length buffer)) |}.

(** Modelled from the spec: a [stage] in use: the object, and how many
    executions the process has timed so far (the index of the next clock
    reading). *)
Record bench : Type := { subject : stage; executed : nat }.

(** Modelled from the spec: the buffer and the last deviation of the
    sampling that [run] performs: at least one sample, at most
    [max_execution_count]. *)
Definition samples_of_run (pf : platform) (st : bench) (b : body) : list iteration * double :=
  sample_loop (subject st) pf b
    (N.to_nat (stage.max_execution_count (subject st)) - 1) (executed st) [] 0%float.

(** Modelled from the spec: [stage::run(name, body)], steps 1 to 5: sample,
    aggregate, append the record to the results and return it. *)
Definition run (pf : platform) (st : bench) (name : string) (b : body)
  : bench * performance_metrics :=
  let '(buffer, deviation) := samples_of_run pf st b in
  let m := aggregate name buffer deviation in
  ({| subject := stage.push_back (subject st) m;
      executed := executed st + List.length buffer |}, m).

(** Modelled from the spec: [stage::run_with(name, body, params)]: "for each
    parameter value in the given sequence, in sequence order, derive a display
    name "{name}/{textual-form-of-param}" and invoke the algorithm above with
    a body that calls the parameterized body with that value". *)
Definition run_with {P : Type} `{Formattable P} (pf : platform) (st : bench)
  (name : string) (pbody : P -> body) (params : list P) : bench :=
  fold_left (fun st p => fst (run pf st (name ++ "/" ++ to_text p) (pbody p))) params st.

(** *** [include/bencher/diagnostics.hpp] *)

(** What [static_cast<size_t>] yields where C++ leaves the cast undefined. *)
Class Casts : Type := { size_t_out_of_range : double -> N }.

(** [n] copies of [s], appended one after the other. *)
Fixpoint repeat_string (n : nat) (s : string) : string :=
  match n with
  | O => ""
  | S n' => s ++ repeat_string n' s
  end.

Definition bar_width : N := 40.

(** The partial blocks, from 0/8 (a space) to 7/8, and the full block. *)
Definition blocks : list string := [" "; "▏"; "▎"; "▍"; "▌"; "▋"; "▊"; "▉"].
Definition full_block : string := "█".

(** The separator between a bar and its label. *)
Definition bar_separator : string := "│".

Section Diagnostics.
Context {F : Format} {C : Casts}.

(** The string [bar_str] that one round of the loop of [format_bar_chart]
    builds for [value], scaled against [max_value]: full blocks, at most one
    partial block, and the padding up to the width of the bar area. *)
Definition bar_str (max_value value : double) : string :=
  let scaled :=
    if (max_value =? 0)%float then 0%float
    else (value / max_value * double_of_N bar_width)%float in
  let full_blocks := size_t_of_double size_t_out_of_range scaled in
  let partial_index :=
    size_t_of_double size_t_out_of_range ((scaled - double_of_N full_blocks) * 8)%float in
  let full_blocks := if (bar_width <? full_blocks)%N then bar_width else full_blocks in
  let partial_index := if (7 <? partial_index)%N then 7%N else partial_index in
  let bar_str := repeat_string (N.to_nat full_blocks) full_block in
  let bar_str :=
    if ((full_blocks <? bar_width) && (0 <? partial_index))%N
    then bar_str ++ nth (N.to_nat partial_index) blocks ""
    else bar_str in
  let visible_length := (full_blocks + (if 0 <? partial_index then 1 else 0))%N in
  let padding := if (visible_length <? bar_width)%N then (bar_width - visible_length)%N else 0%N in
  bar_str ++ repeat_string (N.to_nat padding) " ".

(** What one round of the loop appends to the result: the bar, the
    separator, the label with the name and the value, and a line feed. *)
Definition bar_line (max_value : double) (name : string) (value : double) : string :=
  let label := " " ++ name ++ " (" ++ fixed 0 value ++ ")" in
  bar_str max_value value ++ bar_separator ++ label ++ nl.

(** [format_bar_chart(names, values)] *)
Definition format_bar_chart (names : list string) (values : list double) : string :=
  if negb (List.length names =? List.length values)%nat
     || match names with [] => true | _ => false end
  then ""
  else
    let max_value := match max_element PrimFloat.ltb values with Some m => m | None => 0%float end in
    fold_left
      (fun result i => result ++ bar_line max_value (nth i names "") (nth i values 0%float))
      (seq 0 (List.length names)) "".

(** [print_bar_chart(names, values)] *)
Definition print_bar_chart (names : list string) (values : list double) : IO unit :=
  if negb (List.length names =? List.length values)%nat then
    write_cerr ("Error: 'names' and 'values' must have the same number of elements." ++ nl)
  else if match names with [] => true | _ => false end then
    write_cerr ("Error: 'names' and 'values' must not be empty." ++ nl)
  else write_cout (format_bar_chart names values).

(** The argument kinds the generic lambdas [print_metric] and [format_metric]
    are instantiated at: a [double], an optional [double], an optional
    [uint64_t]. *)
Inductive metric_value : Type :=
| metric_double (v : double)
| metric_optional_double (v : option double)
| metric_optional_count (v : option N).

(** [print_value] at a floating-point type; 0.005 is the [double] nearest to
    that decimal. *)
Definition print_value_double (label : string) (v : double) : IO unit :=
  if (100 <? v)%float then
    write_cout (align_left 40 label ++ ": " ++ align_right 10 (fixed 0 v) ++ nl)
  else if (10 <? v)%float then
    write_cout (align_left 40 label ++ ": " ++ align_right 10 (fixed 1 v) ++ nl)
  else if (abs v <? 0x1.47ae147ae147bp-8)%float then
    write_cout (align_left 40 label ++ ": " ++ align_right 10 (fixed 0 v) ++ nl)
  else
    write_cout (align_left 40 label ++ ": " ++ align_right 10 (fixed 2 v) ++ nl).

(** [print_value] at an integer type. *)
Definition print_value_count (label : string) (v : N) : IO unit :=
  write_cout (align_left 40 label ++ ": " ++ align_right 10 (to_string_N v) ++ nl).

(** [print_metric]: an empty optional prints nothing. *)
Definition print_metric (label : string) (value_or_optional : metric_value) : IO unit :=
  match value_or_optional with
  | metric_double v => print_value_double label v
  | metric_optional_double (Some v) => print_value_double label v
  | metric_optional_count (Some v) => print_value_count label v
  | metric_optional_double None | metric_optional_count None => ret tt
  end.

Definition rule_dashes : string := "----------------------------------------------------".
Definition rule_equals : string := "====================================================".

(** The body of the first loop of [print_results]: the block of one record. *)
Definition print_record (processed_label throughput_label : string)
  (value : performance_metrics) : IO unit :=
  (write_cout (" - " ++ performance_metrics.name value ++ " -" ++ nl) ;;
   print_metric processed_label
     (metric_optional_double (performance_metrics.bytes_processed value)) ;;
   print_metric throughput_label
     (metric_double (performance_metrics.throughput_mb_per_sec value)) ;;
   print_metric "Throughput MAD (±%)"
     (metric_double (performance_metrics.throughput_median_percentage_deviation value)) ;;
   print_metric "Instructions per Execution"
     (metric_optional_double (performance_metrics.instructions_per_execution value)) ;;
   print_metric "Instructions Percentage Deviation (±%)"
     (metric_optional_double (performance_metrics.instructions_percentage_deviation value)) ;;
   print_metric "Instructions per Cycle"
     (metric_optional_double (performance_metrics.instructions_per_cycle value)) ;;
   print_metric "Instructions per Byte"
     (metric_optional_double (performance_metrics.instructions_per_byte value)) ;;
   print_metric "Branches per Execution"
     (metric_optional_double (performance_metrics.branches_per_execution value)) ;;
   print_metric "Branch Misses per Execution"
     (metric_optional_double (performance_metrics.branch_misses_per_execution value)) ;;
   print_metric "Cycles per Execution"
     (metric_optional_double (performance_metrics.cycles_per_execution value)) ;;
   print_metric "Cycles Percentage Deviation (±%)"
     (metric_optional_double (performance_metrics.cycles_percentage_deviation value)) ;;
   print_metric "Cycles per Byte"
     (metric_optional_double (performance_metrics.cycles_per_byte value)) ;;
   print_metric "Frequency (GHz)"
     (metric_optional_double (performance_metrics.frequency_ghz value)) ;;
   print_metric "Total Iterations"
     (metric_optional_count (performance_metrics.total_iteration_count value)) ;;
   write_cout (rule_equals ++ nl))%io.

(** The comparator of both [std::min_element] calls of [print_results]. *)
Definition slower (a b : performance_metrics) : bool :=
  (performance_metrics.throughput_mb_per_sec a <? performance_metrics.throughput_mb_per_sec b)%float.

(** "Find the baseline metric (either user-specified or slowest)": the
    iterator [baseline_it], [None] for [metrics.end()]. *)
Definition find_baseline (stage : stage) (metrics : list performance_metrics)
  : IO (option performance_metrics) :=
  if (stage.baseline stage =? "")%string then ret (min_element slower metrics)
  else
    match find_if (fun m => (performance_metrics.name m =? stage.baseline stage)%string) metrics with
    | None =>
        (write_cerr ("Warning: baseline '" ++ stage.baseline stage ++ "' not found, using slowest" ++ nl) ;;
         ret (min_element slower metrics))%io
    | Some m => ret (Some m)
    end.

(** The percentage by which [metric] differs from the baseline. *)
Definition diff_percentage (baseline_metric metric : performance_metrics) : double :=
  ((performance_metrics.throughput_mb_per_sec metric
    - performance_metrics.throughput_mb_per_sec baseline_metric)
   / performance_metrics.throughput_mb_per_sec baseline_metric * 100)%float.

(** The body of the comparison loop of [print_results]. *)
Definition compare_to_baseline (baseline_metric metric : performance_metrics) : IO loop_exit :=
  if (performance_metrics.throughput_mb_per_sec baseline_metric =? 0)%float then
    (write_cerr ("Error: " ++ performance_metrics.name baseline_metric
                 ++ " has a throughput of 0 MB/s" ++ nl) ;;
     ret loop_break)%io
  else
    ((if (0 <? diff_percentage baseline_metric metric)%float then
        write_cout (performance_metrics.name metric ++ " is "
                    ++ fixed 1 (diff_percentage baseline_metric metric) ++ "% faster than "
                    ++ performance_metrics.name baseline_metric ++ nl)
      else ret tt) ;;
     ret loop_next)%io.

(** [print_results(stage, show_comparison)] *)
Definition print_results (stage : stage) (show_comparison : bool) : IO unit :=
  let metrics := stage.results stage in
  let processed_label := stage.processed_units_label stage ++ " Processed" in
  let throughput_label := "Throughput (" ++ stage.throughput_units_label stage ++ ")" in
  (write_cout (nl ++ "Performance Metrics for: " ++ stage.name stage ++ nl) ;;
   write_cout (rule_dashes ++ nl) ;;
   for_each metrics (fun value =>
     print_record processed_label throughput_label value ;; ret loop_next) ;;
   if show_comparison && (1 <? List.length metrics)%nat then
     (match metrics with
      | [] => throw (runtime_error ("No metrics available for comparison." ++ nl))
      | _ => ret tt
      end) ;;
     baseline_it <- find_baseline stage metrics ;;
     (match baseline_it with
      | None => write_cout ("Unable to determine the baseline metric." ++ nl)
      | Some baseline_metric => for_each metrics (compare_to_baseline baseline_metric)
      end) ;;
     write_cout (rule_equals ++ nl) ;;
     let names := map performance_metrics.name (stage.results stage) in
     let data := map performance_metrics.throughput_mb_per_sec (stage.results stage) in
     write_cout nl ;;
     print_bar_chart names data
   else ret tt)%io.

(** [format_value] of [to_markdown] at a floating-point type. *)
Definition format_value_double (label : string) (v : double) : string :=
  if (100 <? v)%float then "**" ++ label ++ "**: " ++ fixed 0 v ++ nl
  else if (10 <? v)%float then "**" ++ label ++ "**: " ++ fixed 1 v ++ nl
  else "**" ++ label ++ "**: " ++ fixed 2 v ++ nl.

(** [format_metric]: an empty optional is rendered as N/A. *)
Definition format_metric (label : string) (value_or_optional : metric_value) : string :=
  match value_or_optional with
  | metric_double v => format_value_double label v
  | metric_optional_double (Some v) => format_value_double label v
  | metric_optional_count (Some v) => "**" ++ label ++ "**: " ++ to_string_N v ++ nl
  | metric_optional_double None | metric_optional_count None => "**" ++ label ++ "**: N/A" ++ nl
  end.

(** What one round of the last loop of [to_markdown] appends. *)
Definition markdown_section (processed_label throughput_label : string)
  (value : performance_metrics) : string :=
  "### Metrics for: " ++ performance_metrics.name value ++ nl ++ nl
  ++ format_metric processed_label
       (metric_optional_double (performance_metrics.bytes_processed value))
  ++ format_metric throughput_label
       (metric_double (performance_metrics.throughput_mb_per_sec value))
  ++ format_metric "Throughput MAD (±%)"
       (metric_double (performance_metrics.throughput_median_percentage_deviation value))
  ++ format_metric "Instructions per Execution"
       (metric_optional_double (performance_metrics.instructions_per_execution value))
  ++ format_metric "Instructions Percentage Deviation (±%)"
       (metric_optional_double (performance_metrics.instructions_percentage_deviation value))
  ++ format_metric "Instructions per Cycle"
       (metric_optional_double (performance_metrics.instructions_per_cycle value))
  ++ format_metric "Instructions per Byte"
       (metric_optional_double (performance_metrics.instructions_per_byte value))
  ++ format_metric "Branches per Execution"
       (metric_optional_double (performance_metrics.branches_per_execution value))
  ++ format_metric "Branch Misses per Execution"
       (metric_optional_double (performance_metrics.branch_misses_per_execution value))
  ++ format_metric "Cycles per Execution"
       (metric_optional_double (performance_metrics.cycles_per_execution value))
  ++ format_metric "Cycles Percentage Deviation (±%)"
       (metric_optional_double (performance_metrics.cycles_percentage_deviation value))
  ++ format_metric "Cycles per Byte"
       (metric_optional_double (performance_metrics.cycles_per_byte value))
  ++ format_metric "Frequency (GHz)"
       (metric_optional_double (performance_metrics.frequency_ghz value))
  ++ format_metric "Total Iterations"
       (metric_optional_count (performance_metrics.total_iteration_count value))
  ++ nl ++ "---" ++ nl ++ nl.

(** The objects [to_markdown] works on: the stage it received by reference,
    its local vector [metrics] and the string it builds. *)
Record markdown_frame : Type := {
  stage_ref : stage;
  metrics : list performance_metrics;
  markdown : string
}.

(** [to_markdown(stage)], statement by statement: the results are copied into
    [metrics], the copy is sorted with [std::greater], then the header and one
    section per element of [metrics] are appended. *)
Definition to_markdown_frame (stage : stage) : markdown_frame :=
  let f := {| stage_ref := stage; metrics := stage.results stage; markdown := "" |} in
  let f := {| stage_ref := stage_ref f;
              metrics := sort performance_metrics.gt (metrics f);
              markdown := markdown f |} in
  let processed_label := stage.processed_units_label (stage_ref f) ++ " Processed" in
  let throughput_label := "Throughput (" ++ stage.throughput_units_label (stage_ref f) ++ ")" in
  let f := {| stage_ref := stage_ref f;
              metrics := metrics f;
              markdown := markdown f ++ "## Performance Metrics for: "
                          ++ stage.name (stage_ref f) ++ nl ++ nl |} in
  fold_left
    (fun f value =>
       {| stage_ref := stage_ref f;
          metrics := metrics f;
          markdown := markdown f ++ markdown_section processed_label throughput_label value |})
    (metrics f) f.

Definition to_markdown (stage : stage) : string := markdown (to_markdown_frame stage).

End Diagnostics.

Section Charts.
Import BarChart.
Context {F : Format} {D : FormatDefault} {I : IntCasts}.

(** [bar_chart(stage, cfg)]: [cfg] is the function's own copy of the
    configuration; an empty label of the y axis is replaced by the label of
    the stage's throughput unit. *)
Definition bar_chart (stage : stage) (cfg : chart_config) : outcome string :=
  let results := stage.results stage in
  let names := map performance_metrics.name results in
  let data := map performance_metrics.throughput_mb_per_sec results in
  let cfg :=
    if (chart_config.y_axis_label cfg =? "")%string then
      {| chart_config.chart_width := chart_config.chart_width cfg;
         chart_config.chart_height := chart_config.chart_height cfg;
         chart_config.margin_left := chart_config.margin_left cfg;
         chart_config.margin_right := chart_config.margin_right cfg;
         chart_config.margin_top := chart_config.margin_top cfg;
         chart_config.margin_bottom := chart_config.margin_bottom cfg;
         chart_config.y_axis_label := stage.throughput_units_label stage;
         chart_config.x_axis_label := chart_config.x_axis_label cfg;
         chart_config.colors := chart_config.colors cfg;
         chart_config.font_size_title := chart_config.font_size_title cfg;
         chart_config.font_size_axis_label := chart_config.font_size_axis_label cfg;
         chart_config.font_size_tick_label := chart_config.font_size_tick_label cfg;
         chart_config.font_size_bar_label := chart_config.font_size_bar_label cfg;
         chart_config.font_size_value_label := chart_config.font_size_value_label cfg;
         chart_config.title := chart_config.title cfg;
         chart_config.label_rotation := chart_config.label_rotation cfg;
         chart_config.background_color := chart_config.background_color cfg |}
    else cfg in
  generate_bar_chart_svg names data cfg.

End Charts.

(** *** [include/bencher/json.hpp] *)

(** [struct stage_result { std::string name{}; std::vector<performance_metrics> results{}; }] *)
Module stage_result.
Record t : Type := { name : string; results : list performance_metrics }.
End stage_result.
Abbreviation stage_result := stage_result.t.

(** What [glz::write_json] leaves to the glaze library, which is not among
    the sources: the JSON text of a string (between double quotes, with the
    escapes of the library), the JSON text of a record of the absent header,
    and the objects on which the writer reports an error. *)
Class Glaze : Type := {
  write_string : string -> string;
  write_metrics : performance_metrics -> string;
  write_error : stage_result -> bool
}.

(** The texts of a list with [separator] between each two of them. *)
Fixpoint separated (separator : string) (texts : list string) : string :=
  match texts with
  | [] => ""
  | text :: texts' =>
      match texts' with
      | [] => text
      | _ => text ++ separator ++ separated separator texts'
      end
  end.

(** Modelled from the spec: [glz::write_json] at [stage_result], the
    "structured (schema: {name, results: [...]}) machine-readable export".
    The aggregate is written as the JSON object of its members, under their
    names and in the order of their declaration; the vector is written as the
    JSON array of its elements, in their order.  The text is compact, without
    white space: [to_json_pretty] is the variant that asks the library to
    [prettify].  The result is nothing when the writer reports an error. *)
Definition write_json {G : Glaze} (output : stage_result) : option string :=
  if write_error output then None
  else Some ("{" ++ quoted "name" ++ ":" ++ write_string (stage_result.name output) ++ ","
             ++ quoted "results" ++ ":"
             ++ "[" ++ separated "," (map write_metrics (stage_result.results output)) ++ "]"
             ++ "}").

(** The object [to_json] hands to the writer. *)
Definition to_json_output (s : stage) : stage_result :=
  {| stage_result.name := stage.name s; stage_result.results := stage.results s |}.

(** [to_json(s)]: the stage it received by reference, and the returned text
    ([value_or] turns a writer error into ["{}"]). *)
Definition to_json_call {G : Glaze} (s : stage) : stage * string :=
  let output := to_json_output s in
  (s, match write_json output with Some text => text | None => "{}" end).

Definition to_json {G : Glaze} (s : stage) : string := snd (to_json_call s).

End bencher.

(** * The vocabulary of the statements *)

(** The throughput of a record. *)
Abbreviation thr := bencher.performance_metrics.throughput_mb_per_sec.

(** ** The order of binary64 numbers *)

Section OrderVocabulary.
#[local] Open Scope Z_scope.

(** The comparison of two numbers that are not NaN is the lexicographic
    comparison of their keys: the class (negative infinity, negative, zero,
    positive, positive infinity), then exponent and mantissa, both negated
    for negative numbers. *)
Definition lex3 (k k' : Z * Z * Z) : comparison :=
  let '(a, b, c) := k in
  let '(a', b', c') := k' in
  match a ?= a' with
  | Eq => match b ?= b' with Eq => c ?= c' | o => o end
  | o => o
  end.

Definition sf_key (x : spec_float) : Z * Z * Z :=
  match x with
  | S754_infinity true => (-2, 0, 0)
  | S754_finite true m e => (-1, - e, - Zpos m)
  | S754_zero _ | S754_nan => (0, 0, 0)
  | S754_finite false m e => (1, e, Zpos m)
  | S754_infinity false => (2, 0, 0)
  end.

Definition sf_is_nan (x : spec_float) : bool :=
  match x with S754_nan => true | _ => false end.

(** Strictly positive numbers, the positive infinity included. *)
Definition sf_pos (x : spec_float) : bool :=
  match x with
  | S754_infinity false | S754_finite false _ _ => true
  | _ => false
  end.

End OrderVocabulary.

Definition not_nan (x : float) : Prop := is_nan x = false.

(** The postcondition of [std::sort]: no element precedes an earlier one. *)
Definition in_order {A : Type} (comp : A -> A -> bool) (a b : A) : Prop := comp b a = false.

(** ** Colours *)

Section ColourVocabulary.
Import std.

(** A hexadecimal number in the usual sense: a non-empty string made of
    base-16 digits only. *)
Definition is_hexadecimal (s : string) : bool :=
  negb (s =? "")%string
  && forallb (fun c => match hex_digit c with Some _ => true | None => false end)
       (list_ascii_of_string s).

Definition starts_with_hash (s : string) : bool :=
  match s with String "#"%char _ => true | _ => false end.

Definition after_first (s : string) : string :=
  match s with String _ rest => rest | EmptyString => "" end.

End ColourVocabulary.

(** ** Output *)

Section OutputVocabulary.
Import std bencher.
Context {F : Format} {C : Casts}.
#[local] Open Scope float_scope.

(** [m] returns [a] after appending [text] to [std::cout], whatever the
    streams held before; it writes nothing to [std::cerr] and does not throw. *)
Definition prints {A : Type} (m : IO A) (a : A) (text : string) : Prop :=
  forall c, m c = (Returned a, {| cout := cout c ++ text; cerr := cerr c |}).

(** What a statement appends to [std::cout] when it starts from empty streams. *)
Definition printed {A : Type} (m : IO A) : string :=
  cout (snd (m {| cout := ""; cerr := "" |})).

(** What follows the bar on a line: the separator, the label and the line
    feed. *)
Definition bar_label (name : string) (value : double) : string :=
  bar_separator ++ " " ++ name ++ " (" ++ fixed 0 value ++ ")" ++ nl.

(** The text of the first part of the report: the title, the rule, and the
    block of every record. *)
Definition report_text (s : stage) : string :=
  (nl ++ "Performance Metrics for: " ++ stage.name s ++ nl)
  ++ (rule_dashes ++ nl)
  ++ join (map (fun value =>
                  printed (print_record (stage.processed_units_label s ++ " Processed")
                             ("Throughput (" ++ stage.throughput_units_label s ++ ")") value))
             (stage.results s)).

Definition is_faster (baseline_metric metric : performance_metrics) : bool :=
  0 <? diff_percentage baseline_metric metric.

(** The line that reports [metric] as faster than the baseline. *)
Definition faster_line (baseline_metric metric : performance_metrics) : string :=
  performance_metrics.name metric ++ " is "
  ++ fixed 1 (diff_percentage baseline_metric metric) ++ "% faster than "
  ++ performance_metrics.name baseline_metric ++ nl.

(** The records the comparison loop reports as faster, in the order of the
    results: none when the throughput of the baseline is zero. *)
Definition reported_faster (baseline_metric : performance_metrics)
  (metrics : list performance_metrics) : list performance_metrics :=
  if thr baseline_metric =? 0 then [] else filter (is_faster baseline_metric) metrics.

(** What the comparison loop writes to [std::cerr]. *)
Definition zero_baseline_error (baseline_metric : performance_metrics)
  (metrics : list performance_metrics) : string :=
  if thr baseline_metric =? 0 then
    match metrics with
    | [] => ""
    | _ => "Error: " ++ performance_metrics.name baseline_metric
           ++ " has a throughput of 0 MB/s" ++ nl
    end
  else "".

Definition baseline_warning (s : stage) : string :=
  "Warning: baseline '" ++ stage.baseline s ++ "' not found, using slowest" ++ nl.

Definition named_baseline (s : stage) (m : performance_metrics) : bool :=
  (performance_metrics.name m =? stage.baseline s)%string.

End OutputVocabulary.

(** ** Records and runs *)

Section RunVocabulary.
Import std bencher.
#[local] Open Scope float_scope.

(** A record whose throughput is [t]; the other fields are arbitrary. *)
Definition with_throughput (m : performance_metrics) (t : double) : performance_metrics :=
  {| performance_metrics.name := performance_metrics.name m;
     performance_metrics.bytes_processed := performance_metrics.bytes_processed m;
     performance_metrics.throughput_mb_per_sec := t;
     performance_metrics.throughput_median_percentage_deviation :=
       performance_metrics.throughput_median_percentage_deviation m;
     performance_metrics.instructions_per_execution :=
       performance_metrics.instructions_per_execution m;
     performance_metrics.instructions_percentage_deviation :=
       performance_metrics.instructions_percentage_deviation m;
     performance_metrics.instructions_per_cycle := performance_metrics.instructions_per_cycle m;
     performance_metrics.instructions_per_byte := performance_metrics.instructions_per_byte m;
     performance_metrics.branches_per_execution := performance_metrics.branches_per_execution m;
     performance_metrics.branch_misses_per_execution :=
       performance_metrics.branch_misses_per_execution m;
     performance_metrics.cycles_per_execution := performance_metrics.cycles_per_execution m;
     performance_metrics.cycles_percentage_deviation :=
       performance_metrics.cycles_percentage_deviation m;
     performance_metrics.cycles_per_byte := performance_metrics.cycles_per_byte m;
     performance_metrics.frequency_ghz := performance_metrics.frequency_ghz m;
     performance_metrics.total_iteration_count := performance_metrics.total_iteration_count m |}.

(** What holds of an iteration of a body that yields no byte count. *)
Definition idle (it : iteration) : Prop :=
  throughput it = instantaneous_throughput (sample it) /\
  throughput it = 0 /\
  is_nan (throughput it) = false /\
  event_count.bytes_processed (sample it) = 0%N.

(** The bench states [run_with] goes through: the state before each
    parameter's run. *)
Fixpoint states_of_run_with {P : Type} `{Formattable P} (pf : platform) (st : bench)
  (name : string) (pbody : P -> body) (params : list P) : list bench :=
  match params with
  | [] => []
  | p :: params' =>
      st :: states_of_run_with pf (fst (run pf st (name ++ "/" ++ to_text p) (pbody p)))
              name pbody params'
  end.

(** The records [run_with] produces, one per parameter. *)
Definition records_of_run_with {P : Type} `{Formattable P} (pf : platform) (st : bench)
  (name : string) (pbody : P -> body) (params : list P) : list performance_metrics :=
  map (fun sp => snd (run pf (fst sp) (name ++ "/" ++ to_text (snd sp)) (pbody (snd sp))))
    (combine (states_of_run_with pf st name pbody params) params).

End RunVocabulary.

(** ** Colours, charts and rounding *)

(** A number that is zero or positive and at most the integer [B]. *)
Definition sf_below (B : Z) (x : spec_float) : Prop :=
  match x with
  | S754_zero _ => True
  | S754_finite false m e => (e <= 0 /\ Zpos m <= B * 2 ^ (- e))%Z
  | _ => False
  end.

(** ** Texts *)

(** [needle] occurs in [text]. *)
Definition occurs_in (needle text : string) : Prop :=
  exists before after, text = before ++ needle ++ after.

Definition starts_with (start text : string) : Prop := exists rest, text = start ++ rest.

Definition ends_with (final text : string) : Prop := exists rest, text = rest ++ final.

(** A colour that [hex_to_rgb] reads. *)
Definition accepted (colour : string) : Prop := std.throws (BarChart.hex_to_rgb colour) = false.

(** Records whose throughputs are pairwise different numbers (so that none
    is a NaN when there are two records or more). *)
Definition distinct_throughputs (l : list bencher.performance_metrics) : Prop :=
  ForallOrdPairs (fun a b => (thr a <? thr b)%float = true \/ (thr b <? thr a)%float = true) l.

(** The width of the bars and the scale that [generate_bar_chart_svg] draws
    [data] with. *)
Definition drawn_bar_width (cfg : BarChart.chart_config) (data : list float) : float :=
  BarChart.bar_width_of cfg (N.of_nat (List.length data))
    (300 / std.double_of_N (N.of_nat (List.length data) + 2))%float.

Definition drawn_scale (cfg : BarChart.chart_config) (data : list float) : float :=
  ((BarChart.chart_config.chart_height cfg - BarChart.chart_config.margin_top cfg
    - BarChart.chart_config.margin_bottom cfg) / BarChart.scaling_maximum data)%float.

(** A positive number (the positive infinity included) whose exponent is at
    least [-1074] and whose value is at least [2 ^ (M - 1)]. *)
Definition sf_above (M : Z) (x : spec_float) : Prop :=
  match x with
  | S754_infinity false => True
  | S754_finite false m e => (-1074 <= e /\ 2 ^ (M - 1 - e) <= Zpos m)%Z
  | _ => False
  end.

(** The upper-case form of a letter, and of the letters of a text. *)
Definition upper_case (c : ascii) : ascii :=
  let n := nat_of_ascii c in
  if ((97 <=? n) && (n <=? 122))%nat then ascii_of_nat (n - 32) else c.

Fixpoint to_upper (s : string) : string :=
  match s with
  | EmptyString => EmptyString
  | String c s' => String (upper_case c) (to_upper s')
  end.

(** ** Concrete inputs *)

Section Inputs.
Import std bencher.
#[local] Open Scope float_scope.

(** A cast that yields 0 where C++ leaves the cast undefined; none of the
    inputs below reaches it. *)
Definition zero_casts : Casts := {| size_t_out_of_range := fun _ => 0%N |}.

(** A writer that reports an error on every object. *)
Definition failing_writer : Glaze :=
  {| write_string := quoted;
     write_metrics := fun _ => "{}";
     write_error := fun _ => true |}.

(** A writer for the examples, which reports no error.  A string is written
    between double quotes, which is its JSON text when it has no character to
    escape; of a record only the name is written, where the library writes
    every member. *)
Definition names_writer : Glaze :=
  {| write_string := quoted;
     write_metrics := fun m => "{" ++ quoted "name" ++ ":" ++ quoted (performance_metrics.name m) ++ "}";
     write_error := fun _ => false |}.

Definition empty_streams : console := {| cout := ""; cerr := "" |}.

(** A value-initialised record ([performance_metrics{}]) with a name and a
    throughput. *)
Definition record (name : string) (t : double) : performance_metrics :=
  {| performance_metrics.name := name;
     performance_metrics.bytes_processed := None;
     performance_metrics.throughput_mb_per_sec := t;
     performance_metrics.throughput_median_percentage_deviation := 0;
     performance_metrics.instructions_per_execution := None;
     performance_metrics.instructions_percentage_deviation := None;
     performance_metrics.instructions_per_cycle := None;
     performance_metrics.instructions_per_byte := None;
     performance_metrics.branches_per_execution := None;
     performance_metrics.branch_misses_per_execution := None;
     performance_metrics.cycles_per_execution := None;
     performance_metrics.cycles_percentage_deviation := None;
     performance_metrics.cycles_per_byte := None;
     performance_metrics.frequency_ghz := None;
     performance_metrics.total_iteration_count := None |}.

(** A stage named [name] with the given baseline name and results. *)
Definition stage_of (name baseline : string) (results : list performance_metrics) : stage :=
  {| stage.name := name;
     stage.min_execution_count := 30;
     stage.max_execution_count := 1000;
     stage.confidence_interval_threshold := 2;
     stage.baseline := baseline;
     stage.processed_units_label := "Bytes";
     stage.throughput_units_label := "MB/s";
     stage.results := results |}.

(** Two records, the second faster than the first. *)
Definition two_records : stage := stage_of "demo" "" [record "a" 50; record "b" 120].

(** A baseline named by the user whose throughput is negative, and a record
    that is slower still. *)
Definition negative_baseline : stage :=
  stage_of "demo" "a" [record "a" (-10); record "b" (-20)].

(** A platform without hardware counters whose clock reads one millisecond
    for every execution. *)
Definition steady_platform : platform :=
  {| elapsed_seconds := fun _ => 0x1.0624dd2f1a9fcp-10; counters := None |}.

Definition fresh_bench : bench :=
  {| subject := stage_of "bench" "" []; executed := 0 |}.

End Inputs.

Section ChartInputs.
Import std bencher.
#[local] Open Scope float_scope.

(** A cast to [int] that yields 0 where C++ leaves the cast undefined; none
    of the inputs below reaches it. *)
Definition zero_int_casts : IntCasts := {| int_out_of_range := fun _ => 0%Z |}.

(** A formatter of ["{}"] for the examples.  It is right on the integral
    numbers from 0 to 99999, which [std::format] writes with their decimal
    digits and which are the only numbers the examples format this way; any
    other number is written with six decimals, which is not what
    [std::format] does. *)
Definition integral_text : FormatDefault :=
  {| general := fun x =>
       match toward_zero x with
       | Some t =>
           if ((0 <=? t) && (t <? 100000))%Z && (double_of_int t =? x) && negb (1 / x <? 0)
           then to_string_Z t
           else reference_format.fixed_digits 6 x
       | None => reference_format.fixed_digits 6 x
       end |}.

(** The records of [two_records], appended in the other order. *)
Definition two_records_swapped : stage := stage_of "demo" "" [record "b" 120; record "a" 50].

End ChartInputs.

(** * Properties *)

(** ** The order of binary64 numbers *)

Module DoubleOrder.
#[local] Open Scope Z_scope.

Lemma SFcompare_key x y :
  SFcompare x y =
  if sf_is_nan x || sf_is_nan y then None else Some (lex3 (sf_key x) (sf_key y)).
Proof.
  destruct x as [sx|sx| |sx mx ex], y as [sy|sy| |sy my ey];
    try destruct sx; try destruct sy; try reflexivity; cbn -[Z.compare]; f_equal.
  change (-1 ?= -1) with Eq; cbv iota.
  destruct (Z.compare_spec ex ey), (Z.compare_spec (- ex) (- ey)); try lia; reflexivity.
Qed.

Lemma lex3_Lt k k' :
  lex3 k k' = Lt <->
  let '(a, b, c) := k in
  let '(a', b', c') := k' in
  a < a' \/ (a = a' /\ (b < b' \/ (b = b' /\ c < c'))).
Proof.
  destruct k as [[a b] c], k' as [[a' b'] c']; unfold lex3.
  destruct (Z.compare_spec a a'), (Z.compare_spec b b'), (Z.compare_spec c c');
    split; intros; try discriminate; try lia; reflexivity.
Qed.

Lemma lex3_Gt k k' : lex3 k k' = Gt <-> lex3 k' k = Lt.
Proof.
  destruct k as [[a b] c], k' as [[a' b'] c']; unfold lex3.
  destruct (Z.compare_spec a a'), (Z.compare_spec b b'), (Z.compare_spec c c'),
    (Z.compare_spec a' a), (Z.compare_spec b' b), (Z.compare_spec c' c);
    split; intros; try discriminate; try lia; reflexivity.
Qed.

Lemma lex3_Eq k k' : lex3 k k' = Eq <-> k = k'.
Proof.
  destruct k as [[a b] c], k' as [[a' b'] c']; unfold lex3.
  destruct (Z.compare_spec a a'), (Z.compare_spec b b'), (Z.compare_spec c c');
    split; intros E; try discriminate; try (inversion E; lia); subst; reflexivity.
Qed.

Lemma lex3_refl k : lex3 k k = Eq.
Proof.
  destruct k as [[a b] c]; unfold lex3. now rewrite !Z.compare_refl.
Qed.

#[local] Open Scope float_scope.

Lemma is_nan_spec x : is_nan x = sf_is_nan (Prim2SF x).
Proof.
  unfold is_nan. rewrite eqb_spec. unfold SFeqb. rewrite SFcompare_key.
  destruct (sf_is_nan (Prim2SF x)) eqn:E; cbn; [reflexivity|].
  now rewrite lex3_refl.
Qed.

Lemma ltb_key x y :
  (x <? y) = true <->
  is_nan x = false /\ is_nan y = false /\
  lex3 (sf_key (Prim2SF x)) (sf_key (Prim2SF y)) = Lt.
Proof.
  rewrite ltb_spec, !is_nan_spec. unfold SFltb. rewrite SFcompare_key.
  destruct (sf_is_nan (Prim2SF x)), (sf_is_nan (Prim2SF y)); cbn;
    try (split; [discriminate | intros (? & ? & ?); discriminate]).
  destruct (lex3 _ _); split; try discriminate; try tauto; intros (_ & _ & ?); discriminate.
Qed.

Lemma leb_key x y :
  (x <=? y) = true <->
  is_nan x = false /\ is_nan y = false /\
  lex3 (sf_key (Prim2SF x)) (sf_key (Prim2SF y)) <> Gt.
Proof.
  rewrite leb_spec, !is_nan_spec. unfold SFleb. rewrite SFcompare_key.
  destruct (sf_is_nan (Prim2SF x)), (sf_is_nan (Prim2SF y)); cbn;
    try (split; [discriminate | intros (? & ? & ?); discriminate]).
  destruct (lex3 _ _); split; try discriminate; try tauto; easy.
Qed.

Lemma ltb_irrefl x : (x <? x) = false.
Proof.
  destruct (x <? x) eqn:E; [|reflexivity].
  apply ltb_key in E. destruct E as (_ & _ & E). now rewrite lex3_refl in E.
Qed.

Lemma ltb_trans x y z : (x <? y) = true -> (y <? z) = true -> (x <? z) = true.
Proof.
  rewrite !ltb_key. intros (Hx & Hy & H1) (_ & Hz & H2). repeat split; trivial.
  apply lex3_Lt in H1, H2. apply lex3_Lt.
  destruct (sf_key (Prim2SF x)) as [[a b] c], (sf_key (Prim2SF y)) as [[a' b'] c'],
    (sf_key (Prim2SF z)) as [[a'' b''] c'']. lia.
Qed.

Lemma ltb_asym x y : (x <? y) = true -> (y <? x) = false.
Proof.
  intros H. destruct (y <? x) eqn:E; [|reflexivity].
  pose proof (ltb_trans _ _ _ H E) as T. now rewrite ltb_irrefl in T.
Qed.

(** IEEE equality excludes both strict comparisons. *)
Lemma eqb_not_ltb x y : (x =? y) = true -> (x <? y) = false /\ (y <? x) = false.
Proof.
  rewrite eqb_spec, !ltb_spec. unfold SFeqb, SFltb. rewrite !SFcompare_key.
  destruct (sf_is_nan (Prim2SF x)), (sf_is_nan (Prim2SF y)); cbn; try discriminate.
  destruct (lex3 (sf_key (Prim2SF x)) (sf_key (Prim2SF y))) eqn:E; try discriminate.
  intros _. split; [reflexivity|].
  apply lex3_Eq in E. rewrite E, lex3_refl. reflexivity.
Qed.

(** Away from NaN the order is total: what is not below is at least. *)
Lemma not_ltb_leb x y :
  is_nan x = false -> is_nan y = false -> (x <? y) = false -> (y <=? x) = true.
Proof.
  intros Hx Hy H. apply leb_key. repeat split; trivial.
  intros G. apply lex3_Gt in G.
  assert (T : (x <? y) = true) by (apply ltb_key; auto). congruence.
Qed.

(** Away from NaN, not being below is transitive. *)
Lemma ltb_incomparable x y z :
  is_nan x = false -> is_nan y = false -> is_nan z = false ->
  (x <? y) = false -> (y <? z) = false -> (x <? z) = false.
Proof.
  intros Hx Hy Hz H1 H2. destruct (x <? z) eqn:E; [exfalso|reflexivity].
  apply ltb_key in E. destruct E as (_ & _ & E).
  assert (N1 : lex3 (sf_key (Prim2SF x)) (sf_key (Prim2SF y)) <> Lt).
  { intros L. rewrite (proj2 (ltb_key x y)) in H1 by auto. discriminate. }
  assert (N2 : lex3 (sf_key (Prim2SF y)) (sf_key (Prim2SF z)) <> Lt).
  { intros L. rewrite (proj2 (ltb_key y z)) in H2 by auto. discriminate. }
  rewrite lex3_Lt in E, N1, N2.
  destruct (sf_key (Prim2SF x)) as [[a b] c], (sf_key (Prim2SF y)) as [[a' b'] c'],
    (sf_key (Prim2SF z)) as [[a'' b''] c'']. lia.
Qed.

Lemma ltb_leb x y : (x <? y) = true -> (x <=? y) = true.
Proof.
  rewrite ltb_key, leb_key. intros (? & ? & E). repeat split; trivial. congruence.
Qed.

Lemma zero_ltb_pos x : (0 <? x) = sf_pos (Prim2SF x).
Proof.
  rewrite ltb_spec. change (Prim2SF 0) with (S754_zero false).
  destruct (Prim2SF x) as [s|s| |s m e]; try destruct s; reflexivity.
Qed.

End DoubleOrder.

(** ** The sign of a difference, a quotient and a product *)

Module DoubleSign.
Import DoubleOrder.
#[local] Open Scope Z_scope.

(** Rounding keeps the sign it is given: a negative sign never yields a
    positive number. *)
Lemma binary_round_aux_neg mx ex lx :
  sf_pos (binary_round_aux prec emax true mx ex lx) = false.
Proof.
  unfold binary_round_aux.
  destruct (shr_fexp prec emax mx ex lx) as [mrs' e'].
  destruct (shr_fexp prec emax _ e' loc_Exact) as [mrs'' e''].
  destruct (shr_m mrs''); [reflexivity| |reflexivity].
  destruct (e'' <=? emax - prec); reflexivity.
Qed.

Lemma binary_normalize_nonpos z e :
  z <= 0 -> sf_pos (binary_normalize prec emax z e false) = false.
Proof.
  destruct z as [|p|p]; intros Hz; [reflexivity|lia|].
  unfold binary_normalize, binary_round.
  destruct (shl_align p e _) as [mz ez]. apply binary_round_aux_neg.
Qed.

Lemma digits2_pos_bounds m :
  2 ^ (Zpos (digits2_pos m) - 1) <= Zpos m < 2 ^ Zpos (digits2_pos m).
Proof.
  induction m as [m IH|m IH|]; cbn [digits2_pos].
  - rewrite Pos2Z.inj_succ.
    replace (Z.succ (Zpos (digits2_pos m)) - 1) with (Z.succ (Zpos (digits2_pos m) - 1)) by lia.
    rewrite !Z.pow_succ_r by lia. lia.
  - rewrite Pos2Z.inj_succ.
    replace (Z.succ (Zpos (digits2_pos m)) - 1) with (Z.succ (Zpos (digits2_pos m) - 1)) by lia.
    rewrite !Z.pow_succ_r by lia. lia.
  - cbn. lia.
Qed.

Lemma iter_xO m d : Zpos (Pos.iter xO m d) = Zpos m * 2 ^ Zpos d.
Proof.
  revert m. induction d as [|d IH] using Pos.peano_ind; intros m.
  - cbn. lia.
  - rewrite Pos.iter_succ, Pos2Z.inj_succ, Z.pow_succ_r by lia.
    rewrite Pos2Z.inj_xO, IH. lia.
Qed.

Lemma shl_align_fst m e e' :
  e' <= e -> Zpos (fst (shl_align m e e')) = Zpos m * 2 ^ (e - e').
Proof.
  intros He. unfold shl_align.
  destruct (e' - e) as [|d|d] eqn:E; cbn [fst].
  - replace (e - e') with 0 by lia. cbn. lia.
  - lia.
  - rewrite iter_xO. f_equal. f_equal. lia.
Qed.

(** A canonical mantissa has at most [prec] bits, and exactly [prec] bits
    above the least exponent. *)
Lemma bounded_inv m e :
  bounded prec emax m e = true ->
  3 - emax - prec <= e /\ Zpos m < 2 ^ prec /\
  (3 - emax - prec < e -> 2 ^ (prec - 1) <= Zpos m).
Proof.
  unfold bounded, canonical_mantissa, fexp, SpecFloat.emin.
  intros H. apply andb_prop in H. destruct H as [H _]. apply Z.eqb_eq in H.
  pose proof (digits2_pos_bounds m) as [B1 B2].
  set (d := Zpos (digits2_pos m)) in *.
  assert (Hd : d <= prec) by lia.
  repeat split.
  - lia.
  - eapply Z.lt_le_trans; [exact B2|]. apply Z.pow_le_mono_r; lia.
  - intros He. assert (Hp : d = prec) by lia. now rewrite <- Hp.
Qed.

Lemma pow2_ge_2 k : 0 < k -> 2 <= 2 ^ k.
Proof.
  intros Hk. replace k with (Z.succ (k - 1)) by lia.
  rewrite Z.pow_succ_r by lia.
  assert (0 < 2 ^ (k - 1)) by (apply Z.pow_pos_nonneg; lia). lia.
Qed.

(** The integer that [SFsub] rounds: it is not positive when the second
    operand is not below the first. *)
Lemma aligned_difference_nonpos sx mx ex sy my ey :
  bounded prec emax mx ex = true -> bounded prec emax my ey = true ->
  lex3 (sf_key (S754_finite sy my ey)) (sf_key (S754_finite sx mx ex)) <> Lt ->
  cond_Zopp sx (Zpos (fst (shl_align mx ex (Z.min ex ey)))) -
  cond_Zopp sy (Zpos (fst (shl_align my ey (Z.min ex ey)))) <= 0.
Proof.
  intros Vx Vy K. apply bounded_inv in Vx, Vy.
  rewrite !shl_align_fst by lia.
  rewrite lex3_Lt in K.
  assert (P2 : 2 ^ prec = 2 * 2 ^ (prec - 1)) by reflexivity.
  assert (Px : 0 < 2 ^ (ex - Z.min ex ey)) by (apply Z.pow_pos_nonneg; lia).
  assert (Py : 0 < 2 ^ (ey - Z.min ex ey)) by (apply Z.pow_pos_nonneg; lia).
  destruct sx, sy; cbn [cond_Zopp sf_key] in *.
  - destruct (Z.min_spec ex ey) as [[? E]|[? E]]; rewrite E in *; [lia|].
    rewrite Z.sub_diag, Z.pow_0_r.
    destruct (Z.eq_dec ex ey) as [->|Hne]; [rewrite Z.sub_diag, Z.pow_0_r; lia|].
    pose proof (pow2_ge_2 (ex - ey)). nia.
  - nia.
  - exfalso. apply K. lia.
  - destruct (Z.min_spec ex ey) as [[? E]|[? E]]; rewrite E in *.
    + rewrite Z.sub_diag, Z.pow_0_r. pose proof (pow2_ge_2 (ey - ex)). nia.
    + assert (ex = ey) by lia. subst. rewrite Z.sub_diag, Z.pow_0_r. lia.
Qed.

Lemma SFsub_not_pos x y :
  valid_binary x = true -> valid_binary y = true ->
  SFltb y x = false -> sf_pos (SFsub prec emax x y) = false.
Proof.
  unfold SFltb. rewrite SFcompare_key.
  destruct x as [sx|sx| |sx mx ex], y as [sy|sy| |sy my ey];
    try (try destruct sx; try destruct sy; cbn; intros Vx Vy H;
         first [reflexivity | discriminate]).
  cbn [sf_is_nan orb valid_binary]. intros Vx Vy H.
  unfold SFsub. apply binary_normalize_nonpos.
  apply aligned_difference_nonpos; trivial.
  intros K. rewrite K in H. discriminate.
Qed.

Lemma SFdiv_not_pos x y :
  sf_pos x = false -> sf_pos y = true -> sf_pos (SFdiv prec emax x y) = false.
Proof.
  destruct x as [sx|sx| |sx mx ex], y as [sy|sy| |sy my ey];
    try destruct sx; try destruct sy; try discriminate; try reflexivity.
  intros _ _. unfold SFdiv.
  destruct (SFdiv_core_binary _ _ _ _ _ _) as [[mz ez] lz].
  apply binary_round_aux_neg.
Qed.

Lemma SFmul_not_pos x y :
  sf_pos x = false -> sf_pos y = true -> sf_pos (SFmul prec emax x y) = false.
Proof.
  destruct x as [sx|sx| |sx mx ex], y as [sy|sy| |sy my ey];
    try destruct sx; try destruct sy; try discriminate; try reflexivity.
  intros _ _. apply binary_round_aux_neg.
Qed.

#[local] Open Scope float_scope.

Lemma not_neg_nonzero_pos x :
  (x <? 0) = false -> (x =? 0) = false -> is_nan x = false -> sf_pos (Prim2SF x) = true.
Proof.
  rewrite ltb_spec, eqb_spec, is_nan_spec. change (Prim2SF 0) with (S754_zero false).
  destruct (Prim2SF x) as [s|s| |s m e]; try destruct s; cbn; congruence.
Qed.

(** [((m - b) / b) * 100] is positive only when [b < m], for a [b] that is
    neither negative nor zero. *)
Lemma percent_diff_pos m b :
  (b <? 0) = false -> (b =? 0) = false ->
  (0 <? (m - b) / b * 100) = true -> (b <? m) = true.
Proof.
  intros Hneg Hz Hd.
  destruct (b <? m) eqn:E; [reflexivity|exfalso].
  rewrite zero_ltb_pos, mul_spec, div_spec, sub_spec in Hd.
  destruct (is_nan b) eqn:Nb.
  - rewrite is_nan_spec in Nb. destruct (Prim2SF b); try discriminate.
    destruct (Prim2SF m); discriminate.
  - assert (Pb := not_neg_nonzero_pos b Hneg Hz Nb).
    rewrite ltb_spec in E.
    pose proof (SFsub_not_pos _ _ (Prim2SF_valid m) (Prim2SF_valid b) E) as S1.
    pose proof (SFdiv_not_pos _ _ S1 Pb) as S2.
    assert (P100 : sf_pos (Prim2SF 100) = true) by reflexivity.
    pose proof (SFmul_not_pos _ _ S2 P100) as S3.
    unfold SF64mul, SF64div, SF64sub in Hd. congruence.
Qed.

End DoubleSign.

(** ** The comparison of two metrics records *)

Section MetricsComparison.
Import bencher.
#[local] Open Scope float_scope.

(** C3.  The comparison of two records looks at the throughput only and is a
    strict order on it: [a > b] holds exactly when the throughput of [a]
    exceeds that of [b]; two records whose other fields differ compare like
    their throughputs; the comparison is irreflexive, asymmetric and
    transitive; when the throughputs are equal neither [a > b] nor [b > a]
    holds; and with throughputs 100 and 50 the first is greater and the
    second is not. *)
Theorem metrics_comparison_is_strict_on_throughput :
  (forall a b, performance_metrics.gt a b = true <-> (thr b <? thr a) = true) /\
  (forall a b a' b', thr a = thr a' -> thr b = thr b' ->
     performance_metrics.gt a b = performance_metrics.gt a' b') /\
  (forall a, performance_metrics.gt a a = false) /\
  (forall a b, performance_metrics.gt a b = true -> performance_metrics.gt b a = false) /\
  (forall a b c, performance_metrics.gt a b = true -> performance_metrics.gt b c = true ->
     performance_metrics.gt a c = true) /\
  (forall a b, (thr a =? thr b) = true ->
     performance_metrics.gt a b = false /\ performance_metrics.gt b a = false) /\
  (forall a b,
     performance_metrics.gt (with_throughput a 100) (with_throughput b 50) = true /\
     performance_metrics.gt (with_throughput b 50) (with_throughput a 100) = false /\
     performance_metrics.gt (with_throughput a 100) (with_throughput b 100) = false /\
     performance_metrics.gt (with_throughput b 100) (with_throughput a 100) = false).
Proof.
  unfold performance_metrics.gt, thr. repeat split.
  - trivial.
  - trivial.
  - intros a b a' b' Ha Hb. now rewrite Ha, Hb.
  - intros a. apply DoubleOrder.ltb_irrefl.
  - intros a b. apply DoubleOrder.ltb_asym.
  - intros a b c Hab Hbc. exact (DoubleOrder.ltb_trans _ _ _ Hbc Hab).
  - apply (DoubleOrder.eqb_not_ltb _ _ H).
  - apply (DoubleOrder.eqb_not_ltb _ _ H).
Qed.

End MetricsComparison.

(** ** Strings and lists *)

Module StringFacts.

Lemma append_assoc (a b c : string) : (a ++ b) ++ c = a ++ (b ++ c).
Proof.
  induction a as [|x a IH]; cbn; [reflexivity|now rewrite IH].
Qed.

Lemma append_nil_r (a : string) : a ++ "" = a.
Proof.
  induction a as [|x a IH]; cbn; [reflexivity|now rewrite IH].
Qed.

Lemma append_eq_nil (a b : string) : a ++ b = "" -> a = "" /\ b = "".
Proof.
  destruct a; cbn; [auto|discriminate].
Qed.

Lemma length_append (a b : string) :
  String.length (a ++ b) = (String.length a + String.length b)%nat.
Proof.
  induction a as [|x a IH]; cbn; [reflexivity|now rewrite IH].
Qed.

Lemma join_app (l l' : list string) :
  std.join (l ++ l')%list = std.join l ++ std.join l'.
Proof.
  unfold std.join. induction l as [|x l IH]; cbn; [reflexivity|].
  now rewrite IH, append_assoc.
Qed.

(** A loop that appends [f x] for each [x] appends their concatenation. *)
Lemma fold_left_append {X : Type} (f : X -> string) (xs : list X) (acc : string) :
  fold_left (fun result x => result ++ f x) xs acc = acc ++ std.join (map f xs).
Proof.
  unfold std.join. revert acc. induction xs as [|x xs IH]; intros acc; cbn.
  - now rewrite append_nil_r.
  - now rewrite IH, append_assoc.
Qed.

End StringFacts.

(** ** [std::sort], [std::min_element], [std::max_element] *)

Module AlgorithmFacts.
Import std.

Section Comparator.
Context {A : Type} (comp : A -> A -> bool).

Lemma linear_insert_perm x l :
  Permutation (unguarded_linear_insert comp x l) (x :: l).
Proof.
  induction l as [|y l IH]; cbn; [reflexivity|].
  destruct (comp x y); [|reflexivity].
  rewrite IH. apply perm_swap.
Qed.

Lemma round_perm l x : Permutation (insertion_round comp l x) (x :: l).
Proof.
  unfold insertion_round. destruct (comp x (last l x)).
  - symmetry. apply Permutation_cons_append.
  - apply linear_insert_perm.
Qed.

Lemma rounds_perm l : forall before,
  Permutation (fold_left (insertion_round comp) l before) (before ++ l).
Proof.
  induction l as [|x l IH]; intros before; cbn [fold_left].
  - now rewrite app_nil_r.
  - rewrite IH, round_perm. apply Permutation_middle.
Qed.

Lemma sort_perm l : Permutation (sort comp l) l.
Proof.
  destruct l as [|x l]; cbn [sort]; [reflexivity|].
  rewrite <- Permutation_rev. apply (rounds_perm l [x]).
Qed.

Lemma sort_length l : List.length (sort comp l) = List.length l.
Proof. apply Permutation_length, sort_perm. Qed.

Lemma sorted_snoc (R : A -> A -> Prop) x l :
  StronglySorted R l -> Forall (fun a => R a x) l -> StronglySorted R (l ++ [x]).
Proof.
  induction 1 as [|y l Hl IH Hy]; intros Hx; cbn [app].
  - repeat constructor.
  - inversion Hx as [|? ? Hyx Hlx]; subst.
    constructor; [now apply IH|].
    apply Forall_app. split; [assumption|now constructor].
Qed.

(** The sorted part, listed from its last element to its first. *)
Lemma backwards_rev (R : A -> A -> Prop) l :
  StronglySorted (fun a b => R b a) l -> StronglySorted R (rev l).
Proof.
  induction 1 as [|x l Hl IH Hx]; cbn [rev]; [constructor|].
  apply sorted_snoc; [assumption|].
  rewrite Forall_forall in *. intros a Ha. apply Hx. now apply in_rev.
Qed.

Variable P : A -> Prop.
Hypothesis comp_asym : forall a b, comp a b = true -> comp b a = false.
Hypothesis comp_trans : forall a b c, comp a b = true -> comp b c = true -> comp a c = true.
Hypothesis comp_incomparable : forall a b c,
  P a -> P b -> P c -> comp a b = false -> comp b c = false -> comp a c = false.

Lemma linear_insert_sorted x l :
  P x -> Forall P l ->
  StronglySorted (fun a b => in_order comp b a) l ->
  StronglySorted (fun a b => in_order comp b a) (unguarded_linear_insert comp x l).
Proof.
  intros Px Pl Hs. induction Hs as [|y l Hl IH Hy]; cbn.
  - repeat constructor.
  - inversion Pl as [|? ? Py Pl']; subst.
    destruct (comp x y) eqn:E.
    + constructor; [now apply IH|].
      rewrite Forall_forall in *. intros z Hz.
      apply (Permutation_in _ (linear_insert_perm x l)) in Hz.
      destruct Hz as [<-|Hz]; [now apply comp_asym|auto].
    + constructor; [now constructor|].
      constructor; [exact E|].
      rewrite Forall_forall in *. intros z Hz. unfold in_order.
      apply comp_incomparable with y; auto. now apply Hy.
Qed.

Lemma last_in (l : list A) d : l <> [] -> In (last l d) l.
Proof.
  induction l as [|x [|y l] IH]; intros H; [congruence|now left|].
  right. apply IH. discriminate.
Qed.

Lemma front_sorted x l :
  comp x (last l x) = true ->
  StronglySorted (fun a b => in_order comp b a) l ->
  StronglySorted (fun a b => in_order comp b a) (l ++ [x]).
Proof.
  intros E Hs. induction Hs as [|y l Hl IH Hy].
  - repeat constructor.
  - cbn [app]. destruct l as [|z l].
    + cbn in E |- *. repeat constructor. now apply comp_asym.
    + constructor; [apply IH; exact E|].
      apply Forall_app. split; [assumption|]. constructor; [|constructor].
      unfold in_order. destruct (comp y x) eqn:Eyx; [|reflexivity].
      change (last (y :: z :: l) x) with (last (z :: l) x) in E.
      rewrite Forall_forall in Hy.
      specialize (Hy (last (z :: l) x) (last_in (z :: l) x ltac:(discriminate))).
      unfold in_order in Hy. now rewrite (comp_trans _ _ _ Eyx E) in Hy.
Qed.

Lemma round_sorted l x :
  P x -> Forall P l ->
  StronglySorted (fun a b => in_order comp b a) l ->
  StronglySorted (fun a b => in_order comp b a) (insertion_round comp l x).
Proof.
  intros Px Pl Hs. unfold insertion_round. destruct (comp x (last l x)) eqn:E.
  - now apply front_sorted.
  - now apply linear_insert_sorted.
Qed.

Lemma rounds_sorted l : forall before,
  Forall P l -> Forall P before ->
  StronglySorted (fun a b => in_order comp b a) before ->
  StronglySorted (fun a b => in_order comp b a) (fold_left (insertion_round comp) l before).
Proof.
  induction l as [|x l IH]; intros before Pl Pb Hs; cbn [fold_left]; [assumption|].
  inversion Pl as [|? ? Px Pl']; subst.
  apply IH; [assumption| |now apply round_sorted].
  rewrite Forall_forall in *. intros z Hz.
  apply (Permutation_in _ (round_perm before x)) in Hz.
  destruct Hz as [<-|Hz]; auto.
Qed.

Lemma sort_sorted l : Forall P l -> StronglySorted (in_order comp) (sort comp l).
Proof.
  intros Pl. destruct l as [|x l]; cbn [sort]; [constructor|].
  inversion Pl as [|? ? Px Pl']; subst.
  apply backwards_rev, rounds_sorted; [assumption|now constructor|repeat constructor].
Qed.

(** [std::min_element] returns an element of the range that no element of
    the range precedes. *)
Lemma comp_irrefl x : comp x x = false.
Proof.
  destruct (comp x x) eqn:E; [|reflexivity]. now rewrite (comp_asym _ _ E) in E.
Qed.

Lemma min_element_from_spec l : forall smallest,
  let m := min_element_from comp smallest l in
  (m = smallest \/ In m l) /\
  (m = smallest \/ comp m smallest = true) /\
  (forall x, In x l -> comp x m = false).
Proof.
  induction l as [|y l IH]; intros smallest; cbn.
  - repeat split; auto.
  - destruct (IH (if comp y smallest then y else smallest)) as (I1 & I2 & I3).
    set (m := min_element_from comp _ l) in *.
    destruct (comp y smallest) eqn:E.
    + repeat split.
      * destruct I1 as [->|I1]; auto.
      * destruct I2 as [->|I2]; auto. right. now apply comp_trans with y.
      * intros x [Hx|Hx]; [subst x|auto].
        destruct I2 as [->|I2]; [apply comp_irrefl|now apply comp_asym].
    + repeat split.
      * destruct I1 as [->|I1]; auto.
      * assumption.
      * intros x [Hx|Hx]; [subst x|auto].
        destruct I2 as [->|I2]; [exact E|].
        destruct (comp y m) eqn:Ex; [|reflexivity].
        now rewrite (comp_trans _ _ _ Ex I2) in E.
Qed.

Lemma min_element_spec l m :
  min_element comp l = Some m ->
  In m l /\ forall x, In x l -> comp x m = false.
Proof.
  destruct l as [|y l]; cbn; [discriminate|]. intros [= <-].
  destruct (min_element_from_spec l y) as (I1 & I2 & I3).
  set (m := min_element_from comp y l) in *. split.
  - destruct I1 as [->|I1]; auto.
  - intros x [Hx|Hx]; [subst x|auto].
    destruct I2 as [->|I2]; [apply comp_irrefl|now apply comp_asym].
Qed.

(** [std::max_element] returns an element of the range that precedes no
    element of the range. *)
Lemma max_element_from_spec l : forall largest,
  let m := max_element_from comp largest l in
  (m = largest \/ In m l) /\
  (m = largest \/ comp largest m = true) /\
  (forall x, In x l -> comp m x = false).
Proof.
  induction l as [|y l IH]; intros largest; cbn.
  - repeat split; auto.
  - destruct (IH (if comp largest y then y else largest)) as (I1 & I2 & I3).
    set (m := max_element_from comp _ l) in *.
    destruct (comp largest y) eqn:E.
    + repeat split.
      * destruct I1 as [->|I1]; auto.
      * destruct I2 as [->|I2]; auto. right. now apply comp_trans with y.
      * intros x [Hx|Hx]; [subst x|auto].
        destruct I2 as [->|I2]; [apply comp_irrefl|now apply comp_asym].
    + repeat split.
      * destruct I1 as [->|I1]; auto.
      * assumption.
      * intros x [Hx|Hx]; [subst x|auto].
        destruct I2 as [->|I2]; [exact E|].
        destruct (comp m y) eqn:Ex; [|reflexivity].
        now rewrite (comp_trans _ _ _ I2 Ex) in E.
Qed.

Lemma max_element_spec l m :
  max_element comp l = Some m ->
  In m l /\ forall x, In x l -> comp m x = false.
Proof.
  destruct l as [|y l]; cbn; [discriminate|]. intros [= <-].
  destruct (max_element_from_spec l y) as (I1 & I2 & I3).
  set (m := max_element_from comp y l) in *. split.
  - destruct I1 as [->|I1]; auto.
  - intros x [Hx|Hx]; [subst x|auto].
    destruct I2 as [->|I2]; [apply comp_irrefl|now apply comp_asym].
Qed.

End Comparator.

Lemma min_element_nonempty {A : Type} (comp : A -> A -> bool) (l : list A) :
  l <> [] -> exists m, min_element comp l = Some m.
Proof.
  destruct l as [|y l]; [congruence|]. intros _. cbn. eauto.
Qed.

Lemma StronglySorted_weaken {A : Type} (R R' : A -> A -> Prop) (P : A -> Prop) (l : list A) :
  (forall a b, P a -> P b -> R a b -> R' a b) ->
  Forall P l -> StronglySorted R l -> StronglySorted R' l.
Proof.
  intros W HP HS. induction HS as [|x l Hl IH Hx]; [constructor|].
  inversion HP as [|? ? Px Pl]; subst.
  constructor; [auto|].
  rewrite Forall_forall in *. intros z Hz. apply W; auto.
Qed.

End AlgorithmFacts.

(** ** The median *)

Section Median.
Import std bencher.
#[local] Open Scope float_scope.

Lemma sort_ascending xs :
  Forall not_nan xs ->
  StronglySorted (fun a b => (a <=? b) = true) (sort PrimFloat.ltb xs).
Proof.
  intros Hn.
  apply AlgorithmFacts.StronglySorted_weaken
    with (R := in_order PrimFloat.ltb) (P := not_nan).
  - intros a b Ha Hb Hab. now apply DoubleOrder.not_ltb_leb.
  - rewrite Forall_forall in *. intros x Hx. apply Hn.
    now apply (Permutation_in _ (AlgorithmFacts.sort_perm PrimFloat.ltb xs)).
  - apply AlgorithmFacts.sort_sorted with (P := not_nan); [| | |exact Hn].
    + apply DoubleOrder.ltb_asym.
    + apply DoubleOrder.ltb_trans.
    + apply DoubleOrder.ltb_incomparable.
Qed.

(** C5.  For a non-empty sequence of numbers (no NaN), [median] returns the
    middle element of a sorted copy when the length is odd and the average of
    the two middle elements when it is even, and leaves the caller's sequence
    as it was; the median of a single element is that element; and the
    medians of {5,1,3,2,4}, {1,2,3,4} and {7} are 3, 2.5 and 7. *)
Theorem median_is_middle_of_sorted_copy :
  (forall xs, xs <> [] -> Forall not_nan xs ->
     exists sorted,
       Permutation sorted xs /\
       StronglySorted (fun a b => (a <=? b) = true) sorted /\
       fst (stats.median_call xs) = xs /\
       snd (stats.median_call xs) = stats.median xs /\
       (Nat.odd (List.length xs) = true ->
          stats.median xs = nth (List.length xs / 2) sorted 0) /\
       (Nat.odd (List.length xs) = false ->
          stats.median xs =
          (nth (List.length xs / 2 - 1) sorted 0 + nth (List.length xs / 2) sorted 0) / 2)) /\
  (forall x, stats.median [x] = x) /\
  stats.median [5; 1; 3; 2; 4] = 3 /\
  stats.median [1; 2; 3; 4] = 2.5 /\
  stats.median [7] = 7.
Proof.
  split; [|repeat split].
  intros xs _ Hn. exists (sort PrimFloat.ltb xs).
  split; [apply AlgorithmFacts.sort_perm|].
  split; [now apply sort_ascending|].
  split; [reflexivity|]. split; [reflexivity|].
  unfold stats.median. rewrite AlgorithmFacts.sort_length.
  split; intros ->; reflexivity.
Qed.

Lemma median_is_middle_of_sorted_copy_witness :
  exists sorted,
    Permutation sorted [4; 2; 9; 1] /\
    StronglySorted (fun a b => (a <=? b) = true) sorted /\
    fst (stats.median_call [4; 2; 9; 1]) = [4; 2; 9; 1] /\
    snd (stats.median_call [4; 2; 9; 1]) = stats.median [4; 2; 9; 1] /\
    (Nat.odd 4 = true -> stats.median [4; 2; 9; 1] = nth 2 sorted 0) /\
    (Nat.odd 4 = false -> stats.median [4; 2; 9; 1] = (nth 1 sorted 0 + nth 2 sorted 0) / 2).
Proof.
  apply (proj1 median_is_middle_of_sorted_copy [4; 2; 9; 1]).
  - discriminate.
  - repeat constructor.
Defined.

End Median.

(** ** [to_markdown] *)

Section Markdown.
Import std bencher.
Context {F : Format}.
#[local] Open Scope float_scope.

Lemma markdown_loop (pl tl : string) (l : list performance_metrics)
  (st : stage) (ms : list performance_metrics) (md : string) :
  fold_left
    (fun f value =>
       {| stage_ref := stage_ref f;
          metrics := metrics f;
          markdown := markdown f ++ markdown_section pl tl value |})
    l {| stage_ref := st; metrics := ms; markdown := md |}
  = {| stage_ref := st; metrics := ms;
       markdown := md ++ join (map (markdown_section pl tl) l) |}.
Proof.
  revert md. induction l as [|x l IH]; intros md; cbn.
  - now rewrite StringFacts.append_nil_r.
  - now rewrite IH, StringFacts.append_assoc.
Qed.

Lemma to_markdown_frame_eq (s : stage) :
  to_markdown_frame s =
  {| stage_ref := s;
     metrics := sort performance_metrics.gt (stage.results s);
     markdown :=
       "## Performance Metrics for: " ++ stage.name s ++ nl ++ nl
       ++ join (map (markdown_section (stage.processed_units_label s ++ " Processed")
                       ("Throughput (" ++ stage.throughput_units_label s ++ ")"))
                  (sort performance_metrics.gt (stage.results s))) |}.
Proof.
  unfold to_markdown_frame. cbv zeta. cbn [stage_ref metrics markdown].
  rewrite markdown_loop. cbn [String.append].
  now rewrite !StringFacts.append_assoc.
Qed.

(** The line of the throughput in a section: no decimals above 100, one
    above 10, two otherwise. *)
Lemma format_metric_double (label : string) (v : double) :
  format_metric label (metric_double v)
  = "**" ++ label ++ "**: "
    ++ fixed (if 100 <? v then 0 else if 10 <? v then 1 else 2) v ++ nl.
Proof.
  cbn [format_metric]. unfold format_value_double.
  destruct (100 <? v); [reflexivity|]. destruct (10 <? v); reflexivity.
Qed.

(** A section names its record, shows its throughput and ends with a rule. *)
Lemma markdown_section_shape (pl tl : string) (m : performance_metrics) :
  starts_with ("### Metrics for: " ++ performance_metrics.name m ++ nl ++ nl)
    (markdown_section pl tl m) /\
  occurs_in ("**" ++ tl ++ "**: "
             ++ fixed (if 100 <? thr m then 0 else if 10 <? thr m then 1 else 2) (thr m) ++ nl)
    (markdown_section pl tl m) /\
  ends_with (nl ++ "---" ++ nl ++ nl) (markdown_section pl tl m).
Proof.
  unfold markdown_section. rewrite format_metric_double.
  set (line := "**" ++ tl ++ "**: " ++ _ ++ nl).
  set (first_line := format_metric pl _).
  repeat split.
  - exists (first_line ++ line
            ++ format_metric "Throughput MAD (±%)"
                 (metric_double (performance_metrics.throughput_median_percentage_deviation m))
            ++ format_metric "Instructions per Execution"
                 (metric_optional_double (performance_metrics.instructions_per_execution m))
            ++ format_metric "Instructions Percentage Deviation (±%)"
                 (metric_optional_double (performance_metrics.instructions_percentage_deviation m))
            ++ format_metric "Instructions per Cycle"
                 (metric_optional_double (performance_metrics.instructions_per_cycle m))
            ++ format_metric "Instructions per Byte"
                 (metric_optional_double (performance_metrics.instructions_per_byte m))
            ++ format_metric "Branches per Execution"
                 (metric_optional_double (performance_metrics.branches_per_execution m))
            ++ format_metric "Branch Misses per Execution"
                 (metric_optional_double (performance_metrics.branch_misses_per_execution m))
            ++ format_metric "Cycles per Execution"
                 (metric_optional_double (performance_metrics.cycles_per_execution m))
            ++ format_metric "Cycles Percentage Deviation (±%)"
                 (metric_optional_double (performance_metrics.cycles_percentage_deviation m))
            ++ format_metric "Cycles per Byte"
                 (metric_optional_double (performance_metrics.cycles_per_byte m))
            ++ format_metric "Frequency (GHz)"
                 (metric_optional_double (performance_metrics.frequency_ghz m))
            ++ format_metric "Total Iterations"
                 (metric_optional_count (performance_metrics.total_iteration_count m))
            ++ nl ++ "---" ++ nl ++ nl).
    now rewrite !StringFacts.append_assoc.
  - exists ("### Metrics for: " ++ performance_metrics.name m ++ nl ++ nl ++ first_line).
    eexists. rewrite !StringFacts.append_assoc. reflexivity.
  - exists ("### Metrics for: " ++ performance_metrics.name m ++ nl ++ nl
            ++ first_line ++ line
            ++ format_metric "Throughput MAD (±%)"
                 (metric_double (performance_metrics.throughput_median_percentage_deviation m))
            ++ format_metric "Instructions per Execution"
                 (metric_optional_double (performance_metrics.instructions_per_execution m))
            ++ format_metric "Instructions Percentage Deviation (±%)"
                 (metric_optional_double (performance_metrics.instructions_percentage_deviation m))
            ++ format_metric "Instructions per Cycle"
                 (metric_optional_double (performance_metrics.instructions_per_cycle m))
            ++ format_metric "Instructions per Byte"
                 (metric_optional_double (performance_metrics.instructions_per_byte m))
            ++ format_metric "Branches per Execution"
                 (metric_optional_double (performance_metrics.branches_per_execution m))
            ++ format_metric "Branch Misses per Execution"
                 (metric_optional_double (performance_metrics.branch_misses_per_execution m))
            ++ format_metric "Cycles per Execution"
                 (metric_optional_double (performance_metrics.cycles_per_execution m))
            ++ format_metric "Cycles Percentage Deviation (±%)"
                 (metric_optional_double (performance_metrics.cycles_percentage_deviation m))
            ++ format_metric "Cycles per Byte"
                 (metric_optional_double (performance_metrics.cycles_per_byte m))
            ++ format_metric "Frequency (GHz)"
                 (metric_optional_double (performance_metrics.frequency_ghz m))
            ++ format_metric "Total Iterations"
                 (metric_optional_count (performance_metrics.total_iteration_count m))).
    now rewrite !StringFacts.append_assoc.
Qed.

(** C6.  [to_markdown] copies the results of the stage, sorts the copy and
    leaves the stage it received as it was: the copy is a permutation of the
    results, and when no throughput is a NaN (as [std::sort] requires of its
    comparator) it is in descending order of throughput.  The text is the
    title followed by one section per record of the sorted copy, in that
    order; the section of a record starts with a heading that names the
    record, shows its throughput (without decimals above 100, with one above
    10, with two otherwise) and ends with a rule. *)
Theorem to_markdown_ranks_by_descending_throughput (s : stage) :
  let f := to_markdown_frame s in
  stage_ref f = s /\
  stage.results (stage_ref f) = stage.results s /\
  Permutation (metrics f) (stage.results s) /\
  (Forall (fun m => not_nan (thr m)) (stage.results s) ->
   StronglySorted (fun a b => (thr b <=? thr a) = true) (metrics f)) /\
  exists sections,
    to_markdown s = "## Performance Metrics for: " ++ stage.name s ++ nl ++ nl ++ join sections /\
    Forall2
      (fun m section =>
         starts_with ("### Metrics for: " ++ performance_metrics.name m ++ nl ++ nl) section /\
         occurs_in ("**Throughput (" ++ stage.throughput_units_label s ++ ")**: "
                    ++ fixed (if 100 <? thr m then 0 else if 10 <? thr m then 1 else 2) (thr m)
                    ++ nl) section /\
         ends_with (nl ++ "---" ++ nl ++ nl) section)
      (metrics f) sections.
Proof.
  unfold to_markdown. rewrite to_markdown_frame_eq.
  cbn [stage_ref metrics markdown].
  split; [reflexivity|]. split; [reflexivity|].
  split; [apply AlgorithmFacts.sort_perm|]. split.
  - intros Hn.
    assert (Hs : Forall (fun m => not_nan (thr m)) (sort performance_metrics.gt (stage.results s))).
    { rewrite Forall_forall in *. intros x Hx. apply Hn.
      now apply (Permutation_in _ (AlgorithmFacts.sort_perm performance_metrics.gt _)). }
    apply AlgorithmFacts.StronglySorted_weaken
      with (R := in_order performance_metrics.gt) (P := fun m => not_nan (thr m)).
    + intros a b Ha Hb Hab. unfold in_order, performance_metrics.gt in Hab.
      now apply DoubleOrder.not_ltb_leb.
    + exact Hs.
    + apply AlgorithmFacts.sort_sorted with (P := fun m => not_nan (thr m));
        unfold performance_metrics.gt; [| | |exact Hn].
      * intros a b. apply DoubleOrder.ltb_asym.
      * intros a b c Hab Hbc. exact (DoubleOrder.ltb_trans _ _ _ Hbc Hab).
      * intros a b c Ha Hb Hc Hab Hbc.
        exact (DoubleOrder.ltb_incomparable _ _ _ Hc Hb Ha Hbc Hab).
  - eexists. split; [reflexivity|].
    induction (sort performance_metrics.gt (stage.results s)) as [|m l IH]; cbn [map];
      constructor; [|exact IH].
    destruct (markdown_section_shape (stage.processed_units_label s ++ " Processed")
                ("Throughput (" ++ stage.throughput_units_label s ++ ")") m) as (H1 & H2 & H3).
    split; [exact H1|]. split; [|exact H3].
    destruct H2 as (before & after & E). exists before, after. rewrite E.
    now rewrite !StringFacts.append_assoc.
Qed.

End Markdown.

(** ** [hex_to_rgb] and [rgb_to_hex] *)

Section HexColours.
Import std BarChart.
#[local] Open Scope Z_scope.

(** Checking a property of bytes, or of base-16 digits, by running it. *)
Lemma below_by_cases (bound : nat) (P : N -> bool) :
  forallb P (map N.of_nat (seq 0 bound)) = true ->
  forall n, (n < N.of_nat bound)%N -> P n = true.
Proof.
  intros H n Hn. rewrite forallb_forall in H. apply H.
  apply in_map_iff. exists (N.to_nat n). split; [apply N2Nat.id|].
  apply in_seq. lia.
Qed.

Lemma format_02X_byte n :
  (n < 256)%N ->
  format_02X n = String (hex_char (n / 16)) (String (hex_char (n mod 16)) "").
Proof.
  intros Hn.
  apply String.eqb_eq.
  apply (below_by_cases 256
           (fun n => (format_02X n =? String (hex_char (n / 16)) (String (hex_char (n mod 16)) ""))%string));
    [vm_compute; reflexivity|exact Hn].
Qed.

Lemma hex_digit_hex_char d :
  (d < 16)%N -> hex_digit (hex_char d) = Some (Z.of_N d).
Proof.
  intros Hd.
  assert (H : (match hex_digit (hex_char d) with
               | Some z => z =? Z.of_N d
               | None => false
               end) = true).
  { apply (below_by_cases 16
             (fun d => match hex_digit (hex_char d) with
                       | Some z => z =? Z.of_N d
                       | None => false
                       end)); [vm_compute; reflexivity|exact Hd]. }
  destruct (hex_digit (hex_char d)); [|discriminate].
  apply Z.eqb_eq in H. now subst.
Qed.

(** The digits [from_chars] reads from the two characters of a byte. *)
Lemma hex_prefix_byte n rest :
  (n < 256)%N ->
  hex_prefix (format_02X n ++ rest) =
  Z.of_N (n / 16) :: Z.of_N (n mod 16) :: hex_prefix rest.
Proof.
  intros Hn. rewrite (format_02X_byte n Hn). cbn [String.append hex_prefix].
  rewrite !hex_digit_hex_char; [reflexivity| |].
  - apply N.mod_lt. discriminate.
  - apply N.Div0.div_lt_upper_bound. exact Hn.
Qed.

Lemma byte_of_colour z :
  0 <= z <= 255 -> Z.land z 255 = z /\ (Z.to_N z < 256)%N.
Proof.
  intros Hz. split; [|lia].
  change 255 with (Z.ones 8). rewrite Z.land_ones by lia.
  apply Z.mod_small. change (2 ^ 8) with 256. lia.
Qed.

Lemma hex_to_rgb_rgb_to_hex (c : RGB) :
  0 <= r c <= 255 -> 0 <= g c <= 255 -> 0 <= b c <= 255 ->
  hex_to_rgb (rgb_to_hex c) = Returned c.
Proof.
  destruct c as [cr cg cb]; cbn [r g b]. intros Hr Hg Hb.
  destruct (byte_of_colour cr Hr) as [Er Br], (byte_of_colour cg Hg) as [Eg Bg],
    (byte_of_colour cb Hb) as [Eb Bb].
  unfold rgb_to_hex; cbn [r g b]. rewrite Er, Eg, Eb.
  cbn [String.append hex_to_rgb]. unfold from_chars_hex.
  rewrite (hex_prefix_byte _ _ Br), (hex_prefix_byte _ _ Bg).
  rewrite <- (StringFacts.append_nil_r (format_02X (Z.to_N cb))), (hex_prefix_byte _ _ Bb).
  cbn [hex_prefix]. unfold hex_value. cbn [fold_left].
  rewrite !N2Z.inj_div, !N2Z.inj_mod, !Z2N.id by lia.
  change (Z.of_N 16) with 16.
  set (v := (((((0 * 16 + cr / 16) * 16 + cr mod 16) * 16 + cg / 16) * 16 + cg mod 16) * 16
             + cb / 16) * 16 + cb mod 16).
  assert (Hv : v = cr * 65536 + cg * 256 + cb).
  { subst v. pose proof (Z.div_mod cr 16). pose proof (Z.div_mod cg 16).
    pose proof (Z.div_mod cb 16). lia. }
  assert (Hle : (v <=? UINT_MAX) = true) by (apply Z.leb_le; unfold UINT_MAX; lia).
  rewrite Hle. rewrite !Z.shiftr_div_pow2 by lia.
  change 255 with (Z.ones 8). rewrite !Z.land_ones by lia.
  change (2 ^ 16) with 65536. change (2 ^ 8) with 256. rewrite Hv.
  f_equal. f_equal.
  - rewrite Z.mod_small; [|split; [apply Z.div_pos; lia|apply Z.div_lt_upper_bound; lia]].
    symmetry. apply Z.div_unique with (r := cg * 256 + cb); lia.
  - replace ((cr * 65536 + cg * 256 + cb) / 256) with (cr * 256 + cg)
      by (apply Z.div_unique with (r := cb); lia).
    symmetry. apply Z.mod_unique with (q := cr); lia.
  - symmetry. apply Z.mod_unique with (q := cr * 256 + cg); lia.
Qed.

(** Exactly the inputs on which [hex_to_rgb] throws. *)
Lemma hex_to_rgb_throws_iff (hex : string) :
  throws (hex_to_rgb hex) = true <->
  (forall digits, hex <> String "#" digits) \/
  (exists digits, hex = String "#" digits /\
     (hex_prefix digits = [] \/ UINT_MAX < hex_value (hex_prefix digits))).
Proof.
  destruct hex as [|c digits].
  - cbn. split; [left; discriminate|reflexivity].
  - destruct (Ascii.ascii_dec c "#") as [->|Hc].
    + cbn [hex_to_rgb]. unfold from_chars_hex.
      destruct (hex_prefix digits) as [|d ds] eqn:E.
      * cbn. split; [right; exists digits; auto|reflexivity].
      * destruct (hex_value (d :: ds) <=? UINT_MAX) eqn:L; cbn.
        -- split; [discriminate|].
           intros [H|(digits' & [= <-] & [H|H])].
           ++ now elim (H digits).
           ++ rewrite E in H. discriminate.
           ++ rewrite E in H. apply Z.leb_le in L. lia.
        -- split; [|reflexivity]. intros _. right. exists digits. split; [reflexivity|].
           right. apply Z.leb_gt in L. now rewrite E.
    + assert (T : hex_to_rgb (String c digits) =
                  Thrown (invalid_argument "Hex color must start with '#'")).
      { unfold hex_to_rgb.
        destruct c as [[] [] [] [] [] [] [] []]; try reflexivity. now elim Hc. }
      rewrite T. cbn. split; [|reflexivity]. intros _. left. intros d [= -> _]. now elim Hc.
Qed.

(** C9, as stated, fails: ["#12xyz"] starts with ['#'] and what follows is
    not a hexadecimal number, yet [hex_to_rgb] returns the colour (0, 0, 18);
    and ["#FFFFFFFFF"] is made of hexadecimal digits, yet [hex_to_rgb]
    throws. *)
Lemma hex_to_rgb_throw_rule_counterexample :
  ~ (forall hex,
       throws (hex_to_rgb hex) = true <->
       (starts_with_hash hex = false \/ is_hexadecimal (after_first hex) = false)) /\
  hex_to_rgb "#12xyz" = Returned {| r := 0; g := 0; b := 18 |} /\
  is_hexadecimal "12xyz" = false /\
  throws (hex_to_rgb "#FFFFFFFFF") = true /\
  is_hexadecimal "FFFFFFFFF" = true.
Proof.
  split; [|repeat split; vm_compute; reflexivity].
  intros H. specialize (H "#12xyz"%string).
  assert (T : throws (hex_to_rgb "#12xyz") = true) by (apply H; right; reflexivity).
  vm_compute in T. discriminate.
Qed.

(** C9, amended.  For every colour whose components lie in [0, 255] the
    round trip [hex_to_rgb (rgb_to_hex c)] returns [c]; and [hex_to_rgb]
    throws, always [invalid_argument], exactly when its input does not start
    with ['#'], or no hexadecimal digit follows the ['#'], or the leading run
    of hexadecimal digits denotes a number above 2^32 - 1.  Characters after
    that leading run are not looked at. *)
Theorem hex_round_trip_and_throw_rule :
  (forall c : RGB,
     0 <= r c <= 255 -> 0 <= g c <= 255 -> 0 <= b c <= 255 ->
     hex_to_rgb (rgb_to_hex c) = Returned c) /\
  (forall hex,
     throws (hex_to_rgb hex) = true <->
     (forall digits, hex <> String "#" digits) \/
     (exists digits, hex = String "#" digits /\
        (hex_prefix digits = [] \/ UINT_MAX < hex_value (hex_prefix digits)))) /\
  (forall hex e, hex_to_rgb hex = Thrown e -> exists what, e = invalid_argument what) /\
  (forall digits digits',
     hex_prefix digits = hex_prefix digits' ->
     hex_to_rgb (String "#" digits) = hex_to_rgb (String "#" digits')).
Proof.
  split; [exact hex_to_rgb_rgb_to_hex|]. split; [exact hex_to_rgb_throws_iff|]. split.
  - intros hex e. unfold hex_to_rgb.
    destruct hex as [|c digits]; [intros [= <-]; eauto|].
    destruct c as [[] [] [] [] [] [] [] []]; try (intros [= <-]; eauto).
    destruct (from_chars_hex digits 0) as [value []]; try discriminate; intros [= <-]; eauto.
  - intros digits digits' E. cbn [hex_to_rgb]. unfold from_chars_hex. now rewrite E.
Qed.

Lemma hex_round_trip_and_throw_rule_witness :
  hex_to_rgb (rgb_to_hex {| r := 255; g := 128; b := 64 |})
  = Returned {| r := 255; g := 128; b := 64 |}.
Proof.
  apply (proj1 hex_round_trip_and_throw_rule {| r := 255; g := 128; b := 64 |});
    cbn; lia.
Defined.

End HexColours.

(** ** [format_bar_chart] *)

Section BarCharts.
Import std bencher.
Context {F : Format} {C : Casts}.
#[local] Open Scope float_scope.

Lemma bar_line_shape max_value name value :
  bar_line max_value name value = bar_str max_value value ++ bar_label name value.
Proof.
  unfold bar_line, bar_label. cbv zeta.
  now rewrite !StringFacts.append_assoc.
Qed.

Lemma bar_str_zero_max max_value value :
  (max_value =? 0) = true -> bar_str max_value value = repeat_string 40 " ".
Proof.
  intros H. unfold bar_str. rewrite H. cbv zeta.
  assert (E0 : size_t_of_double size_t_out_of_range 0 = 0%N) by (vm_compute; reflexivity).
  rewrite E0.
  assert (E1 : ((0 - double_of_N 0) * 8) = 0) by (vm_compute; reflexivity).
  rewrite E1, E0. reflexivity.
Qed.

Lemma bar_line_not_empty max_value name value : bar_line max_value name value <> "".
Proof.
  rewrite bar_line_shape.
  intros E. apply StringFacts.append_eq_nil in E. destruct E as [_ E].
  unfold bar_label, bar_separator in E. discriminate.
Qed.

(** The loop over the indices visits the pairs of names and values in order. *)
Lemma indexed_pairs {X : Type} (f : string -> double -> X) (names : list string) :
  forall values, List.length names = List.length values ->
  map (fun i => f (nth i names "") (nth i values 0)) (seq 0 (List.length names))
  = map (fun p => f (fst p) (snd p)) (combine names values).
Proof.
  induction names as [|n names IH]; intros [|v values] Hlen; try discriminate; cbn.
  - reflexivity.
  - f_equal. rewrite <- seq_shift, map_map. apply IH. now injection Hlen.
Qed.

Lemma format_bar_chart_lines names values :
  List.length names = List.length values -> names <> [] ->
  format_bar_chart names values =
  join (map (fun p =>
               bar_line (match max_element PrimFloat.ltb values with
                         | Some m => m
                         | None => 0
                         end) (fst p) (snd p))
          (combine names values)).
Proof.
  intros Hlen Hne. unfold format_bar_chart.
  rewrite Hlen, Nat.eqb_refl. destruct names as [|n names]; [congruence|].
  cbn [negb orb]. rewrite StringFacts.fold_left_append. cbn [String.append].
  rewrite <- Hlen. now rewrite indexed_pairs.
Qed.

(** C10.  [format_bar_chart] returns the empty string exactly when the two
    sequences differ in length or are empty.  Otherwise it returns one line
    per pair of a name and a value, in the order of the input: a bar scaled
    against the maximum value, the separator, the name and the value, and a
    line feed.  The maximum value is a value of the input that is below no
    value of the input.  When it is 0 every bar is forty spaces: no block is
    drawn and nothing is divided. *)
Theorem format_bar_chart_lines_and_zero_maximum :
  (forall names values,
     format_bar_chart names values = "" <->
     (List.length names <> List.length values \/ names = [])) /\
  (forall names values,
     List.length names = List.length values -> names <> [] ->
     exists max_value,
       max_element PrimFloat.ltb values = Some max_value /\
       In max_value values /\
       (forall value, In value values -> (max_value <? value) = false) /\
       format_bar_chart names values =
         join (map (fun p => bar_line max_value (fst p) (snd p)) (combine names values)) /\
       List.length (combine names values) = List.length names /\
       map fst (combine names values) = names /\
       map snd (combine names values) = values /\
       (forall name value,
          bar_line max_value name value = bar_str max_value value ++ bar_label name value) /\
       ((max_value =? 0) = true ->
        (forall value, bar_str max_value value = repeat_string 40 " ") /\
        format_bar_chart names values =
          join (map (fun p => repeat_string 40 " " ++ bar_label (fst p) (snd p))
                  (combine names values)))).
Proof.
  split.
  - intros names values. split.
    + intros E.
      destruct (Nat.eq_dec (List.length names) (List.length values)) as [Hlen|]; [|auto].
      destruct names as [|n names]; [auto|exfalso].
      rewrite format_bar_chart_lines in E by (trivial; discriminate).
      destruct values as [|v values]; [discriminate|]. cbn in E.
      apply StringFacts.append_eq_nil in E. destruct E as [E _].
      exact (bar_line_not_empty _ _ _ E).
    + unfold format_bar_chart. intros [Hlen| ->]; [|now rewrite orb_true_r].
      apply Nat.eqb_neq in Hlen. now rewrite Hlen.
  - intros names values Hlen Hne.
    assert (Hv : values <> []) by (destruct names, values; try discriminate; congruence).
    destruct (max_element PrimFloat.ltb values) as [max_value|] eqn:Hmax;
      [|destruct values; [congruence|discriminate]].
    destruct (AlgorithmFacts.max_element_spec PrimFloat.ltb
                DoubleOrder.ltb_asym DoubleOrder.ltb_trans values max_value Hmax)
      as [Hin Hle].
    assert (Hlines : format_bar_chart names values =
              join (map (fun p => bar_line max_value (fst p) (snd p)) (combine names values))).
    { rewrite format_bar_chart_lines by assumption. now rewrite Hmax. }
    exists max_value.
    split; [reflexivity|]. split; [exact Hin|]. split; [exact Hle|].
    split; [exact Hlines|].
    split; [rewrite length_combine; lia|].
    split; [|split; [|split; [|split]]].
    + clear - Hlen. revert values Hlen.
      induction names as [|n names IH]; intros [|v' vs] Hlen; try discriminate; cbn; [reflexivity|].
      f_equal. apply IH. now injection Hlen.
    + clear - Hlen. revert values Hlen.
      induction names as [|n names IH]; intros [|v' vs] Hlen; try discriminate; cbn; [reflexivity|].
      f_equal. apply IH. now injection Hlen.
    + intros name value. apply bar_line_shape.
    + intros value. now apply bar_str_zero_max.
    + rewrite Hlines. f_equal. apply map_ext. intros p.
      rewrite bar_line_shape. f_equal. now apply bar_str_zero_max.
Qed.

End BarCharts.

(** ** Statements that only write to [std::cout] *)

Module IOFacts.
Import std.

Lemma prints_ret {A : Type} (a : A) : prints (ret a) a "".
Proof.
  intros [o e]. unfold ret. cbn. now rewrite StringFacts.append_nil_r.
Qed.

Lemma prints_write_cout (s : string) : prints (write_cout s) tt s.
Proof. intros c. reflexivity. Qed.

Lemma prints_bind {A B : Type} (m : IO A) (k : A -> IO B) a b t t' :
  prints m a t -> prints (k a) b t' -> prints (bind m k) b (t ++ t').
Proof.
  intros Hm Hk c. unfold bind. rewrite Hm, Hk. cbn.
  now rewrite StringFacts.append_assoc.
Qed.

Lemma prints_for_each {X : Type} (body : X -> IO loop_exit) (f : X -> string) (xs : list X) :
  (forall x, In x xs -> prints (body x) loop_next (f x)) ->
  prints (for_each xs body) tt (join (map f xs)).
Proof.
  induction xs as [|x xs IH]; intros H; cbn [for_each map].
  - apply prints_ret.
  - change (join (f x :: map f xs)) with (f x ++ join (map f xs)).
    apply prints_bind with (a := loop_next); [apply H; now left|].
    apply IH. intros y Hy. apply H. now right.
Qed.

End IOFacts.

(** ** [print_results] *)

Section PrintResults.
Import std bencher IOFacts.
Context {F : Format} {C : Casts}.
#[local] Open Scope float_scope.

Lemma prints_printed {A : Type} (m : IO A) a t : prints m a t -> prints m a (printed m).
Proof.
  intros H. unfold printed. now rewrite H.
Qed.

Lemma bind_prints {A B : Type} (m : IO A) (k : A -> IO B) a t c :
  prints m a t -> bind m k c = k a {| cout := cout c ++ t; cerr := cerr c |}.
Proof.
  intros H. unfold bind. now rewrite H.
Qed.

Lemma bind_run {A B : Type} (m : IO A) (k : A -> IO B) c a c' :
  m c = (Returned a, c') -> bind m k c = k a c'.
Proof.
  intros H. unfold bind. now rewrite H.
Qed.

Lemma print_metric_prints label v :
  prints (print_metric label v) tt (printed (print_metric label v)).
Proof.
  assert (D : forall x, prints (print_value_double label x) tt
                          (printed (print_value_double label x))).
  { intros x. unfold print_value_double.
    destruct (100 <? x); [|destruct (10 <? x); [|destruct (abs x <? _)]];
      (eapply prints_printed; apply prints_write_cout). }
  destruct v as [x|[x|]|[n|]]; cbn [print_metric]; try apply D.
  - eapply prints_printed; apply prints_ret.
  - eapply prints_printed; apply prints_write_cout.
  - eapply prints_printed; apply prints_ret.
Qed.

Lemma print_record_prints pl tl value :
  prints (print_record pl tl value) tt (printed (print_record pl tl value)).
Proof.
  eapply prints_printed. unfold print_record.
  repeat (eapply prints_bind;
          [first [apply prints_write_cout | apply print_metric_prints]|]).
  apply prints_write_cout.
Qed.

Lemma records_loop_prints (pl tl : string) (metrics : list performance_metrics) :
  prints (for_each metrics (fun value => print_record pl tl value ;; ret loop_next)%io) tt
    (join (map (fun value => printed (print_record pl tl value)) metrics)).
Proof.
  apply prints_for_each. intros value _.
  rewrite <- (StringFacts.append_nil_r (printed _)).
  eapply prints_bind; [apply print_record_prints|apply prints_ret].
Qed.

Lemma print_results_without_comparison (s : stage) :
  prints (print_results s false) tt (report_text s).
Proof.
  unfold print_results, report_text. cbv zeta. cbn [andb].
  eapply prints_bind; [apply prints_write_cout|].
  eapply prints_bind; [apply prints_write_cout|].
  rewrite <- (StringFacts.append_nil_r (join _)).
  eapply prints_bind; [apply records_loop_prints|apply prints_ret].
Qed.

(** With at most one record the comparison is skipped as a whole. *)
Lemma print_results_few (s : stage) (show_comparison : bool) :
  (List.length (stage.results s) <= 1)%nat ->
  prints (print_results s show_comparison) tt (report_text s).
Proof.
  intros Hlen. destruct show_comparison; [|apply print_results_without_comparison].
  assert (E : (1 <? List.length (stage.results s))%nat = false) by (apply Nat.ltb_ge; lia).
  intros c. rewrite <- (print_results_without_comparison s c).
  unfold print_results. cbv zeta. rewrite E. reflexivity.
Qed.

(** C1, amended.  For a stage with no results, [print_results] with the
    comparison enabled does not throw and writes nothing to [std::cerr]: the
    comparison is skipped as a whole (it needs more than one record), so the
    call writes the title and the rule only, exactly what it writes with the
    comparison disabled. *)
Theorem print_results_empty_stage_skips_comparison (s : stage) (c : console) :
  stage.results s = [] ->
  print_results s true c =
    (Returned tt,
     {| cout := cout c ++ (nl ++ "Performance Metrics for: " ++ stage.name s ++ nl)
                ++ (rule_dashes ++ nl);
        cerr := cerr c |}) /\
  print_results s true c = print_results s false c.
Proof.
  intros E.
  assert (Hlen : (List.length (stage.results s) <= 1)%nat) by (rewrite E; cbn; lia).
  rewrite (print_results_few s true Hlen c), (print_results_few s false Hlen c).
  split; [|reflexivity].
  unfold report_text. rewrite E. cbn [map join fold_right].
  now rewrite StringFacts.append_nil_r.
Qed.

(** *** The comparison against the baseline *)

Lemma compare_to_nonzero_baseline (b m : performance_metrics) (c : console) :
  (thr b =? 0) = false ->
  compare_to_baseline b m c =
  (Returned loop_next,
   {| cout := cout c ++ (if is_faster b m then faster_line b m else "");
      cerr := cerr c |}).
Proof.
  intros Z. unfold compare_to_baseline, is_faster, faster_line. fold thr. rewrite Z.
  destruct c as [o e]. destruct (0 <? diff_percentage b m).
  - reflexivity.
  - unfold bind, ret. cbn [cout cerr]. now rewrite StringFacts.append_nil_r.
Qed.

Lemma comparison_loop (b : performance_metrics) (metrics : list performance_metrics) :
  forall c,
    for_each metrics (compare_to_baseline b) c =
    (Returned tt,
     {| cout := cout c ++ join (map (faster_line b) (reported_faster b metrics));
        cerr := cerr c ++ zero_baseline_error b metrics |}).
Proof.
  unfold reported_faster, zero_baseline_error.
  destruct (thr b =? 0) eqn:Z.
  - intros [o e]. destruct metrics as [|m metrics]; cbn [for_each map join fold_right].
    + unfold ret. cbn [cout cerr]. now rewrite !StringFacts.append_nil_r.
    + unfold bind, compare_to_baseline. fold thr. rewrite Z.
      unfold write_cerr, ret. cbn [cout cerr].
      now rewrite !StringFacts.append_nil_r.
  - induction metrics as [|m metrics IH]; intros [o e]; cbn [for_each].
    + unfold ret. cbn [cout cerr filter map join fold_right].
      now rewrite !StringFacts.append_nil_r.
    + unfold bind at 1. rewrite (compare_to_nonzero_baseline b m _ Z).
      rewrite IH. cbn [cout cerr filter].
      destruct (is_faster b m); cbn [map].
      * change (join (?x :: ?l)) with (x ++ join l).
        now rewrite !StringFacts.append_assoc.
      * now rewrite StringFacts.append_nil_r.
Qed.

Lemma slower_asym a b : slower a b = true -> slower b a = false.
Proof. apply DoubleOrder.ltb_asym. Qed.

Lemma slower_trans a b c : slower a b = true -> slower b c = true -> slower a c = true.
Proof. apply DoubleOrder.ltb_trans. Qed.

(** The baseline [find_baseline] settles on, and the warning it writes. *)
Lemma find_baseline_run (s : stage) (metrics : list performance_metrics) (c : console) :
  metrics <> [] ->
  exists b warning,
    find_baseline s metrics c =
      (Returned (Some b), {| cout := cout c; cerr := cerr c ++ warning |}) /\
    In b metrics /\
    (stage.baseline s = "" ->
       min_element slower metrics = Some b /\ warning = "") /\
    (stage.baseline s <> "" ->
       (forall m, In m metrics -> performance_metrics.name m <> stage.baseline s) ->
       min_element slower metrics = Some b /\ warning = baseline_warning s) /\
    (stage.baseline s <> "" ->
       forall m, find_if (named_baseline s) metrics = Some m -> b = m /\ warning = "").
Proof.
  intros Hne.
  destruct (AlgorithmFacts.min_element_nonempty slower metrics Hne) as [mn Hmn].
  assert (Imn : In mn metrics)
    by (eapply AlgorithmFacts.min_element_spec;
        [apply slower_asym|apply slower_trans|exact Hmn]).
  unfold find_baseline. destruct c as [o e].
  destruct (stage.baseline s =? "")%string eqn:B.
  - apply String.eqb_eq in B. exists mn, "". rewrite Hmn. unfold ret. cbn [cout cerr].
    rewrite StringFacts.append_nil_r.
    split; [reflexivity|]. split; [exact Imn|]. split; [auto|]. split; congruence.
  - apply String.eqb_neq in B.
    change (fun m => (performance_metrics.name m =? stage.baseline s)%string)
      with (named_baseline s).
    destruct (find_if (named_baseline s) metrics) as [m|] eqn:Fd.
    + exists m, "". unfold ret. cbn [cout cerr]. rewrite StringFacts.append_nil_r.
      apply find_some in Fd. destruct Fd as [Im Nm].
      apply String.eqb_eq in Nm.
      split; [reflexivity|]. split; [exact Im|]. split; [congruence|]. split.
      * intros _ Hno. elim (Hno m Im Nm).
      * intros _ m' [= <-]. auto.
    + exists mn, (baseline_warning s). unfold bind, write_cerr, ret. cbn [cout cerr].
      rewrite Hmn.
      split; [reflexivity|]. split; [exact Imn|]. split; [congruence|]. split.
      * auto.
      * intros _ m' [=].
Qed.

Lemma print_bar_chart_prints (names : list string) (values : list double) (c : console) :
  List.length names = List.length values -> names <> [] ->
  print_bar_chart names values c =
  (Returned tt, {| cout := cout c ++ format_bar_chart names values; cerr := cerr c |}).
Proof.
  intros Hlen Hne. unfold print_bar_chart. rewrite Hlen, Nat.eqb_refl. cbn [negb].
  destruct names; [congruence|reflexivity].
Qed.

(** With more than one record: the report, then the lines of the records
    that are faster than the baseline, a rule and the bar chart; on
    [std::cerr] the warning of the baseline search and the error of a
    baseline without throughput. *)
Lemma print_results_with_comparison (s : stage) (c : console) b warning :
  (2 <= List.length (stage.results s))%nat ->
  find_baseline s (stage.results s) {| cout := cout c ++ report_text s; cerr := cerr c |} =
    (Returned (Some b), {| cout := cout c ++ report_text s; cerr := cerr c ++ warning |}) ->
  print_results s true c =
    (Returned tt,
     {| cout := cout (snd (print_results s false c))
                ++ join (map (faster_line b) (reported_faster b (stage.results s)))
                ++ (rule_equals ++ nl) ++ nl
                ++ format_bar_chart (map performance_metrics.name (stage.results s))
                     (map performance_metrics.throughput_mb_per_sec (stage.results s));
        cerr := cerr c ++ warning ++ zero_baseline_error b (stage.results s) |}).
Proof.
  intros Hlen Hfind.
  assert (Hne : stage.results s <> []) by (intros E; rewrite E in Hlen; cbn in Hlen; lia).
  rewrite (print_results_without_comparison s c). cbn [snd cout].
  unfold print_results. cbv zeta.
  assert (E : (1 <? List.length (stage.results s))%nat = true) by (apply Nat.ltb_lt; lia).
  rewrite E. cbn [andb].
  rewrite (bind_prints _ _ tt _ c (prints_write_cout _)).
  rewrite (bind_prints _ _ tt _ _ (prints_write_cout _)).
  rewrite (bind_prints _ _ tt _ _ (records_loop_prints _ _ _)).
  cbn [cout cerr].
  unfold report_text in *. rewrite !StringFacts.append_assoc in Hfind.
  rewrite !StringFacts.append_assoc.
  destruct (stage.results s) as [|m0 ms] eqn:R; [congruence|].
  cbv iota. rewrite <- R in *.
  rewrite (bind_run (ret tt) _ _ tt _ eq_refl).
  rewrite (bind_run _ _ _ _ _ Hfind).
  rewrite (bind_run _ _ _ _ _ (comparison_loop b _ _)). cbn [cout cerr].
  rewrite (bind_run (write_cout _) _ _ tt _ eq_refl). cbn [cout cerr].
  rewrite (bind_run (write_cout _) _ _ tt _ eq_refl). cbn [cout cerr].
  rewrite print_bar_chart_prints; cbn [cout cerr].
  - now rewrite !StringFacts.append_assoc.
  - now rewrite !length_map.
  - rewrite R. discriminate.
Qed.

(** C8, amended.  For a stage with at least two results, [print_results] with
    the comparison enabled does not fail and settles on a baseline [b] among
    the results: with an empty baseline name, the record [std::min_element]
    finds, and nothing is written to [std::cerr] by the search; with a
    baseline name that no record bears, the same record, after a warning on
    [std::cerr]; with a name some record bears, the first such record.  The
    record found by [std::min_element] has minimum throughput: no record has
    a smaller one.  After the report itself the call writes one line per
    record reported as faster, in the order of the results, then a rule and
    the bar chart.  A record is reported only if the throughput of the
    baseline is not zero, and, when the throughput of the baseline is not
    negative, only if its own throughput is strictly greater. *)
Theorem print_results_baseline_and_faster (s : stage) (c : console) :
  (2 <= List.length (stage.results s))%nat ->
  exists b warning,
    In b (stage.results s) /\
    (stage.baseline s = "" ->
       min_element slower (stage.results s) = Some b /\ warning = "") /\
    (stage.baseline s <> "" ->
       (forall m, In m (stage.results s) -> performance_metrics.name m <> stage.baseline s) ->
       min_element slower (stage.results s) = Some b /\ warning = baseline_warning s) /\
    (stage.baseline s <> "" ->
       forall m, find_if (named_baseline s) (stage.results s) = Some m ->
       b = m /\ warning = "") /\
    (min_element slower (stage.results s) = Some b ->
       forall m, In m (stage.results s) -> (thr m <? thr b) = false) /\
    print_results s true c =
      (Returned tt,
       {| cout := cout (snd (print_results s false c))
                  ++ join (map (faster_line b) (reported_faster b (stage.results s)))
                  ++ (rule_equals ++ nl) ++ nl
                  ++ format_bar_chart (map performance_metrics.name (stage.results s))
                       (map performance_metrics.throughput_mb_per_sec (stage.results s));
          cerr := cerr c ++ warning ++ zero_baseline_error b (stage.results s) |}) /\
    (forall m, In m (reported_faster b (stage.results s)) ->
       In m (stage.results s) /\ (thr b =? 0) = false /\
       (0 <? diff_percentage b m) = true) /\
    ((thr b <? 0) = false ->
       forall m, In m (reported_faster b (stage.results s)) -> (thr b <? thr m) = true).
Proof.
  intros Hlen.
  assert (Hne : stage.results s <> []) by (intros E; rewrite E in Hlen; cbn in Hlen; lia).
  destruct (find_baseline_run s (stage.results s)
              {| cout := cout c ++ report_text s; cerr := cerr c |} Hne)
    as (b & warning & Hfind & Hin & Hempty & Hmissing & Hnamed).
  cbn [cout cerr] in Hfind.
  assert (Hrep : forall m, In m (reported_faster b (stage.results s)) ->
                 In m (stage.results s) /\ (thr b =? 0) = false /\
                 (0 <? diff_percentage b m) = true).
  { intros m. unfold reported_faster. destruct (thr b =? 0); [intros []|].
    rewrite filter_In. unfold is_faster. tauto. }
  exists b, warning.
  split; [exact Hin|]. split; [exact Hempty|]. split; [exact Hmissing|].
  split; [exact Hnamed|]. split; [|split; [|split]].
  - intros Hmin m Hm.
    exact (proj2 (AlgorithmFacts.min_element_spec slower slower_asym slower_trans _ _ Hmin) m Hm).
  - now apply print_results_with_comparison.
  - exact Hrep.
  - intros Hneg m Hm. destruct (Hrep m Hm) as (_ & Hz & Hd).
    exact (DoubleSign.percent_diff_pos _ _ Hneg Hz Hd).
Qed.

End PrintResults.

(** ** [to_json] *)

Section Json.
Import std bencher.
Context {G : Glaze}.

Lemma separated_snoc (separator : string) (texts : list string) (text : string) :
  texts <> [] ->
  separated separator (texts ++ [text]) = separated separator texts ++ separator ++ text.
Proof.
  induction texts as [|t [|t' texts] IH]; intros H; [congruence|reflexivity|].
  change (separated separator ((t :: t' :: texts) ++ [text]))
    with (t ++ separator ++ separated separator ((t' :: texts) ++ [text])).
  rewrite IH by discriminate.
  change (separated separator (t :: t' :: texts))
    with (t ++ separator ++ separated separator (t' :: texts)).
  now rewrite !StringFacts.append_assoc.
Qed.

Lemma results_after_push_back (ms : list performance_metrics) : forall s,
  stage.results (fold_left stage.push_back ms s) = (stage.results s ++ ms)%list /\
  stage.name (fold_left stage.push_back ms s) = stage.name s.
Proof.
  induction ms as [|m ms IH]; intros s; cbn [fold_left].
  - now rewrite app_nil_r.
  - destruct (IH (stage.push_back s m)) as [-> ->].
    cbn [stage.push_back stage.results stage.name]. now rewrite <- app_assoc.
Qed.

Lemma to_json_text (s : stage) :
  write_error (to_json_output s) = false ->
  to_json s =
    "{" ++ quoted "name" ++ ":" ++ write_string (stage.name s) ++ ","
    ++ quoted "results" ++ ":"
    ++ "[" ++ separated "," (map write_metrics (stage.results s)) ++ "]" ++ "}".
Proof.
  intros H. unfold to_json, to_json_call, write_json. cbn [snd]. now rewrite H.
Qed.

(** C7.  [to_json] leaves the stage as it was and returns, unless the writer
    reports an error, a JSON object with exactly two members: [name], the
    name of the stage, and [results], the array of the records of the stage,
    one element per record, in the order in which they were appended.  An
    empty stage gives an empty array, appending a record appends one element
    to the array, and nothing else of the stage has a part in the text.  When
    the writer reports an error the text is the empty object. *)
Theorem to_json_serializes_name_and_results :
  (forall s, fst (to_json_call s) = s) /\
  (forall s,
     write_error (to_json_output s) = false ->
     to_json s =
       "{" ++ quoted "name" ++ ":" ++ write_string (stage.name s) ++ ","
       ++ quoted "results" ++ ":"
       ++ "[" ++ separated "," (map write_metrics (stage.results s)) ++ "]" ++ "}") /\
  (forall s, write_error (to_json_output s) = true -> to_json s = "{}") /\
  (forall s,
     write_error (to_json_output s) = false -> stage.results s = [] ->
     to_json s =
       "{" ++ quoted "name" ++ ":" ++ write_string (stage.name s) ++ ","
       ++ quoted "results" ++ ":" ++ "[" ++ "]" ++ "}") /\
  (forall s m,
     stage.results s <> [] ->
     write_error (to_json_output (stage.push_back s m)) = false ->
     to_json (stage.push_back s m) =
       "{" ++ quoted "name" ++ ":" ++ write_string (stage.name s) ++ ","
       ++ quoted "results" ++ ":"
       ++ "[" ++ separated "," (map write_metrics (stage.results s))
       ++ "," ++ write_metrics m ++ "]" ++ "}") /\
  (forall s ms,
     stage.results s = [] ->
     write_error (to_json_output (fold_left stage.push_back ms s)) = false ->
     to_json (fold_left stage.push_back ms s) =
       "{" ++ quoted "name" ++ ":" ++ write_string (stage.name s) ++ ","
       ++ quoted "results" ++ ":"
       ++ "[" ++ separated "," (map write_metrics ms) ++ "]" ++ "}") /\
  (forall s1 s2,
     stage.name s1 = stage.name s2 -> stage.results s1 = stage.results s2 ->
     to_json s1 = to_json s2).
Proof.
  split; [reflexivity|]. split; [exact to_json_text|].
  split; [|split; [|split; [|split]]].
  - intros s H. unfold to_json, to_json_call, write_json. cbn [snd]. now rewrite H.
  - intros s H E. rewrite to_json_text by assumption. now rewrite E.
  - intros s m Hne H. rewrite to_json_text by assumption.
    cbn [stage.push_back stage.results stage.name].
    rewrite map_app. cbn [map].
    rewrite separated_snoc by (destruct (stage.results s); [congruence|discriminate]).
    now rewrite !StringFacts.append_assoc.
  - intros s ms Hs H. rewrite to_json_text by assumption.
    destruct (results_after_push_back ms s) as [-> ->]. now rewrite Hs.
  - intros s1 s2 Hn Hr. unfold to_json, to_json_call, to_json_output. cbn [snd].
    now rewrite Hn, Hr.
Qed.

End Json.

(** ** The adaptive sampler *)

Section Sampler.
Import std bencher.
#[local] Open Scope float_scope.

Lemma round_zero n :
  insertion_round PrimFloat.ltb (repeat 0 (S n)) 0 = repeat 0 (S (S n)).
Proof.
  unfold insertion_round.
  assert (L : last (repeat 0 (S n)) 0 = 0).
  { induction n as [|n IH]; [reflexivity|]. exact IH. }
  rewrite L. reflexivity.
Qed.

Lemma rounds_zero k : forall n,
  fold_left (insertion_round PrimFloat.ltb) (repeat 0 k) (repeat 0 (S n)) = repeat 0 (S n + k).
Proof.
  induction k as [|k IH]; intros n.
  - now rewrite Nat.add_0_r.
  - change (repeat 0 (S k)) with (0 :: repeat 0 k). cbn [fold_left].
    rewrite round_zero, IH. f_equal. lia.
Qed.

Lemma sort_zeros n : sort PrimFloat.ltb (repeat 0 n) = repeat 0 n.
Proof.
  destruct n as [|n]; [reflexivity|].
  change (repeat 0 (S n)) with (0 :: repeat 0 n) at 1. cbn [sort].
  change [0] with (repeat 0 1). rewrite (rounds_zero n 0). apply (rev_repeat (S n)).
Qed.

Lemma all_zero_repeat (xs : list double) :
  Forall (fun x => x = 0) xs -> xs = repeat 0 (List.length xs).
Proof.
  induction 1 as [|x xs Hx _ IH]; cbn; [reflexivity|]. now rewrite Hx, <- IH.
Qed.

(** The median of zeros is zero. *)
Lemma median_zeros (xs : list double) :
  Forall (fun x => x = 0) xs -> stats.median xs = 0.
Proof.
  intros H. rewrite (all_zero_repeat xs H). unfold stats.median.
  rewrite sort_zeros, repeat_length.
  destruct (Nat.odd (List.length xs)).
  - apply nth_repeat.
  - rewrite !nth_repeat. reflexivity.
Qed.

Lemma deviation_zeros (xs : list double) :
  Forall (fun x => x = 0) xs -> deviation_percent xs = 0.
Proof.
  intros H. unfold deviation_percent. rewrite (median_zeros xs H). reflexivity.
Qed.

Lemma measure_void pf k (b : body) :
  b k = None ->
  idle {| throughput := instantaneous_throughput (measure pf k b); sample := measure pf k b |}.
Proof.
  intros Hb. unfold idle, instantaneous_throughput, measure. cbn. rewrite Hb. cbn.
  repeat split; reflexivity.
Qed.

Lemma sample_loop_void cfg pf (b : body) (Hb : forall k, b k = None) remaining :
  forall k buffer deviation,
    Forall idle buffer ->
    Forall idle (fst (sample_loop cfg pf b remaining k buffer deviation)) /\
    fst (sample_loop cfg pf b remaining k buffer deviation) <> [].
Proof.
  induction remaining as [|remaining IH]; intros k buffer deviation Hbuf; cbn [sample_loop];
    cbv zeta;
    assert (Hnew : Forall idle
              (buffer ++ [{| throughput := instantaneous_throughput (measure pf k b);
                             sample := measure pf k b |}])%list)
      by (apply Forall_app; split; [exact Hbuf|constructor; [now apply measure_void|constructor]]).
  - cbn [fst]. split; [exact Hnew|]. intros E. now apply app_eq_nil in E.
  - match goal with |- context [if ?cond then _ else _] => destruct cond end.
    + cbn [fst]. split; [exact Hnew|]. intros E. now apply app_eq_nil in E.
    + now apply IH.
Qed.

(** Every buffered throughput is the value of the formula, whatever the
    body yields. *)
Lemma sample_loop_formula cfg pf (b : body) remaining :
  forall k buffer deviation,
    Forall (fun it => throughput it = instantaneous_throughput (sample it)) buffer ->
    Forall (fun it => throughput it = instantaneous_throughput (sample it))
      (fst (sample_loop cfg pf b remaining k buffer deviation)).
Proof.
  induction remaining as [|remaining IH]; intros k buffer deviation Hbuf; cbn [sample_loop];
    cbv zeta;
    assert (Hnew : Forall (fun it => throughput it = instantaneous_throughput (sample it))
              (buffer ++ [{| throughput := instantaneous_throughput (measure pf k b);
                             sample := measure pf k b |}])%list)
      by (apply Forall_app; split; [exact Hbuf|constructor; [reflexivity|constructor]]).
  - exact Hnew.
  - match goal with |- context [if ?cond then _ else _] => destruct cond end.
    + exact Hnew.
    + now apply IH.
Qed.

Lemma run_unfold pf st name (b : body) :
  run pf st name b =
  ({| subject := stage.push_back (subject st)
                   (aggregate name (fst (samples_of_run pf st b)) (snd (samples_of_run pf st b)));
      executed := executed st + List.length (fst (samples_of_run pf st b)) |},
   aggregate name (fst (samples_of_run pf st b)) (snd (samples_of_run pf st b))).
Proof.
  unfold run. now destruct (samples_of_run pf st b).
Qed.

(** C2.  A run whose body yields no byte count produces a record with
    [bytes_processed] 0 and [throughput_mb_per_sec] 0, whatever the clock
    reads; the throughput of every buffered iteration is the value of
    [bytes_processed > 0 ? bytes_processed / elapsed_seconds / 1_000_000 : 0],
    which is 0 here and not a NaN; and the record is the one appended to the
    results. *)
Theorem void_body_run_has_zero_throughput pf st name (b : body) :
  (forall k, b k = None) ->
  performance_metrics.bytes_processed (snd (run pf st name b)) = Some 0 /\
  performance_metrics.throughput_mb_per_sec (snd (run pf st name b)) = 0 /\
  fst (samples_of_run pf st b) <> [] /\
  Forall idle (fst (samples_of_run pf st b)) /\
  performance_metrics.total_iteration_count (snd (run pf st name b))
    = Some (N.of_nat (List.length (fst (samples_of_run pf st b)))) /\
  stage.results (subject (fst (run pf st name b)))
    = (stage.results (subject st) ++ [snd (run pf st name b)])%list.
Proof.
  intros Hb. rewrite run_unfold. cbn [fst snd subject stage.push_back stage.results].
  destruct (sample_loop_void (subject st) pf b Hb
              (N.to_nat (stage.max_execution_count (subject st)) - 1)
              (executed st) [] 0 (Forall_nil _)) as [Hidle Hne].
  fold (samples_of_run pf st b) in Hidle, Hne.
  set (buffer := fst (samples_of_run pf st b)) in *.
  unfold aggregate. cbv zeta.
  cbn [performance_metrics.bytes_processed performance_metrics.throughput_mb_per_sec
       performance_metrics.total_iteration_count].
  repeat split; trivial.
  - f_equal. apply median_zeros. rewrite map_map.
    apply Forall_map. eapply Forall_impl; [|exact Hidle].
    intros it (_ & _ & _ & Hbytes). rewrite Hbytes. reflexivity.
  - apply median_zeros. apply Forall_map. eapply Forall_impl; [|exact Hidle].
    intros it (_ & Hz & _). exact Hz.
Qed.

(** [run] appends the record it returns, named as asked, and touches nothing
    else of the stage. *)
Lemma run_appends pf st name (b : body) :
  stage.results (subject (fst (run pf st name b)))
    = (stage.results (subject st) ++ [snd (run pf st name b)])%list /\
  performance_metrics.name (snd (run pf st name b)) = name /\
  stage.name (subject (fst (run pf st name b))) = stage.name (subject st) /\
  stage.min_execution_count (subject (fst (run pf st name b)))
    = stage.min_execution_count (subject st) /\
  stage.max_execution_count (subject (fst (run pf st name b)))
    = stage.max_execution_count (subject st) /\
  stage.confidence_interval_threshold (subject (fst (run pf st name b)))
    = stage.confidence_interval_threshold (subject st) /\
  stage.baseline (subject (fst (run pf st name b))) = stage.baseline (subject st).
Proof.
  rewrite run_unfold. cbn. repeat split; reflexivity.
Qed.

Lemma run_with_results {P : Type} `{Formattable P} pf name (pbody : P -> body) params :
  forall st,
    stage.results (subject (run_with pf st name pbody params))
    = (stage.results (subject st) ++ records_of_run_with pf st name pbody params)%list.
Proof.
  unfold run_with, records_of_run_with.
  induction params as [|p params IH]; intros st; cbn [fold_left states_of_run_with combine map].
  - now rewrite app_nil_r.
  - rewrite IH. destruct (run_appends pf st (name ++ "/" ++ to_text p) (pbody p)) as [-> _].
    cbn [fst snd]. now rewrite <- app_assoc.
Qed.

Lemma records_of_run_with_names {P : Type} `{Formattable P} pf name (pbody : P -> body) params :
  forall st,
    map performance_metrics.name (records_of_run_with pf st name pbody params)
    = map (fun p => name ++ "/" ++ to_text p) params.
Proof.
  unfold records_of_run_with.
  induction params as [|p params IH]; intros st; cbn [states_of_run_with combine map].
  - reflexivity.
  - cbn [fst snd]. f_equal.
    + apply run_appends.
    + apply IH.
Qed.

(** C4.  [run_with] appends exactly one record per parameter value, in the
    order of the parameter sequence: the record that [run] produces for the
    body applied to that value, named "{name}/{text of the value}".  The
    earlier results stay in front, and equal parameter values give as many
    records, of the same name. *)
Theorem run_with_appends_one_record_per_parameter :
  (forall (P : Type) (T : Formattable P) pf st name (pbody : P -> body) (params : list P),
     exists appended,
       stage.results (subject (run_with pf st name pbody params))
       = (stage.results (subject st) ++ appended)%list /\
       List.length appended = List.length params /\
       map performance_metrics.name appended = map (fun p => name ++ "/" ++ to_text p) params /\
       appended = records_of_run_with pf st name pbody params /\
       Forall2 (fun p m => exists st', m = snd (run pf st' (name ++ "/" ++ to_text p) (pbody p)))
         params appended) /\
  (forall pf st (pbody : N -> body),
     map performance_metrics.name
       (stage.results (subject (run_with pf st "work" pbody [10; 100; 1000]%N)))
     = (map performance_metrics.name (stage.results (subject st))
        ++ ["work/10"; "work/100"; "work/1000"])%list) /\
  (forall pf st name (pbody : Z -> body) (p : Z),
     map performance_metrics.name
       (stage.results (subject (run_with pf st name pbody [p; p])))
     = (map performance_metrics.name (stage.results (subject st))
        ++ [(name ++ "/" ++ to_text p)%string; (name ++ "/" ++ to_text p)%string])%list).
Proof.
  split; [|split].
  - intros P T pf st name pbody params.
    exists (records_of_run_with pf st name pbody params).
    split; [apply run_with_results|].
    split; [|split; [apply records_of_run_with_names|split; [reflexivity|]]].
    + rewrite <- (length_map performance_metrics.name), records_of_run_with_names.
      apply length_map.
    + unfold records_of_run_with. revert st.
      induction params as [|p params IH]; intros st; cbn [states_of_run_with combine map].
      * constructor.
      * constructor; [exists st; reflexivity|apply IH].
  - intros pf st pbody. rewrite run_with_results, map_app, records_of_run_with_names.
    reflexivity.
  - intros pf st name pbody p. rewrite run_with_results, map_app, records_of_run_with_names.
    reflexivity.
Qed.

End Sampler.

(** * Further properties of the charts and of the reports *)

(** ** The colour utilities on arbitrary input *)

Section ColourRange.
Import std BarChart.
#[local] Open Scope Z_scope.

Lemma land_255 z : Z.land z 255 = z mod 256.
Proof. change 255 with (Z.ones 8). now rewrite Z.land_ones by lia. Qed.

Lemma low_byte z : 0 <= Z.land z 255 <= 255.
Proof. rewrite land_255. pose proof (Z.mod_pos_bound z 256). lia. Qed.

Lemma format_02X_length n : (n < 256)%N -> String.length (format_02X n) = 2%nat.
Proof. intros Hn. now rewrite format_02X_byte. Qed.

Lemma rgb_to_hex_length (c : RGB) : String.length (rgb_to_hex c) = 7%nat.
Proof.
  unfold rgb_to_hex. cbn [String.append String.length].
  rewrite !StringFacts.length_append, !format_02X_length; [reflexivity| | |];
    pose proof (low_byte (r c)); pose proof (low_byte (g c)); pose proof (low_byte (b c)); lia.
Qed.

Lemma rgb_to_hex_masked (c : RGB) :
  rgb_to_hex {| r := Z.land (r c) 255; g := Z.land (g c) 255; b := Z.land (b c) 255 |}
  = rgb_to_hex c.
Proof.
  unfold rgb_to_hex. cbn [r g b].
  now rewrite <- !Z.land_assoc, Z.land_diag.
Qed.

Lemma hex_digit_range c d : hex_digit c = Some d -> 0 <= d <= 15.
Proof.
  unfold hex_digit.
  repeat match goal with
         | |- context [if ?t then _ else _] => destruct t eqn:?
         end; intros [= <-]; lia.
Qed.

Lemma hex_prefix_range s : Forall (fun d => 0 <= d <= 15) (hex_prefix s).
Proof.
  induction s as [|c s IH]; cbn [hex_prefix]; [constructor|].
  destruct (hex_digit c) as [d|] eqn:E; [|constructor].
  constructor; [now apply hex_digit_range with c|exact IH].
Qed.

Lemma fold_hex_nonneg ds : forall acc,
  0 <= acc -> Forall (fun d => 0 <= d <= 15) ds ->
  0 <= fold_left (fun acc d => acc * 16 + d) ds acc.
Proof.
  induction ds as [|d ds IH]; intros acc Hacc H; cbn [fold_left]; [exact Hacc|].
  inversion H; subst. apply IH; [lia|assumption].
Qed.

Lemma hex_value_nonneg ds : Forall (fun d => 0 <= d <= 15) ds -> 0 <= hex_value ds.
Proof. intros H. unfold hex_value. apply fold_hex_nonneg; [lia|exact H]. Qed.

(** The three bytes [hex_to_rgb] cuts out of a value. *)
Lemma three_bytes v :
  0 <= v ->
  Z.land (Z.shiftr v 16) 255 * 65536 + Z.land (Z.shiftr v 8) 255 * 256 + Z.land v 255
  = v mod 16777216.
Proof.
  intros Hv. rewrite !land_255, !Z.shiftr_div_pow2 by lia.
  change (2 ^ 16) with 65536. change (2 ^ 8) with 256.
  pose proof (Z.div_mod v 256 ltac:(lia)) as E1.
  pose proof (Z.div_mod (v / 256) 256 ltac:(lia)) as E2.
  pose proof (Z.div_mod (v / 256 / 256) 256 ltac:(lia)) as E3.
  rewrite Z.div_div in E2, E3 by lia. change (256 * 256) with 65536 in *.
  pose proof (Z.mod_pos_bound v 256 ltac:(lia)).
  pose proof (Z.mod_pos_bound (v / 256) 256 ltac:(lia)).
  pose proof (Z.mod_pos_bound (v / 65536) 256 ltac:(lia)).
  apply Z.mod_unique with (q := v / 65536 / 256); lia.
Qed.

Lemma hex_to_rgb_returned hex c :
  hex_to_rgb hex = Returned c ->
  exists digits,
    hex = String "#" digits /\
    hex_value (hex_prefix digits) <= UINT_MAX /\
    c = {| r := Z.land (Z.shiftr (hex_value (hex_prefix digits)) 16) 255;
           g := Z.land (Z.shiftr (hex_value (hex_prefix digits)) 8) 255;
           b := Z.land (hex_value (hex_prefix digits)) 255 |}.
Proof.
  destruct hex as [|ch digits]; [discriminate|].
  destruct (Ascii.ascii_dec ch "#") as [->|Hc].
  - cbn [hex_to_rgb]. unfold from_chars_hex.
    destruct (hex_prefix digits) as [|d ds] eqn:E; [discriminate|].
    destruct (hex_value (d :: ds) <=? UINT_MAX) eqn:L; [|discriminate].
    intros [= <-]. exists digits. rewrite E. apply Z.leb_le in L. auto.
  - unfold hex_to_rgb. destruct ch as [[] [] [] [] [] [] [] []]; try discriminate.
    now elim Hc.
Qed.

(** X1.  [rgb_to_hex] keeps the low byte of each component and nothing
    else: for every colour, also one with components below 0 or above 255,
    it returns a text of seven characters that [hex_to_rgb] reads back as
    the components modulo 256 (256 becomes 0, -1 becomes 255: the value
    wraps, it is not clamped), and it returns the same text for the colour
    and for its components modulo 256. *)
Theorem rgb_to_hex_keeps_the_low_byte (c : RGB) :
  String.length (rgb_to_hex c) = 7%nat /\
  hex_to_rgb (rgb_to_hex c)
  = Returned {| r := r c mod 256; g := g c mod 256; b := b c mod 256 |} /\
  rgb_to_hex {| r := r c mod 256; g := g c mod 256; b := b c mod 256 |} = rgb_to_hex c.
Proof.
  rewrite <- !land_255. split; [apply rgb_to_hex_length|]. split; [|apply rgb_to_hex_masked].
  rewrite <- rgb_to_hex_masked. apply hex_to_rgb_rgb_to_hex; cbn [r g b]; apply low_byte.
Qed.

(** X2.  Whenever [hex_to_rgb] returns, the three components lie in
    [0, 255] and are the low three bytes of the number that the digits after
    the ['#'] denote: fewer than six digits are not expanded (["#FFF"] is
    (0, 15, 255)) and what is above 24 bits is dropped; the colour returned
    is a fixed point of the round trip through [rgb_to_hex]. *)
Theorem hex_to_rgb_reads_the_low_three_bytes (hex : string) (c : RGB) :
  hex_to_rgb hex = Returned c ->
  0 <= r c <= 255 /\ 0 <= g c <= 255 /\ 0 <= b c <= 255 /\
  r c * 65536 + g c * 256 + b c = hex_value (hex_prefix (after_first hex)) mod 16777216 /\
  hex_to_rgb (rgb_to_hex c) = Returned c.
Proof.
  intros H. destruct (hex_to_rgb_returned hex c H) as (digits & -> & Hle & ->).
  cbn [r g b after_first].
  split; [apply low_byte|]. split; [apply low_byte|]. split; [apply low_byte|].
  split.
  - apply three_bytes. apply hex_value_nonneg, hex_prefix_range.
  - apply hex_to_rgb_rgb_to_hex; cbn [r g b]; apply low_byte.
Qed.

End ColourRange.

(** ** The case of the digits of a colour *)

Section ColourCase.
Import std BarChart.

Lemma hex_digit_upper_case c : hex_digit (upper_case c) = hex_digit c.
Proof. destruct c as [[] [] [] [] [] [] [] []]; reflexivity. Qed.

Lemma hex_prefix_to_upper s : hex_prefix (to_upper s) = hex_prefix s.
Proof.
  induction s as [|c s IH]; [reflexivity|].
  cbn [to_upper hex_prefix]. rewrite hex_digit_upper_case, IH. reflexivity.
Qed.

(** X3.  [hex_to_rgb] reads the digits a to f in either case: a text and
    its upper-case form give the same colour, or the same exception. *)
Theorem hex_to_rgb_ignores_the_case_of_the_digits (hex : string) :
  hex_to_rgb (to_upper hex) = hex_to_rgb hex.
Proof.
  destruct hex as [|c digits]; [reflexivity|].
  cbn [to_upper].
  assert (H : forall a, hex_to_rgb (String "#" a) =
                        match from_chars_hex a 0 with
                        | (value, errc_none) =>
                            Returned {| r := Z.land (Z.shiftr value 16) 255;
                                        g := Z.land (Z.shiftr value 8) 255;
                                        b := Z.land value 255 |}
                        | (_, _) => Thrown (invalid_argument "Invalid hex color format")
                        end) by reflexivity.
  destruct c as [[] [] [] [] [] [] [] []]; try reflexivity.
  change (upper_case "#") with "#"%char. rewrite !H.
  unfold from_chars_hex. now rewrite hex_prefix_to_upper.
Qed.

End ColourCase.

(** ** [darken_color] *)

Section Darken.
Import std BarChart.
Context {I : IntCasts}.
#[local] Open Scope Z_scope.

Lemma clamp_byte v : 0 <= clamp v 0 255 <= 255.
Proof.
  unfold clamp. destruct (v <? 0) eqn:L; [lia|].
  destruct (255 <? v) eqn:U; [lia|]. apply Z.ltb_ge in L, U. lia.
Qed.

Lemma darken_color_returned hex p c :
  hex_to_rgb hex = Returned c ->
  darken_color hex p =
  Returned (rgb_to_hex
    {| r := clamp (int_of_double int_out_of_range (double_of_int (r c) * (1 - p))%float) 0 255;
       g := clamp (int_of_double int_out_of_range (double_of_int (g c) * (1 - p))%float) 0 255;
       b := clamp (int_of_double int_out_of_range (double_of_int (b c) * (1 - p))%float) 0 255 |}).
Proof. intros H. unfold darken_color. rewrite H. reflexivity. Qed.

Lemma darken_color_thrown hex p e :
  darken_color hex p = Thrown e <-> hex_to_rgb hex = Thrown e.
Proof.
  unfold darken_color. destruct (hex_to_rgb hex) as [c|e']; cbn [and_then].
  - split; discriminate.
  - split; intros [= ->]; reflexivity.
Qed.

(** X4.  [darken_color] fails exactly as [hex_to_rgb] does on its input,
    with the same exception; on every other input, and for every percentage
    (a NaN, a negative one, one above 1) and every result of an undefined
    cast, it returns a colour of seven characters that [hex_to_rgb] reads
    back, with components in [0, 255]. *)
Theorem darken_color_fails_as_hex_to_rgb (hex : string) (percentage : double) :
  (forall e, darken_color hex percentage = Thrown e <-> hex_to_rgb hex = Thrown e) /\
  (forall c, hex_to_rgb hex = Returned c ->
     exists d,
       darken_color hex percentage = Returned (rgb_to_hex d) /\
       String.length (rgb_to_hex d) = 7%nat /\
       0 <= r d <= 255 /\ 0 <= g d <= 255 /\ 0 <= b d <= 255 /\
       hex_to_rgb (rgb_to_hex d) = Returned d).
Proof.
  split; [intros e; apply darken_color_thrown|].
  intros c H. rewrite (darken_color_returned hex percentage c H).
  eexists. split; [reflexivity|]. split; [apply rgb_to_hex_length|].
  cbn [r g b]. pose proof clamp_byte as B.
  split; [apply B|]. split; [apply B|]. split; [apply B|].
  apply hex_to_rgb_rgb_to_hex; cbn [r g b]; apply B.
Qed.

End Darken.

(** ** Rounding below an integer bound *)

Module DoubleRounding.
Import DoubleOrder DoubleSign.
#[local] Open Scope Z_scope.

Lemma iter_pos_nat {A : Type} (f : A -> A) (p : positive) (x : A) :
  iter_pos f p x = Nat.iter (Pos.to_nat p) f x.
Proof.
  revert x. induction p as [p IH|p IH|]; intros x; cbn [iter_pos].
  - rewrite !IH, Pos2Nat.inj_xI.
    replace (S (2 * Pos.to_nat p)) with (Pos.to_nat p + (Pos.to_nat p + 1))%nat by lia.
    rewrite !Nat.iter_add. reflexivity.
  - rewrite !IH, Pos2Nat.inj_xO.
    replace (2 * Pos.to_nat p)%nat with (Pos.to_nat p + Pos.to_nat p)%nat by lia.
    now rewrite Nat.iter_add.
  - reflexivity.
Qed.

Lemma shr_1_spec m r s :
  0 <= m ->
  shr_m (shr_1 {| shr_m := m; shr_r := r; shr_s := s |}) = m / 2 /\
  shr_r (shr_1 {| shr_m := m; shr_r := r; shr_s := s |}) = Z.odd m /\
  shr_s (shr_1 {| shr_m := m; shr_r := r; shr_s := s |}) = (r || s)%bool.
Proof.
  intros Hm. destruct m as [|[p|p|]|p]; try lia; cbn [shr_1 shr_m shr_r shr_s Z.odd];
    repeat split.
  - rewrite Pos2Z.inj_xI. apply Z.div_unique with (r := 1); lia.
  - rewrite Pos2Z.inj_xO. apply Z.div_unique with (r := 0); lia.
Qed.

(** [k] steps of [shr_1] divide by [2 ^ k]; the result is exact exactly
    when the division is. *)
Lemma shr_steps (k : nat) m :
  0 <= m ->
  let res := Nat.iter k shr_1 {| shr_m := m; shr_r := false; shr_s := false |} in
  shr_m res = m / 2 ^ Z.of_nat k /\
  (loc_of_shr_record res = loc_Exact <-> m mod 2 ^ Z.of_nat k = 0).
Proof.
  intros Hm. induction k as [|k IH]; cbn zeta.
  - cbn. split; [now rewrite Z.div_1_r|]. split; [intros _; apply Z.mod_1_r|reflexivity].
  - rewrite Nat.iter_succ. cbn zeta in IH. destruct IH as [IHm IHl].
    destruct (Nat.iter k shr_1 _) as [mk rk sk] eqn:E. cbn [shr_m] in IHm.
    assert (P : 0 < 2 ^ Z.of_nat k) by (apply Z.pow_pos_nonneg; lia).
    assert (Hk : 0 <= mk) by (rewrite IHm; apply Z.div_pos; lia).
    destruct (shr_1_spec mk rk sk Hk) as (S1 & S2 & S3).
    rewrite Nat2Z.inj_succ, Z.pow_succ_r by lia.
    split; [rewrite S1, IHm, Z.div_div by lia; f_equal; lia|].
    destruct (shr_1 _) as [m' r' s'] eqn:E'. cbn [shr_m shr_r shr_s] in *. subst r' s'.
    assert (Lk : loc_of_shr_record {| shr_m := mk; shr_r := rk; shr_s := sk |} = loc_Exact
                 <-> (rk || sk)%bool = false)
      by (destruct rk, sk; cbn; split; intros; congruence).
    pose proof (Z.div_mod m (2 ^ Z.of_nat k) ltac:(lia)) as D. rewrite <- IHm in D.
    pose proof (Z.mod_pos_bound m (2 ^ Z.of_nat k) P) as MB.
    split.
    + cbn [loc_of_shr_record].
      destruct (Z.odd mk) eqn:O; [destruct (rk || sk)%bool; discriminate|].
      destruct (rk || sk)%bool eqn:RS; [discriminate|]. intros _.
      assert (Z0 : m mod 2 ^ Z.of_nat k = 0) by (apply IHl, Lk; reflexivity).
      assert (Ev : Z.even mk = true) by (rewrite <- Z.negb_odd, O; reflexivity).
      apply Z.even_spec in Ev. destruct Ev as [j Ej].
      symmetry. apply Z.mod_unique with (q := j); [left|]; nia.
    + intros Z2.
      pose proof (Z.div_mod m (2 * 2 ^ Z.of_nat k) ltac:(lia)) as D2. rewrite Z2 in D2.
      set (j := m / (2 * 2 ^ Z.of_nat k)) in *.
      assert (Z0 : m mod 2 ^ Z.of_nat k = 0)
        by (symmetry; apply Z.mod_unique with (q := 2 * j); [left|]; nia).
      assert (RS : (rk || sk)%bool = false) by (apply Lk, IHl, Z0).
      assert (Emk : mk = 2 * j) by nia.
      assert (O : Z.odd mk = false) by (rewrite Emk, Z.odd_mul; reflexivity).
      cbn [loc_of_shr_record]. rewrite O, RS. reflexivity.
Qed.

Lemma round_nearest_even_cases m l :
  round_nearest_even m l = m \/
  (round_nearest_even m l = m + 1 /\ l <> loc_Exact).
Proof.
  destruct l as [|[]]; cbn [round_nearest_even]; auto.
  - destruct (Z.even m); [auto|right; split; [reflexivity|discriminate]].
  - right. split; [reflexivity|discriminate].
Qed.

Lemma fexp_eq e : fexp prec emax e = Z.max (e - 53) (-1074).
Proof. reflexivity. Qed.

Lemma Zdigits2_bounds m : 0 < m -> 2 ^ (Zdigits2 m - 1) <= m < 2 ^ Zdigits2 m.
Proof.
  destruct m as [|p|p]; try lia. intros _. apply digits2_pos_bounds.
Qed.

Lemma pow2_split a b : 0 <= a -> 0 <= b -> 2 ^ (a + b) = 2 ^ a * 2 ^ b.
Proof. intros. now rewrite Z.pow_add_r. Qed.

Lemma shr_fexp_spec m e :
  0 <= m ->
  let '(mrs, e1) := shr_fexp prec emax m e loc_Exact in
  e1 = Z.max e (fexp prec emax (Zdigits2 m + e)) /\
  shr_m mrs = m / 2 ^ (e1 - e) /\
  (loc_of_shr_record mrs = loc_Exact <-> m mod 2 ^ (e1 - e) = 0).
Proof.
  intros Hm. unfold shr_fexp, shr. cbn [shr_record_of_loc].
  destruct (fexp prec emax (Zdigits2 m + e) - e) as [|n|n] eqn:N.
  - replace (Z.max e _) with e by lia. rewrite Z.sub_diag. cbn [shr_m loc_of_shr_record].
    rewrite Z.pow_0_r, Z.div_1_r, Z.mod_1_r. tauto.
  - rewrite iter_pos_nat.
    pose proof (shr_steps (Pos.to_nat n) m Hm) as S. cbn zeta in S.
    rewrite positive_nat_Z in S.
    replace (Z.max e _) with (e + Zpos n) by lia.
    replace (e + Zpos n - e) with (Zpos n) by lia.
    split; [reflexivity|exact S].
  - replace (Z.max e _) with e by lia. rewrite Z.sub_diag. cbn [shr_m loc_of_shr_record].
    rewrite Z.pow_0_r, Z.div_1_r, Z.mod_1_r. tauto.
Qed.

(** A bound on the exponent of a number from a bound on its value. *)
Lemma digits_below m e B :
  0 < m -> e <= 0 -> 0 < B <= 2 ^ 52 -> m <= B * 2 ^ (- e) -> Zdigits2 m + e <= 53.
Proof.
  intros Hm He HB Hle.
  pose proof (Zdigits2_bounds m Hm) as [L _].
  assert (P : 0 < 2 ^ (- e)) by (apply Z.pow_pos_nonneg; lia).
  assert (U : m <= 2 ^ (52 - e)).
  { replace (52 - e) with (52 + - e) by lia. rewrite Z.pow_add_r by lia. nia. }
  destruct (Z.le_gt_cases (Zdigits2 m + e) 53) as [|G]; [assumption|exfalso].
  assert (2 ^ (53 - e) <= 2 ^ (Zdigits2 m - 1)) by (apply Z.pow_le_mono_r; lia).
  assert (2 ^ (52 - e) < 2 ^ (53 - e)) by (apply Z.pow_lt_mono_r; lia).
  lia.
Qed.

Lemma div_below m B a b :
  0 <= m -> 0 <= b <= a -> 0 < B -> m <= B * 2 ^ a -> m / 2 ^ (a - b) <= B * 2 ^ b.
Proof.
  intros Hm Hab HB Hle.
  assert (P : 0 < 2 ^ (a - b)) by (apply Z.pow_pos_nonneg; lia).
  apply Z.div_le_upper_bound; [exact P|].
  replace a with ((a - b) + b) in Hle at 1 by lia. rewrite Z.pow_add_r in Hle by lia. nia.
Qed.

(** Rounding to nearest never crosses an integer: the number
    [mx * 2 ^ ex], at most [B], is rounded to zero or to a positive number
    that is at most [B]. *)
Lemma binary_round_aux_below mx ex B :
  0 < mx -> ex <= 0 -> 0 < B <= 2 ^ 52 -> mx <= B * 2 ^ (- ex) ->
  sf_below B (binary_round_aux prec emax false mx ex loc_Exact).
Proof.
  intros Hm He HB Hle. unfold binary_round_aux.
  pose proof (shr_fexp_spec mx ex ltac:(lia)) as S1.
  destruct (shr_fexp prec emax mx ex loc_Exact) as [mrs1 e1].
  destruct S1 as (E1 & M1 & X1).
  pose proof (digits_below mx ex B Hm He HB Hle) as D1.
  rewrite fexp_eq in E1.
  assert (He1 : -1074 <= e1 <= 0 \/ (e1 = ex /\ e1 <= 0)) by lia.
  assert (He1' : e1 <= 0 /\ ex <= e1) by lia.
  set (m2 := round_nearest_even (shr_m mrs1) (loc_of_shr_record mrs1)).
  assert (P1 : 0 < 2 ^ (e1 - ex)) by (apply Z.pow_pos_nonneg; lia).
  assert (Hm1 : 0 <= shr_m mrs1) by (rewrite M1; apply Z.div_pos; lia).
  assert (B2 : 0 <= m2 <= B * 2 ^ (- e1)).
  { assert (U : shr_m mrs1 <= B * 2 ^ (- e1)).
    { rewrite M1. replace (e1 - ex) with (- ex - - e1) by lia.
      apply div_below; lia. }
    subst m2.
    destruct (round_nearest_even_cases (shr_m mrs1) (loc_of_shr_record mrs1)) as [->|[-> Inex]];
      [lia|].
    split; [lia|].
    assert (R : mx mod 2 ^ (e1 - ex) <> 0) by (intros Z0; apply Inex, X1, Z0).
    pose proof (Z.div_mod mx (2 ^ (e1 - ex)) ltac:(lia)) as DM.
    pose proof (Z.mod_pos_bound mx (2 ^ (e1 - ex)) P1) as MB.
    rewrite <- M1 in DM.
    assert (Hs : shr_m mrs1 * 2 ^ (e1 - ex) < B * 2 ^ (- e1) * 2 ^ (e1 - ex)).
    { replace (B * 2 ^ (- e1) * 2 ^ (e1 - ex)) with (B * 2 ^ (- ex)).
      - lia.
      - rewrite <- Z.mul_assoc, <- Z.pow_add_r by lia. f_equal. f_equal. lia. }
    assert (shr_m mrs1 < B * 2 ^ (- e1)) by nia. lia. }
  clearbody m2.
  pose proof (shr_fexp_spec m2 e1 ltac:(lia)) as S2.
  destruct (shr_fexp prec emax m2 e1 loc_Exact) as [mrs2 e2].
  destruct S2 as (E2 & M2 & _). rewrite fexp_eq in E2.
  destruct (Z.eq_dec m2 0) as [->|Hnz].
  - rewrite Z.div_0_l in M2 by (apply Z.pow_nonzero; lia). rewrite M2. exact I.
  - pose proof (digits_below m2 e1 B ltac:(lia) ltac:(lia) HB ltac:(lia)) as D2.
    assert (He2 : e1 <= e2 <= 0) by lia.
    assert (U : shr_m mrs2 <= B * 2 ^ (- e2)).
    { rewrite M2. replace (e2 - e1) with (- e1 - - e2) by lia. apply div_below; lia. }
    assert (L : 0 <= shr_m mrs2).
    { rewrite M2. apply Z.div_pos; [lia|apply Z.pow_pos_nonneg; lia]. }
    destruct (shr_m mrs2) as [|m|m]; [exact I| |lia].
    assert (Le : (e2 <=? emax - prec) = true) by (apply Z.leb_le; unfold emax, prec; lia).
    rewrite Le. cbn [sf_below]. lia.
Qed.

Lemma shl_align_spec m e e' :
  snd (shl_align m e e') = Z.min e e' /\
  Zpos (fst (shl_align m e e')) = Zpos m * 2 ^ (e - Z.min e e').
Proof.
  unfold shl_align. destruct (e' - e) as [|k|k] eqn:K; cbn [fst snd].
  - replace (Z.min e e') with e by lia. rewrite Z.sub_diag, Z.pow_0_r. lia.
  - replace (Z.min e e') with e by lia. rewrite Z.sub_diag, Z.pow_0_r. lia.
  - replace (Z.min e e') with e' by lia. split; [reflexivity|].
    rewrite iter_xO. f_equal. f_equal. lia.
Qed.

Lemma binary_round_below d e B :
  e <= 0 -> 0 < B <= 2 ^ 52 -> Zpos d <= B * 2 ^ (- e) ->
  sf_below B (binary_round prec emax false d e).
Proof.
  intros He HB Hle. unfold binary_round.
  set (e' := fexp prec emax (Zpos (digits2_pos d) + e)).
  destruct (shl_align_spec d e e') as [S1 S2].
  destruct (shl_align d e e') as [mz ez]. cbn [fst snd] in S1, S2. subst ez.
  apply binary_round_aux_below; try lia.
  rewrite S2.
  replace (- Z.min e e') with (- e + (e - Z.min e e')) by lia.
  rewrite Z.pow_add_r by lia.
  assert (0 < 2 ^ (e - Z.min e e')) by (apply Z.pow_pos_nonneg; lia). nia.
Qed.

#[local] Open Scope float_scope.

(** [1.0 - p] for a [p] between 0 and 1 lies between 0 and 1. *)
Lemma one_minus_below p :
  (0 <=? p) = true -> (p <=? 1) = true -> sf_below 1 (Prim2SF (1 - p)).
Proof.
  intros H0 H1. rewrite sub_spec. unfold SF64sub.
  apply leb_key in H0, H1. destruct H0 as (_ & _ & K0), H1 as (Np & _ & K1).
  rewrite is_nan_spec in Np. pose proof (Prim2SF_valid p) as V.
  change (Prim2SF 1) with (S754_finite false 4503599627370496 (-52)) in *.
  change (Prim2SF 0) with (S754_zero false) in K0.
  destruct (Prim2SF p) as [s|s| |s m e]; try discriminate.
  - cbn. lia.
  - destruct s; [elim K0; reflexivity|elim K1; reflexivity].
  - destruct s; [elim K0; reflexivity|].
    cbn [sf_key] in K1. rewrite lex3_Gt, lex3_Lt in K1.
    cbn [valid_binary] in V. apply bounded_inv in V. destruct V as (V1 & V2 & V3).
    unfold prec, emax in *.
    assert (He : (e <= -52)%Z) by lia.
    unfold SFsub. replace (Z.min (-52) e) with e by lia.
    rewrite !shl_align_fst by lia. cbn [cond_Zopp].
    rewrite Z.sub_diag, Z.pow_0_r, Z.mul_1_r.
    assert (P : (4503599627370496 * 2 ^ (-52 - e) = 2 ^ (- e))%Z).
    { change 4503599627370496%Z with (2 ^ 52)%Z. rewrite <- Z.pow_add_r by lia.
      f_equal. lia. }
    rewrite P.
    destruct (Z.eq_dec e (-52)) as [->|Hne].
    + assert (Zpos m = 2 ^ 52)%Z by (change (2 ^ (53 - 1))%Z with (2 ^ 52)%Z in V3; lia).
      replace (2 ^ (- -52) - Zpos m)%Z with 0%Z by (change (- -52)%Z with 52%Z; lia).
      exact I.
    + assert (G : (2 ^ 53 <= 2 ^ (- e))%Z) by (apply Z.pow_le_mono_r; lia).
      destruct (2 ^ (- e) - Zpos m)%Z as [|d|d] eqn:D; try lia.
      cbn [binary_normalize]. apply binary_round_below; lia.
Qed.

(** The product of a byte and a number between 0 and 1 is rounded to a
    number between 0 and the byte. *)
Lemma byte_product_below (c : Z) q :
  (0 <= c <= 255)%Z -> sf_below 1 (Prim2SF q) ->
  sf_below c (Prim2SF (std.double_of_int c * q)).
Proof.
  intros Hc Hq. rewrite mul_spec. unfold SF64mul.
  assert (X : match Prim2SF (std.double_of_int c) with
              | S754_zero _ => True
              | S754_finite false mx ex => (0 < c /\ ex <= 0 /\ Zpos mx = c * 2 ^ (- ex))%Z
              | _ => False
              end).
  { assert (T : (fun c => match Prim2SF (std.double_of_int c) with
                          | S754_zero _ => true
                          | S754_finite false mx ex =>
                              ((0 <? c) && (ex <=? 0) && (Zpos mx =? c * 2 ^ (- ex)))%Z
                          | _ => false
                          end) c = true).
    { assert (A : forallb (fun c => match Prim2SF (std.double_of_int c) with
                          | S754_zero _ => true
                          | S754_finite false mx ex =>
                              ((0 <? c) && (ex <=? 0) && (Zpos mx =? c * 2 ^ (- ex)))%Z
                          | _ => false
                          end) (map Z.of_nat (seq 0 256)) = true) by (vm_compute; reflexivity).
      rewrite forallb_forall in A. apply A. apply in_map_iff.
      exists (Z.to_nat c). split; [lia|]. apply in_seq. lia. }
    cbn beta in T. destruct (Prim2SF (std.double_of_int c)) as [s|s| |[] mx ex]; try discriminate;
      [exact I|].
    apply andb_prop in T. destruct T as [T T3]. apply andb_prop in T. destruct T as [T1 T2].
    apply Z.ltb_lt in T1. apply Z.leb_le in T2. apply Z.eqb_eq in T3. auto. }
  destruct (Prim2SF (std.double_of_int c)) as [s|s| |[] mx ex]; try contradiction.
  - destruct (Prim2SF q) as [s'|s'| |[] mq eq]; try contradiction; exact I.
  - destruct X as (Cp & Ex & Mx).
    destruct (Prim2SF q) as [s'|s'| |[] mq eq]; try contradiction; [exact I|].
    cbn [sf_below] in Hq. destruct Hq as [Eq Mq].
    cbn [SFmul xorb]. apply binary_round_aux_below; try lia.
    rewrite Pos2Z.inj_mul, Mx.
    replace (- (ex + eq))%Z with (- ex + - eq)%Z by lia. rewrite Z.pow_add_r by lia.
    assert (0 < 2 ^ (- ex))%Z by (apply Z.pow_pos_nonneg; lia).
    assert (0 < 2 ^ (- eq))%Z by (apply Z.pow_pos_nonneg; lia). nia.
Qed.

(** The integer part of a number between 0 and [B]. *)
Lemma toward_zero_below B y :
  (0 <= B)%Z -> sf_below B (Prim2SF y) ->
  exists t, std.toward_zero y = Some t /\ (0 <= t <= B)%Z.
Proof.
  intros HB. unfold std.toward_zero.
  destruct (Prim2SF y) as [s|s| |[] m e]; try contradiction.
  - intros _. exists 0%Z. split; [reflexivity|lia].
  - cbn [sf_below]. intros [He Hm]. eexists. split; [reflexivity|].
    destruct (0 <=? e)%Z eqn:L.
    + apply Z.leb_le in L. assert (e = 0)%Z by lia. subst e.
      rewrite Z.shiftl_0_r. cbn in Hm. lia.
    + rewrite Z.shiftr_div_pow2 by lia.
      assert (0 < 2 ^ (- e))%Z by (apply Z.pow_pos_nonneg; lia).
      split; [apply Z.div_pos; lia|].
      apply Z.div_le_upper_bound; lia.
Qed.

End DoubleRounding.

(** ** [darken_color] between 0% and 100% *)

Section DarkenBounds.
Import std BarChart.
Context {I : IntCasts}.
#[local] Open Scope Z_scope.

Lemma byte_by_cases (P : Z -> bool) :
  forallb P (map Z.of_nat (seq 0 256)) = true ->
  forall z, 0 <= z <= 255 -> P z = true.
Proof.
  intros H z Hz. rewrite forallb_forall in H. apply H.
  apply in_map_iff. exists (Z.to_nat z). split; [lia|]. apply in_seq. lia.
Qed.

Lemma int_of_double_defined x t :
  toward_zero x = Some t -> 0 <= t <= 255 ->
  clamp (int_of_double int_out_of_range x) 0 255 = t.
Proof.
  intros T Ht. unfold int_of_double. rewrite T.
  assert (R : ((INT_MIN <=? t) && (t <=? INT_MAX))%bool = true)
    by (unfold INT_MIN, INT_MAX; apply andb_true_intro; split; apply Z.leb_le; lia).
  rewrite R. unfold clamp.
  destruct (t <? 0) eqn:L; [apply Z.ltb_lt in L; lia|].
  destruct (255 <? t) eqn:U; [apply Z.ltb_lt in U; lia|reflexivity].
Qed.

Lemma darkened_component c p :
  0 <= c <= 255 -> (0 <=? p)%float = true -> (p <=? 1)%float = true ->
  exists t,
    toward_zero (double_of_int c * (1 - p))%float = Some t /\ 0 <= t <= c /\
    clamp (int_of_double int_out_of_range (double_of_int c * (1 - p))%float) 0 255 = t.
Proof.
  intros Hc H0 H1.
  pose proof (DoubleRounding.one_minus_below p H0 H1) as Q.
  pose proof (DoubleRounding.byte_product_below c _ Hc Q) as Y.
  destruct (DoubleRounding.toward_zero_below c _ ltac:(lia) Y) as (t & T & Ht).
  exists t. split; [exact T|]. split; [exact Ht|].
  apply int_of_double_defined; [exact T|lia].
Qed.

(** X5.  For a percentage between 0 and 1, [darken_color] never brightens:
    each component of the colour it returns is the integer part of the
    component of its input times [1.0 - percentage], computed in binary64,
    and lies between 0 and that component; none of the three casts to [int]
    is undefined. *)
Theorem darken_color_never_brightens (hex : string) (percentage : double) (c : RGB) :
  hex_to_rgb hex = Returned c ->
  (0 <=? percentage)%float = true -> (percentage <=? 1)%float = true ->
  exists d,
    darken_color hex percentage = Returned (rgb_to_hex d) /\
    toward_zero (double_of_int (r c) * (1 - percentage))%float = Some (r d) /\
    toward_zero (double_of_int (g c) * (1 - percentage))%float = Some (g d) /\
    toward_zero (double_of_int (b c) * (1 - percentage))%float = Some (b d) /\
    0 <= r d <= r c /\ 0 <= g d <= g c /\ 0 <= b d <= b c.
Proof.
  intros H H0 H1.
  destruct (hex_to_rgb_reads_the_low_three_bytes hex c H) as (Hr & Hg & Hb & _).
  destruct (darkened_component (r c) percentage Hr H0 H1) as (tr & Tr & Br & Cr).
  destruct (darkened_component (g c) percentage Hg H0 H1) as (tg & Tg & Bg & Cg).
  destruct (darkened_component (b c) percentage Hb H0 H1) as (tb & Tb & Bb & Cb).
  exists {| r := tr; g := tg; b := tb |}. cbn [r g b].
  rewrite (darken_color_returned hex percentage c H), Cr, Cg, Cb.
  repeat split; trivial; lia.
Qed.

Lemma unchanged_component c :
  0 <= c <= 255 ->
  clamp (int_of_double int_out_of_range (double_of_int c * (1 - 0))%float) 0 255 = c.
Proof.
  intros Hc. apply int_of_double_defined; [|exact Hc].
  pose proof (byte_by_cases
                (fun c => match toward_zero (double_of_int c * (1 - 0))%float with
                          | Some t => t =? c
                          | None => false
                          end) ltac:(vm_compute; reflexivity) c Hc) as T.
  cbn beta in T. destruct (toward_zero _) as [t|]; [|discriminate].
  apply Z.eqb_eq in T. now subst.
Qed.

Lemma blackened_component c :
  0 <= c <= 255 ->
  clamp (int_of_double int_out_of_range (double_of_int c * (1 - 1))%float) 0 255 = 0.
Proof.
  intros Hc. apply int_of_double_defined; [|lia].
  pose proof (byte_by_cases
                (fun c => match toward_zero (double_of_int c * (1 - 1))%float with
                          | Some t => t =? 0
                          | None => false
                          end) ltac:(vm_compute; reflexivity) c Hc) as T.
  cbn beta in T. destruct (toward_zero _) as [t|]; [|discriminate].
  apply Z.eqb_eq in T. now subst.
Qed.

(** X6.  At the two ends of the scale: darkening by 0 returns the colour of
    the input, written by [rgb_to_hex] (six upper-case digits), and
    darkening by 1 returns black. *)
Theorem darken_color_at_the_ends (hex : string) (c : RGB) :
  hex_to_rgb hex = Returned c ->
  darken_color hex 0 = Returned (rgb_to_hex c) /\
  darken_color hex 1 = Returned "#000000".
Proof.
  intros H.
  destruct (hex_to_rgb_reads_the_low_three_bytes hex c H) as (Hr & Hg & Hb & _).
  rewrite !(darken_color_returned hex _ c H).
  rewrite !unchanged_component, !blackened_component by assumption.
  split; [now destruct c|reflexivity].
Qed.

End DarkenBounds.

(** ** [generate_bar_chart_svg] *)

Section SvgCharts.
Import std BarChart.
Context {F : Format} {D : FormatDefault} {I : IntCasts}.
#[local] Open Scope float_scope.

(** *** The scaling maximum *)

Lemma scaling_fold (data : list double) : forall acc,
  acc = 0 \/ (0 <? acc) = true ->
  let mx := fold_left (fun max_value value => if max_value <? value then value else max_value)
              data acc in
  (mx = acc \/ In mx data) /\
  (mx = 0 \/ (0 <? mx) = true) /\
  ((acc <? mx) = true \/ mx = acc) /\
  (forall v, In v data -> (mx <? v) = false).
Proof.
  induction data as [|x data IH]; intros acc Hacc; cbn [fold_left].
  - cbn zeta. repeat split; auto. intros v [].
  - destruct (acc <? x) eqn:L.
    + assert (Hx : x = 0 \/ (0 <? x) = true).
      { right. destruct Hacc as [->|Hacc]; [exact L|].
        exact (DoubleOrder.ltb_trans _ _ _ Hacc L). }
      specialize (IH x Hx). cbn zeta in IH. destruct IH as (I1 & I2 & I3 & I4).
      set (mx := fold_left _ data x) in *. cbn zeta.
      split; [right; destruct I1 as [->|]; [now left|now right]|].
      split; [exact I2|].
      split.
      * left. destruct I3 as [I3| ->]; [exact (DoubleOrder.ltb_trans _ _ _ L I3)|exact L].
      * intros v [<-|Hv]; [|now apply I4].
        destruct I3 as [I3| ->]; [now apply DoubleOrder.ltb_asym|apply DoubleOrder.ltb_irrefl].
    + specialize (IH acc Hacc). cbn zeta in IH. destruct IH as (I1 & I2 & I3 & I4).
      set (mx := fold_left _ data acc) in *. cbn zeta.
      split; [destruct I1 as [->|]; [now left|right; now right]|].
      split; [exact I2|]. split; [exact I3|].
      intros v [<-|Hv]; [|now apply I4].
      destruct I3 as [I3| ->]; [|exact L].
      destruct (mx <? x) eqn:M; [|reflexivity].
      pose proof (DoubleOrder.ltb_trans _ _ _ I3 M). congruence.
Qed.

(** X7.  The maximum that [generate_bar_chart_svg] divides by to scale the
    bars is positive for every input: it is neither zero nor a NaN, no value
    of the data is greater, and it is 1 or one of the values; it is 1 when no
    value is positive (an empty sequence, zeros, negative numbers, NaN). *)
Theorem scaling_maximum_is_positive (data : list double) :
  (0 <? scaling_maximum data) = true /\
  (forall v, In v data -> (scaling_maximum data <? v) = false) /\
  (scaling_maximum data = 1 \/ In (scaling_maximum data) data) /\
  ((forall v, In v data -> (0 <? v) = false) -> scaling_maximum data = 1).
Proof.
  unfold scaling_maximum.
  pose proof (scaling_fold data 0 (or_introl eq_refl)) as S. cbn zeta in S.
  set (mx := fold_left _ data 0) in *. destruct S as (S1 & S2 & S3 & S4).
  destruct S2 as [E|P].
  - rewrite E. change (0 =? 0) with true. cbv iota.
    split; [reflexivity|]. split; [|auto].
    intros v Hv. specialize (S4 v Hv). rewrite E in S4.
    destruct (1 <? v) eqn:L; [|reflexivity].
    assert (T : PrimFloat.ltb 0 1 = true) by reflexivity.
    pose proof (DoubleOrder.ltb_trans 0 1 v T L). congruence.
  - assert (Z : (mx =? 0) = false).
    { destruct (mx =? 0) eqn:Z; [|reflexivity].
      apply DoubleOrder.eqb_not_ltb in Z. destruct Z as [_ Z]. congruence. }
    rewrite Z. split; [exact P|]. split; [exact S4|]. split.
    + destruct S1 as [E|Hin]; [|now right]. rewrite E in P. discriminate.
    + intros Hall. destruct S1 as [E|Hin]; [rewrite E in P; discriminate|].
      specialize (Hall mx Hin). congruence.
Qed.

(** *** Texts *)

Lemma occurs_here (a b c : string) : occurs_in (a ++ b) (a ++ b ++ c).
Proof. exists "", c. cbn [String.append]. now rewrite StringFacts.append_assoc. Qed.

Lemma occurs_later (x a b : string) : occurs_in x b -> occurs_in x (a ++ b).
Proof.
  intros (before & after & ->). exists (a ++ before), after.
  now rewrite StringFacts.append_assoc.
Qed.

Lemma occurs_earlier (x a b : string) : occurs_in x a -> occurs_in x (a ++ b).
Proof.
  intros (before & after & ->). exists before, (after ++ b).
  now rewrite !StringFacts.append_assoc.
Qed.

Lemma occurs_trans (a b c : string) : occurs_in a b -> occurs_in b c -> occurs_in a c.
Proof.
  intros (p & q & ->) (p' & q' & ->). exists (p' ++ p), (q ++ q').
  now rewrite !StringFacts.append_assoc.
Qed.

Lemma occurs_refl (a : string) : occurs_in a a.
Proof. exists "", "". cbn [String.append]. now rewrite StringFacts.append_nil_r. Qed.

Lemma starts_here (a b : string) : starts_with a (a ++ b).
Proof. now exists b. Qed.

Lemma starts_with_app (p a b : string) : starts_with p a -> starts_with p (a ++ b).
Proof. intros [r ->]. exists (r ++ b). now rewrite StringFacts.append_assoc. Qed.

Lemma starts_with_trans (a b c : string) : starts_with a b -> starts_with b c -> starts_with a c.
Proof. intros [r ->] [r' ->]. exists (r ++ r'). now rewrite StringFacts.append_assoc. Qed.

Lemma starts_after_nothing (p a : string) : starts_with p a -> starts_with p ("" ++ a).
Proof. intros H. exact H. Qed.

Lemma starts_with_refl (a : string) : starts_with a a.
Proof. exists "". now rewrite StringFacts.append_nil_r. Qed.

Ltac find_occurrence :=
  lazymatch goal with
  | |- occurs_in (?a ++ ?b) (?a ++ ?b ++ ?c) => apply occurs_here
  | |- occurs_in _ (_ ++ _) => apply occurs_later; find_occurrence
  end.

(** *** The exceptions *)

Lemma darken_accepted colour p :
  accepted colour -> exists dark, darken_color colour p = Returned dark.
Proof.
  unfold accepted, darken_color. destruct (hex_to_rgb colour) as [c|e]; [|discriminate].
  intros _. eexists. reflexivity.
Qed.

(** The loop over the colours stops at the first colour that [hex_to_rgb]
    rejects, with its exception; otherwise it appends to the text one
    gradient per colour, numbered from [i]. *)
Lemma gradients_run (colors : list string) : forall i svg,
  match gradients i colors svg with
  | Returned out =>
      Forall accepted colors /\ starts_with svg out /\
      forall k, (k < List.length colors)%nat ->
        occurs_in ("    <linearGradient id=" ++ quoted ("grad" ++ to_string_N (i + N.of_nat k))) out
  | Thrown e =>
      exists good bad rest,
        colors = (good ++ bad :: rest)%list /\ Forall accepted good /\
        hex_to_rgb bad = Thrown e
  end.
Proof.
  induction colors as [|c colors IH]; intros i svg; cbn [gradients].
  - split; [constructor|]. split; [apply starts_with_refl|]. cbn. intros k Hk. lia.
  - destruct (darken_color c _) as [dark|e] eqn:Dk; cbn [and_then].
    + assert (A : accepted c).
      { unfold accepted. destruct (hex_to_rgb c) as [rgb|e] eqn:H; [reflexivity|].
        rewrite (proj2 (darken_color_thrown c _ e) H) in Dk. discriminate. }
      specialize (IH (i + 1)%N (svg ++ gradient i c dark)).
      destruct (gradients _ colors _) as [out|e].
      * destruct IH as (Hall & [rest ->] & O). split; [now constructor|]. split.
        -- exists (gradient i c dark ++ rest). now rewrite StringFacts.append_assoc.
        -- intros [|k] Hk.
           ++ rewrite N.add_0_r. apply occurs_earlier, occurs_later.
              unfold gradient. cbv zeta. apply occurs_here.
           ++ replace (i + N.of_nat (S k))%N with (i + 1 + N.of_nat k)%N by lia.
              apply O. cbn in Hk. lia.
      * destruct IH as (good & bad & rest & -> & Hg & Hb).
        exists (c :: good), bad, rest. repeat split; trivial. now constructor.
    + exists [], c, colors. repeat split; [constructor|].
      now apply darken_color_thrown in Dk.
Qed.

Lemma first_rejected (good good' : list string) bad bad' rest rest' e e' :
  (good ++ bad :: rest = good' ++ bad' :: rest')%list ->
  Forall accepted good -> Forall accepted good' ->
  hex_to_rgb bad = Thrown e -> hex_to_rgb bad' = Thrown e' -> e = e'.
Proof.
  revert good'. induction good as [|g good IH]; intros [|g' good'] E Hg Hg' Hb Hb';
    cbn [app] in E; injection E as E1 E2.
  - subst. congruence.
  - subst. inversion Hg' as [|? ? A _]; subst. unfold accepted in A. rewrite Hb in A. discriminate.
  - subst. inversion Hg as [|? ? A _]; subst. unfold accepted in A. rewrite Hb' in A. discriminate.
  - inversion Hg; inversion Hg'; subst. eapply IH; eauto.
Qed.

Lemma rejected_not_all_accepted (good : list string) bad rest e :
  Forall accepted (good ++ bad :: rest) -> hex_to_rgb bad = Thrown e -> False.
Proof.
  intros H Hb. apply Forall_app in H. destruct H as [_ H].
  inversion H as [|? ? A _]; subst. unfold accepted in A. rewrite Hb in A. discriminate.
Qed.

(** The name of a bar is the text of the label below it. *)
Lemma bar_names_the_bar cfg names data w scale x i :
  occurs_in (nth i names "" ++ "</text>") (bar cfg names data w scale x i).
Proof.
  unfold bar. cbv zeta. destruct (negb _); find_occurrence.
Qed.

Lemma bar_fill cfg names data w scale x i :
  match chart_config.colors cfg with
  | [] => occurs_in (" fill=" ++ quoted "black") (bar cfg names data w scale x i)
  | _ :: _ =>
      occurs_in
        (" fill="
         ++ quoted ("url(#grad"
                    ++ to_string_N (N.of_nat i mod N.of_nat (List.length (chart_config.colors cfg)))
                    ++ ")"))
        (bar cfg names data w scale x i)
  end.
Proof.
  unfold bar. cbv zeta. destruct (chart_config.colors cfg); find_occurrence.
Qed.

Lemma bars_run cfg names data w gap scale (n : nat) : forall start svg x,
  exists rest,
    fst (fold_left
           (fun '(svg, x_pos) i =>
              (svg ++ bar cfg names data w scale x_pos i, (x_pos + (w + gap))%float))
           (seq start n) (svg, x)) = svg ++ rest /\
    forall i, (start <= i < start + n)%nat ->
      exists x_pos, occurs_in (bar cfg names data w scale x_pos i) rest.
Proof.
  induction n as [|n IH]; intros start svg x; cbn [seq fold_left].
  - exists "". split; [cbn [fst]; now rewrite StringFacts.append_nil_r|]. intros i Hi. lia.
  - destruct (IH (S start) (svg ++ bar cfg names data w scale x start) (x + (w + gap))%float)
      as (rest & E & O).
    exists (bar cfg names data w scale x start ++ rest).
    split; [rewrite E; now rewrite StringFacts.append_assoc|].
    intros i Hi. destruct (Nat.eq_dec i start) as [->|Hne].
    + exists x. apply occurs_earlier, occurs_refl.
    + destruct (O i ltac:(lia)) as [x' Hx']. exists x'. now apply occurs_later.
Qed.

(** The width of the bars and the scale that [generate_bar_chart_svg]
    computes. *)
Lemma generate_bar_chart_svg_run names data cfg :
  List.length names = List.length data ->
  exists svg0 finish,
    starts_with "<svg width=" svg0 /\
    generate_bar_chart_svg names data cfg
    = and_then (gradients 0 (chart_config.colors cfg) svg0) finish /\
    forall svg, exists out,
      finish svg = Returned (out ++ "</svg>" ++ nl) /\
      starts_with svg out /\
      forall i, (i < List.length names)%nat ->
        exists x_pos,
          occurs_in (bar cfg names data (drawn_bar_width cfg data) (drawn_scale cfg data) x_pos i)
            out.
Proof.
  intros Hlen. unfold generate_bar_chart_svg. rewrite Hlen, Nat.eqb_refl. cbn [negb].
  cbv zeta. eexists _, _. split; [|split; [reflexivity|]].
  - do 2 apply starts_with_app. apply starts_after_nothing, starts_here.
  - intros svg. cbv beta. unfold bars. rewrite StringFacts.fold_left_append.
    eexists. split; [reflexivity|].
    match goal with
    | |- context [fold_left ?f (seq 0 ?n) (?s, ?x)] =>
        destruct (bars_run cfg names data (drawn_bar_width cfg data)
                    (300 / double_of_N (N.of_nat (List.length data) + 2))%float
                    (drawn_scale cfg data) n 0%nat s x) as (rest & E & O)
    end.
    unfold drawn_bar_width, drawn_scale in *. rewrite E. split.
    + apply starts_with_app. repeat apply starts_with_app. apply starts_with_refl.
    + intros i Hi. destruct (O i) as [x' Hx']; [rewrite Nat2N.id; lia|].
      exists x'. now apply occurs_later.
Qed.

(** X8.  The exceptions of [generate_bar_chart_svg].  With names and data
    of different lengths it throws [invalid_argument] for the lengths.  With
    equal lengths it throws exactly when [hex_to_rgb] rejects a colour of the
    configuration, with the exception of the first such colour, whether a bar
    uses that colour or not; so it returns exactly when every colour of the
    configuration is accepted, also for empty names and data. *)
Theorem generate_bar_chart_svg_exceptions (names : list string) (data : list double)
  (cfg : chart_config) :
  (List.length names <> List.length data ->
   generate_bar_chart_svg names data cfg
   = Thrown (invalid_argument "Names and data vectors must have the same length.")) /\
  (List.length names = List.length data ->
   forall e,
     generate_bar_chart_svg names data cfg = Thrown e <->
     exists good bad rest,
       chart_config.colors cfg = (good ++ bad :: rest)%list /\
       Forall accepted good /\ hex_to_rgb bad = Thrown e) /\
  (List.length names = List.length data ->
   (exists svg, generate_bar_chart_svg names data cfg = Returned svg) <->
   Forall accepted (chart_config.colors cfg)).
Proof.
  split; [|split].
  - intros Hlen. unfold generate_bar_chart_svg.
    apply Nat.eqb_neq in Hlen. now rewrite Hlen.
  - intros Hlen e.
    destruct (generate_bar_chart_svg_run names data cfg Hlen) as (svg0 & finish & _ & -> & Fin).
    pose proof (gradients_run (chart_config.colors cfg) 0 svg0) as G.
    destruct (gradients 0 (chart_config.colors cfg) svg0) as [svg|e']; cbn [and_then].
    + destruct (Fin svg) as (out & -> & _). destruct G as (Hall & _ & _). split; [discriminate|].
      intros (good & bad & rest & E & _ & Hb). rewrite E in Hall.
      elim (rejected_not_all_accepted _ _ _ _ Hall Hb).
    + destruct G as (good & bad & rest & E & Hg & Hb). split.
      * intros [= <-]. now exists good, bad, rest.
      * intros (good' & bad' & rest' & E' & Hg' & Hb'). f_equal.
        rewrite E in E'. exact (first_rejected _ _ _ _ _ _ _ _ E' Hg Hg' Hb Hb').
  - intros Hlen.
    destruct (generate_bar_chart_svg_run names data cfg Hlen) as (svg0 & finish & _ & -> & Fin).
    pose proof (gradients_run (chart_config.colors cfg) 0 svg0) as G.
    destruct (gradients 0 (chart_config.colors cfg) svg0) as [svg|e']; cbn [and_then].
    + destruct (Fin svg) as (out & -> & _). destruct G as (Hall & _ & _). split; [auto|eauto].
    + destruct G as (good & bad & rest & E & Hg & Hb). split.
      * intros [svg [=]].
      * intros Hall. rewrite E in Hall. elim (rejected_not_all_accepted _ _ _ _ Hall Hb).
Qed.

(** X9.  The document [generate_bar_chart_svg] returns: names and data
    have the same length, the text starts with the [<svg] tag and ends with
    the closing tag and a line feed, it holds the bar of every index, drawn
    with the width and the scale computed from the data, and every name is
    the text of a label. *)
Theorem generate_bar_chart_svg_document (names : list string) (data : list double)
  (cfg : chart_config) (svg : string) :
  generate_bar_chart_svg names data cfg = Returned svg ->
  List.length names = List.length data /\
  starts_with "<svg width=" svg /\
  ends_with ("</svg>" ++ nl) svg /\
  (forall i, (i < List.length data)%nat ->
     exists x_pos,
       occurs_in (bar cfg names data (drawn_bar_width cfg data) (drawn_scale cfg data) x_pos i)
         svg) /\
  (forall name, In name names -> occurs_in (name ++ "</text>") svg).
Proof.
  intros H.
  assert (Hlen : List.length names = List.length data).
  { destruct (Nat.eq_dec (List.length names) (List.length data)) as [|Hne]; [assumption|].
    unfold generate_bar_chart_svg in H. apply Nat.eqb_neq in Hne. rewrite Hne in H.
    discriminate. }
  split; [exact Hlen|].
  destruct (generate_bar_chart_svg_run names data cfg Hlen) as (svg0 & finish & S0 & E & Fin).
  rewrite E in H. pose proof (gradients_run (chart_config.colors cfg) 0 svg0) as G.
  destruct (gradients 0 (chart_config.colors cfg) svg0) as [svg1|e']; [|discriminate].
  cbn [and_then] in H. destruct G as (_ & S1 & _).
  destruct (Fin svg1) as (out & Eo & S2 & O). rewrite Eo in H. injection H as <-.
  assert (Bars : forall i, (i < List.length data)%nat ->
            exists x_pos,
              occurs_in (bar cfg names data (drawn_bar_width cfg data) (drawn_scale cfg data)
                           x_pos i) (out ++ "</svg>" ++ nl)).
  { intros i Hi. destruct (O i) as [x Hx]; [lia|]. exists x. now apply occurs_earlier. }
  split; [|split; [|split]].
  - apply starts_with_app.
    exact (starts_with_trans _ _ _ S0 (starts_with_trans _ _ _ S1 S2)).
  - now exists out.
  - exact Bars.
  - intros name Hin. apply In_nth with (d := "") in Hin. destruct Hin as (i & Hi & <-).
    destruct (Bars i) as [x Hx]; [lia|].
    exact (occurs_trans _ _ _ (bar_names_the_bar _ _ _ _ _ _ _) Hx).
Qed.

(** X10.  No bar refers to a gradient that is not defined.  Without
    colours every bar is filled black; with colours, the bar at index [i] is
    filled with the gradient numbered [i] modulo the number of colours, and a
    document that is returned defines a gradient with that number. *)
Theorem bars_are_filled_with_defined_gradients (names : list string) (data : list double)
  (cfg : chart_config) (svg : string) :
  generate_bar_chart_svg names data cfg = Returned svg ->
  forall w scale x_pos i,
    match chart_config.colors cfg with
    | [] => occurs_in (" fill=" ++ quoted "black") (bar cfg names data w scale x_pos i)
    | _ :: _ =>
        let k := (N.of_nat i mod N.of_nat (List.length (chart_config.colors cfg)))%N in
        occurs_in (" fill=" ++ quoted ("url(#grad" ++ to_string_N k ++ ")"))
          (bar cfg names data w scale x_pos i) /\
        occurs_in ("    <linearGradient id=" ++ quoted ("grad" ++ to_string_N k)) svg
    end.
Proof.
  intros H w scale x i. pose proof (bar_fill cfg names data w scale x i) as Fill.
  destruct (chart_config.colors cfg) as [|c cs] eqn:Ec; [exact Fill|].
  cbv zeta. split; [exact Fill|].
  assert (Hlen : List.length names = List.length data).
  { destruct (Nat.eq_dec (List.length names) (List.length data)) as [|Hne]; [assumption|].
    unfold generate_bar_chart_svg in H. apply Nat.eqb_neq in Hne. rewrite Hne in H.
    discriminate. }
  destruct (generate_bar_chart_svg_run names data cfg Hlen) as (svg0 & finish & S0 & E & Fin).
  rewrite E, Ec in H. pose proof (gradients_run (c :: cs) 0 svg0) as G.
  destruct (gradients 0 (c :: cs) svg0) as [svg1|e']; [|discriminate].
  cbn [and_then] in H. destruct G as (_ & _ & Ids).
  destruct (Fin svg1) as (out & Eo & [rest ->] & _). rewrite Eo in H. injection H as <-.
  set (k := (N.of_nat i mod N.of_nat (List.length (c :: cs)))%N).
  assert (Hk : (k < N.of_nat (List.length (c :: cs)))%N)
    by (apply N.mod_lt; cbn [List.length]; lia).
  specialize (Ids (N.to_nat k) ltac:(lia)). rewrite N2Nat.id, N.add_0_l in Ids.
  now apply occurs_earlier, occurs_earlier.
Qed.

End SvgCharts.

(** ** [bar_chart] *)

Section StageCharts.
Import std BarChart bencher.
Context {F : Format} {D : FormatDefault} {I : IntCasts}.

Lemma themes_accepted :
  Forall accepted themes.bright /\ Forall accepted themes.dark.
Proof. split; repeat constructor. Qed.

(** X11.  [bar_chart] on a stage never throws for the lengths: an exception
    is that of a colour of the configuration that [hex_to_rgb] rejects; when
    every colour is accepted a document is returned in which the name of
    every record is the text of a label; with the default configuration a
    document is returned for every stage; and a configuration whose label of
    the y axis is not empty is used as it is (the default label, MB/s, is not
    replaced by the label of the stage). *)
Theorem bar_chart_of_a_stage (s : stage) (cfg : chart_config) :
  (forall e,
     bar_chart s cfg = Thrown e ->
     exists colour, In colour (chart_config.colors cfg) /\ hex_to_rgb colour = Thrown e) /\
  (Forall accepted (chart_config.colors cfg) ->
   exists svg,
     bar_chart s cfg = Returned svg /\
     forall m, In m (stage.results s) ->
               occurs_in (performance_metrics.name m ++ "</text>") svg) /\
  (exists svg, bar_chart s chart_config.default = Returned svg) /\
  (chart_config.y_axis_label cfg <> "" ->
   bar_chart s cfg
   = generate_bar_chart_svg (map performance_metrics.name (stage.results s))
       (map performance_metrics.throughput_mb_per_sec (stage.results s)) cfg).
Proof.
  assert (Hlen : List.length (map performance_metrics.name (stage.results s))
                 = List.length (map performance_metrics.throughput_mb_per_sec (stage.results s)))
    by now rewrite !length_map.
  assert (Col : forall cfg',
            chart_config.colors cfg' = chart_config.colors cfg ->
            (forall e,
               generate_bar_chart_svg (map performance_metrics.name (stage.results s))
                 (map performance_metrics.throughput_mb_per_sec (stage.results s)) cfg' = Thrown e ->
               exists colour, In colour (chart_config.colors cfg) /\ hex_to_rgb colour = Thrown e) /\
            (Forall accepted (chart_config.colors cfg) ->
             exists svg,
               generate_bar_chart_svg (map performance_metrics.name (stage.results s))
                 (map performance_metrics.throughput_mb_per_sec (stage.results s)) cfg'
               = Returned svg /\
               forall m, In m (stage.results s) ->
                         occurs_in (performance_metrics.name m ++ "</text>") svg)).
  { intros cfg' Ec.
    destruct (generate_bar_chart_svg_exceptions
                (map performance_metrics.name (stage.results s))
                (map performance_metrics.throughput_mb_per_sec (stage.results s)) cfg')
      as (_ & T & R).
    specialize (T Hlen). specialize (R Hlen). rewrite Ec in T, R. split.
    - intros e He. apply T in He. destruct He as (good & bad & rest & E & _ & Hb).
      exists bad. split; [rewrite E; apply in_elt|exact Hb].
    - intros Hall. apply R in Hall. destruct Hall as [svg Hs]. exists svg. split; [exact Hs|].
      intros m Hm. apply (generate_bar_chart_svg_document _ _ _ _ Hs).
      now apply in_map. }
  split; [|split; [|split]].
  - intros e. unfold bar_chart. cbv zeta.
    destruct (chart_config.y_axis_label cfg =? "")%string; apply Col; reflexivity.
  - intros Hall. unfold bar_chart. cbv zeta.
    destruct (chart_config.y_axis_label cfg =? "")%string; apply Col; trivial.
  - unfold bar_chart. cbv zeta. cbn [chart_config.y_axis_label chart_config.default String.eqb].
    cbv iota.
    destruct (generate_bar_chart_svg_exceptions
                (map performance_metrics.name (stage.results s))
                (map performance_metrics.throughput_mb_per_sec (stage.results s))
                chart_config.default) as (_ & _ & R).
    apply (R Hlen). apply themes_accepted.
  - intros Hy. unfold bar_chart. cbv zeta. apply String.eqb_neq in Hy. now rewrite Hy.
Qed.

End StageCharts.

(** ** The width of a bar *)

Section BarWidth.
Import std bencher.
Context {F : Format} {C : Casts}.

Lemma code_points_append (a b : string) :
  reference_format.code_points (a ++ b)
  = (reference_format.code_points a + reference_format.code_points b)%nat.
Proof.
  induction a as [|c a IH]; [reflexivity|].
  cbn [String.append reference_format.code_points]. rewrite IH.
  destruct (_ && _)%bool; reflexivity.
Qed.

Lemma code_points_repeat (n : nat) (s : string) :
  reference_format.code_points (repeat_string n s)
  = (n * reference_format.code_points s)%nat.
Proof.
  induction n as [|n IH]; [reflexivity|].
  cbn [repeat_string]. rewrite code_points_append, IH. reflexivity.
Qed.

(** The shape of a bar for any two results of the casts. *)
Lemma bar_shape (full_blocks partial_index : N) :
  let full_blocks := if (bar_width <? full_blocks)%N then bar_width else full_blocks in
  let partial_index := if (7 <? partial_index)%N then 7%N else partial_index in
  let bar_str := repeat_string (N.to_nat full_blocks) full_block in
  let bar_str :=
    if ((full_blocks <? bar_width) && (0 <? partial_index))%N
    then bar_str ++ nth (N.to_nat partial_index) blocks ""
    else bar_str in
  let visible_length := (full_blocks + (if 0 <? partial_index then 1 else 0))%N in
  let padding := if (visible_length <? bar_width)%N then (bar_width - visible_length)%N else 0%N in
  exists full partial pad,
    bar_str ++ repeat_string (N.to_nat padding) " "
    = repeat_string full full_block ++ partial ++ repeat_string pad " " /\
    (full <= 40)%nat /\
    (partial = "" \/ In partial (tl blocks)) /\
    (full + reference_format.code_points partial + pad = 40)%nat.
Proof.
  cbv zeta. unfold bar_width.
  set (fb := if (40 <? full_blocks)%N then 40%N else full_blocks).
  set (pi := if (7 <? partial_index)%N then 7%N else partial_index).
  assert (Hfb : (fb <= 40)%N) by (subst fb; destruct (40 <? full_blocks)%N eqn:E;
                                   [lia|apply N.ltb_ge in E; lia]).
  assert (Hpi : (pi <= 7)%N) by (subst pi; destruct (7 <? partial_index)%N eqn:E;
                                  [lia|apply N.ltb_ge in E; lia]).
  clearbody fb pi. clear full_blocks partial_index.
  destruct (0 <? pi)%N eqn:P.
  - apply N.ltb_lt in P.
    destruct (fb <? 40)%N eqn:L; cbn [andb].
    + apply N.ltb_lt in L.
      assert (V : (fb + 1 <? 40)%N = true \/ (fb + 1 <? 40)%N = false)
        by (destruct (fb + 1 <? 40)%N; auto).
      exists (N.to_nat fb), (nth (N.to_nat pi) blocks ""),
        (N.to_nat (if (fb + 1 <? 40)%N then (40 - (fb + 1))%N else 0%N)).
      split; [now rewrite StringFacts.append_assoc|]. split; [lia|].
      assert (B : In (nth (N.to_nat pi) blocks "") (tl blocks) /\
                  reference_format.code_points (nth (N.to_nat pi) blocks "") = 1%nat).
      { assert (Hn : (1 <= N.to_nat pi <= 7)%nat) by lia.
        destruct (N.to_nat pi) as [|[|[|[|[|[|[|[|n]]]]]]]]; try lia;
          (split; [cbn; tauto|reflexivity]). }
      destruct B as [B1 B2]. split; [now right|]. rewrite B2.
      destruct V as [V|V]; rewrite V.
      * apply N.ltb_lt in V. lia.
      * apply N.ltb_ge in V. lia.
    + apply N.ltb_ge in L. assert (fb = 40%N) by lia. subst fb.
      exists 40%nat, "", 0%nat. cbn [N.add N.ltb N.compare Pos.compare Pos.compare_cont].
      split; [reflexivity|]. split; [lia|]. split; [now left|reflexivity].
  - rewrite andb_false_r, N.add_0_r.
    exists (N.to_nat fb), "", (N.to_nat (if (fb <? 40)%N then (40 - fb)%N else 0%N)).
    split; [reflexivity|]. split; [lia|]. split; [now left|]. cbn [reference_format.code_points].
    destruct (fb <? 40)%N eqn:L; [apply N.ltb_lt in L|apply N.ltb_ge in L]; lia.
Qed.

(** X12.  Every bar that [format_bar_chart] draws takes forty columns,
    whatever the value and the maximum are (negative numbers, infinities and
    NaN included, and whatever an undefined cast yields): at most forty full
    blocks, then at most one partial block, then spaces, forty code points in
    all, so that the separators of a chart are aligned. *)
Theorem every_bar_is_forty_columns_wide (max_value value : double) :
  reference_format.code_points (bar_str max_value value) = 40%nat /\
  exists full partial pad,
    bar_str max_value value = repeat_string full full_block ++ partial ++ repeat_string pad " " /\
    (full <= 40)%nat /\
    (partial = "" \/ In partial (tl blocks)) /\
    (full + reference_format.code_points partial + pad = 40)%nat.
Proof.
  unfold bar_str. cbv zeta.
  match goal with
  | |- context [N.to_nat (if (7 <? ?p)%N then _ else _)] => generalize p
  end.
  match goal with
  | |- context [N.to_nat (if (bar_width <? ?f)%N then _ else _)] => generalize f
  end.
  intros f p. destruct (bar_shape f p) as (full & partial & pad & E & Hf & Hp & Hs).
  cbv zeta in E. rewrite E. split; [|now exists full, partial, pad].
  rewrite !code_points_append, !code_points_repeat.
  change (reference_format.code_points full_block) with 1%nat.
  change (reference_format.code_points " ") with 1%nat. lia.
Qed.

End BarWidth.

(** ** The bars of the largest value and of zero *)

Module DoubleQuotient.
Import DoubleOrder.
#[local] Open Scope Z_scope.

(** A finite number divided by itself is 1. *)
Lemma SFdiv_self s m e :
  SFdiv prec emax (S754_finite s m e) (S754_finite s m e)
  = S754_finite false 4503599627370496 (-52).
Proof.
  unfold SFdiv, SFdiv_core_binary.
  replace (Zdigits2 (Zpos m) + e - (Zdigits2 (Zpos m) + e)) with 0 by lia.
  rewrite Z.sub_diag.
  change (Z.min (fexp prec emax 0) 0) with (-53).
  change (0 - -53) with 53.
  rewrite Z.shiftl_mul_pow2 by lia.
  assert (Q : Z.div_eucl (Zpos m * 2 ^ 53) (Zpos m) = (2 ^ 53, 0)).
  { pose proof (Z.div_mul (2 ^ 53) (Zpos m) ltac:(lia)) as Dv.
    pose proof (Z.mod_mul (2 ^ 53) (Zpos m) ltac:(lia)) as Md.
    rewrite (Z.mul_comm (2 ^ 53)) in Dv, Md.
    unfold Z.div, Z.modulo in Dv, Md.
    destruct (Z.div_eucl (Zpos m * 2 ^ 53) (Zpos m)) as [q r]. cbn [fst snd] in *.
    now subst. }
  rewrite Q.
  assert (L : new_location (Zpos m) 0 = loc_Exact).
  { unfold new_location. destruct (Z.even (Zpos m)); reflexivity. }
  rewrite L. destruct s; reflexivity.
Qed.

#[local] Open Scope float_scope.

Lemma positive_finite x :
  (0 <? x) = true -> (x <? infinity) = true ->
  exists m e, Prim2SF x = S754_finite false m e.
Proof.
  rewrite zero_ltb_pos, ltb_spec. change (Prim2SF infinity) with (S754_infinity false).
  destruct (Prim2SF x) as [s|s| |s m e]; try discriminate.
  - destruct s; discriminate.
  - destruct s; [discriminate|]. intros _ _. now exists m, e.
Qed.

Lemma div_self x :
  (0 <? x) = true -> (x <? infinity) = true -> x / x = 1.
Proof.
  intros H0 H1. destruct (positive_finite x H0 H1) as (m & e & E).
  rewrite <- (SF2Prim_Prim2SF (x / x)), div_spec, E.
  unfold SF64div. rewrite SFdiv_self. reflexivity.
Qed.

(** Zero divided by a number that is neither zero nor a NaN, then scaled,
    is a zero. *)
Lemma zero_quotient_scaled v mx k :
  (v =? 0) = true -> is_nan mx = false -> (mx =? 0) = false ->
  (0 <? k) = true -> (k <? infinity) = true ->
  exists s, Prim2SF (v / mx * k) = S754_zero s.
Proof.
  intros Hv Hn Hz K0 K1. destruct (positive_finite k K0 K1) as (mk & ek & Ek).
  rewrite mul_spec, div_spec, Ek.
  rewrite eqb_spec in Hv, Hz. rewrite is_nan_spec in Hn.
  change (Prim2SF 0) with (S754_zero false) in *.
  destruct (Prim2SF v) as [sv|sv| |sv mv ev]; try (destruct sv; discriminate); try discriminate.
  destruct (Prim2SF mx) as [sm|sm| |sm mm em]; try discriminate; cbn; eauto.
Qed.

End DoubleQuotient.

Section ExtremeBars.
Import std bencher.
Context {F : Format} {C : Casts}.
#[local] Open Scope float_scope.

Lemma size_t_of_zero out x s : Prim2SF x = S754_zero s -> size_t_of_double out x = 0%N.
Proof. intros E. unfold size_t_of_double, truncate. now rewrite E. Qed.

Lemma zero_minus_zero_scaled x s :
  Prim2SF x = S754_zero s -> exists s', Prim2SF ((x - double_of_N 0) * 8) = S754_zero s'.
Proof.
  intros E. rewrite mul_spec, sub_spec, E.
  change (Prim2SF (double_of_N 0)) with (S754_zero false).
  change (Prim2SF 8) with (S754_finite false 4503599627370496 (-49)).
  destruct s; cbn; eauto.
Qed.

(** X13.  In a chart of [format_bar_chart] whose maximum is positive and
    finite, the bar of the maximum is forty full blocks; and when the maximum
    is not a NaN the bar of a value equal to zero is forty spaces. *)
Theorem bars_of_the_largest_value_and_of_zero (max_value value : double) :
  ((0 <? max_value) = true -> (max_value <? infinity) = true ->
   bar_str max_value max_value = repeat_string 40 full_block) /\
  (is_nan max_value = false -> (value =? 0) = true ->
   bar_str max_value value = repeat_string 40 " ").
Proof.
  split.
  - intros H0 H1. unfold bar_str.
    assert (Z : (max_value =? 0) = false).
    { destruct (max_value =? 0) eqn:Z; [|reflexivity].
      apply DoubleOrder.eqb_not_ltb in Z. destruct Z as [_ Z]. congruence. }
    rewrite Z, (DoubleQuotient.div_self max_value H0 H1). cbv zeta.
    assert (E0 : size_t_of_double size_t_out_of_range (1 * double_of_N bar_width) = 40%N)
      by (vm_compute; reflexivity).
    rewrite E0.
    assert (E1 : ((1 * double_of_N bar_width - double_of_N 40) * 8) = 0)
      by (vm_compute; reflexivity).
    rewrite E1.
    assert (E2 : size_t_of_double size_t_out_of_range 0 = 0%N) by (vm_compute; reflexivity).
    rewrite E2. reflexivity.
  - intros Hn Hv. destruct (max_value =? 0) eqn:Z; [now apply bar_str_zero_max|].
    unfold bar_str. rewrite Z. cbv zeta.
    destruct (DoubleQuotient.zero_quotient_scaled value max_value (double_of_N bar_width)
                Hv Hn Z eq_refl eq_refl) as [s E].
    rewrite (size_t_of_zero _ _ _ E).
    destruct (zero_minus_zero_scaled _ _ E) as [s' E'].
    rewrite (size_t_of_zero _ _ _ E'). reflexivity.
Qed.

End ExtremeBars.

(** ** [print_bar_chart] and [print_results] on every input *)

Section Printing.
Import std bencher IOFacts.
Context {F : Format} {C : Casts}.
#[local] Open Scope float_scope.

(** X14.  [print_bar_chart] never throws and reports on [std::cerr] exactly
    the inputs for which [format_bar_chart] returns the empty text: one line
    for sequences of different lengths, another for empty sequences, and
    nothing on [std::cout]; for every other input it writes the chart to
    [std::cout] and nothing to [std::cerr]. *)
Theorem print_bar_chart_reports_an_unusable_input (names : list string) (values : list double)
  (c : console) :
  exists err,
    print_bar_chart names values c
    = (Returned tt,
       {| cout := cout c ++ format_bar_chart names values; cerr := cerr c ++ err |}) /\
    (err = "" <-> format_bar_chart names values <> "") /\
    (List.length names <> List.length values ->
     err = "Error: 'names' and 'values' must have the same number of elements." ++ nl) /\
    (List.length names = List.length values -> names = [] ->
     err = "Error: 'names' and 'values' must not be empty." ++ nl).
Proof.
  unfold print_bar_chart.
  destruct (Nat.eq_dec (List.length names) (List.length values)) as [Hlen|Hlen].
  - rewrite Hlen, Nat.eqb_refl. cbn [negb]. destruct names as [|n names].
    + exists ("Error: 'names' and 'values' must not be empty." ++ nl).
      unfold write_cerr, format_bar_chart. rewrite orb_true_r, StringFacts.append_nil_r.
      split; [reflexivity|]. split; [split; [discriminate|congruence]|].
      split; [intros H; now elim H|reflexivity].
    + exists "". unfold write_cout. rewrite StringFacts.append_nil_r.
      split; [reflexivity|]. split; [|split; [intros H; now elim H|discriminate]].
      split; [|reflexivity]. intros _.
      rewrite format_bar_chart_lines by (trivial; discriminate).
      destruct values as [|v values]; [discriminate|]. cbn [combine map].
      change (join (?x :: ?l)) with (x ++ join l). intros E.
      apply StringFacts.append_eq_nil in E. destruct E as [E _].
      exact (bar_line_not_empty _ _ _ E).
  - exists ("Error: 'names' and 'values' must have the same number of elements." ++ nl).
    pose proof Hlen as Hb. apply Nat.eqb_neq in Hb. rewrite Hb. cbn [negb].
    unfold write_cerr, format_bar_chart. rewrite Hb. cbn [negb orb].
    rewrite StringFacts.append_nil_r.
    split; [reflexivity|]. split; [split; [discriminate|congruence]|].
    split; [reflexivity|intros H; now elim Hlen].
Qed.

(** X15.  [print_results] returns for every stage and both values of the
    flag: its [throw] statement is never reached.  It only appends to the two
    streams, and what it appends to [std::cout] starts with the report of the
    records; with the comparison disabled, or with at most one record,
    nothing follows the report and nothing is written to [std::cerr]. *)
Theorem print_results_never_throws (s : stage) (show_comparison : bool) (c : console) :
  exists out err,
    print_results s show_comparison c
    = (Returned tt,
       {| cout := cout c ++ report_text s ++ out; cerr := cerr c ++ err |}) /\
    (show_comparison = false \/ (List.length (stage.results s) <= 1)%nat ->
     out = "" /\ err = "").
Proof.
  destruct (Nat.le_gt_cases (List.length (stage.results s)) 1) as [Few|Many].
  - exists "", "". rewrite (print_results_few s show_comparison Few c).
    now rewrite !StringFacts.append_nil_r.
  - destruct show_comparison.
    + assert (Hne : stage.results s <> []) by (intros E; rewrite E in Many; cbn in Many; lia).
      destruct (find_baseline_run s (stage.results s)
                  {| cout := cout c ++ report_text s; cerr := cerr c |} Hne)
        as (b & warning & Hfind & _).
      cbn [cout cerr] in Hfind.
      rewrite (print_results_with_comparison s c b warning Many Hfind).
      rewrite (print_results_without_comparison s c). cbn [snd cout].
      eexists _, _. split.
      * rewrite StringFacts.append_assoc. reflexivity.
      * intros [H|H]; [discriminate|lia].
    + exists "", "". rewrite (print_results_without_comparison s c).
      now rewrite !StringFacts.append_nil_r.
Qed.

End Printing.

(** ** The digits of a value on the console and in the markdown report *)

Section Digits.
Import std bencher IOFacts.
Context {F : Format} {C : Casts}.
#[local] Open Scope float_scope.

(** A value above 10 is not below 0.005 in absolute value. *)
Lemma above_ten_not_tiny v :
  (10 <? v) = true -> (abs v <? 0x1.47ae147ae147bp-8) = false.
Proof.
  intros H.
  assert (P : (0 <? v) = true) by exact (DoubleOrder.ltb_trans 0 10 v eq_refl H).
  assert (A : abs v = v).
  { rewrite <- (SF2Prim_Prim2SF (abs v)), abs_spec.
    rewrite DoubleOrder.zero_ltb_pos in P.
    destruct (Prim2SF v) as [s|s| |s m e] eqn:E; try discriminate;
      destruct s; try discriminate; cbn [SFabs]; rewrite <- E; apply SF2Prim_Prim2SF. }
  rewrite A. destruct (v <? 0x1.47ae147ae147bp-8) eqn:L; [|reflexivity].
  pose proof (DoubleOrder.ltb_trans v 0x1.47ae147ae147bp-8 10 L eq_refl) as T.
  apply DoubleOrder.ltb_asym in T. congruence.
Qed.

(** X18.  [to_markdown] writes a floating-point metric without decimals when
    it is above 100, with one decimal when it is above 10 and with two
    otherwise (a NaN included).  [print_results] writes it with the same
    number of decimals, except that a value below 0.005 in absolute value,
    which is never above 10, is written without decimals.  A present optional
    metric is written as its value, a count with its decimal digits in both
    reports, and an optional metric that is absent is left out by
    [print_results] and rendered as N/A by [to_markdown]. *)
Theorem console_and_markdown_show_the_same_digits (label : string) (v : double) :
  let decimals := if 100 <? v then 0%nat else if 10 <? v then 1%nat else 2%nat in
  format_metric label (metric_double v) = "**" ++ label ++ "**: " ++ fixed decimals v ++ nl /\
  prints (print_metric label (metric_double v)) tt
    (align_left 40 label ++ ": "
     ++ align_right 10 (fixed (if abs v <? 0x1.47ae147ae147bp-8 then 0%nat else decimals) v)
     ++ nl) /\
  ((abs v <? 0x1.47ae147ae147bp-8) = true -> decimals = 2%nat) /\
  print_metric label (metric_optional_double (Some v)) = print_metric label (metric_double v) /\
  format_metric label (metric_optional_double (Some v)) = format_metric label (metric_double v) /\
  (forall n,
     prints (print_metric label (metric_optional_count (Some n))) tt
       (align_left 40 label ++ ": " ++ align_right 10 (to_string_N n) ++ nl) /\
     format_metric label (metric_optional_count (Some n))
     = "**" ++ label ++ "**: " ++ to_string_N n ++ nl) /\
  prints (print_metric label (metric_optional_double None)) tt "" /\
  prints (print_metric label (metric_optional_count None)) tt "" /\
  format_metric label (metric_optional_double None) = "**" ++ label ++ "**: N/A" ++ nl /\
  format_metric label (metric_optional_count None) = "**" ++ label ++ "**: N/A" ++ nl.
Proof.
  cbv zeta.
  assert (Tiny : (abs v <? 0x1.47ae147ae147bp-8) = true -> (10 <? v) = false /\ (100 <? v) = false).
  { intros K. destruct (10 <? v) eqn:H10.
    - rewrite (above_ten_not_tiny v H10) in K. discriminate.
    - split; [reflexivity|]. destruct (100 <? v) eqn:H100; [|reflexivity].
      rewrite (DoubleOrder.ltb_trans 10 100 v eq_refl H100) in H10. discriminate. }
  split; [|split; [|split; [|split; [|split; [|split]]]]].
  - cbn [format_metric]. unfold format_value_double.
    destruct (100 <? v); [reflexivity|]. destruct (10 <? v); reflexivity.
  - cbn [print_metric]. unfold print_value_double.
    destruct (abs v <? 0x1.47ae147ae147bp-8) eqn:T.
    + destruct (Tiny eq_refl) as [-> ->]. apply prints_write_cout.
    + destruct (100 <? v); [apply prints_write_cout|].
      destruct (10 <? v); apply prints_write_cout.
  - intros K. destruct (Tiny K) as [-> ->]. reflexivity.
  - reflexivity.
  - reflexivity.
  - intros n. split; [apply prints_write_cout|reflexivity].
  - repeat split; apply prints_ret.
Qed.

End Digits.

(** ** Rounding above a power of two *)

Module DoubleAbove.
Import DoubleOrder DoubleSign DoubleRounding.
#[local] Open Scope Z_scope.

Lemma shr_steps_m (k : nat) (mrs : shr_record) :
  0 <= shr_m mrs -> shr_m (Nat.iter k shr_1 mrs) = shr_m mrs / 2 ^ Z.of_nat k.
Proof.
  intros Hm. induction k as [|k IH].
  - cbn. now rewrite Z.div_1_r.
  - rewrite Nat.iter_succ.
    destruct (Nat.iter k shr_1 mrs) as [mk rk sk] eqn:E. cbn [shr_m] in IH.
    assert (P : 0 < 2 ^ Z.of_nat k) by (apply Z.pow_pos_nonneg; lia).
    assert (Hk : 0 <= mk) by (rewrite IH; apply Z.div_pos; lia).
    destruct (shr_1_spec mk rk sk Hk) as (S1 & _).
    rewrite S1, IH, Nat2Z.inj_succ, Z.pow_succ_r, Z.div_div by lia. f_equal. lia.
Qed.

Lemma shr_record_of_loc_m m l : shr_m (shr_record_of_loc m l) = m.
Proof. destruct l as [|[]]; reflexivity. Qed.

Lemma shr_fexp_m m e l :
  0 <= m ->
  let '(mrs, e1) := shr_fexp prec emax m e l in
  e1 = Z.max e (fexp prec emax (Zdigits2 m + e)) /\ shr_m mrs = m / 2 ^ (e1 - e).
Proof.
  intros Hm. unfold shr_fexp, shr.
  destruct (fexp prec emax (Zdigits2 m + e) - e) as [|n|n] eqn:N.
  - replace (Z.max e _) with e by lia.
    rewrite Z.sub_diag, shr_record_of_loc_m, Z.pow_0_r, Z.div_1_r. auto.
  - rewrite iter_pos_nat, shr_steps_m by (rewrite shr_record_of_loc_m; exact Hm).
    rewrite shr_record_of_loc_m, positive_nat_Z.
    replace (Z.max e _) with (e + Zpos n) by lia.
    replace (e + Zpos n - e) with (Zpos n) by lia. auto.
  - replace (Z.max e _) with e by lia.
    rewrite Z.sub_diag, shr_record_of_loc_m, Z.pow_0_r, Z.div_1_r. auto.
Qed.

Lemma round_nearest_even_ge m l : m <= round_nearest_even m l.
Proof. destruct (round_nearest_even_cases m l) as [->|[-> _]]; lia. Qed.

(** Dividing by a power of two that leaves the leading bit. *)
Lemma div_pow2_above m a k :
  0 <= k <= a -> 2 ^ a <= m -> 2 ^ (a - k) <= m / 2 ^ k.
Proof.
  intros Hk Hm. assert (P : 0 < 2 ^ k) by (apply Z.pow_pos_nonneg; lia).
  apply Z.div_le_lower_bound; [exact P|].
  rewrite <- Z.pow_add_r by lia. now replace (k + (a - k)) with a by lia.
Qed.

(** One shift of [binary_round_aux]: the exponent does not go down and the
    leading bit stays. *)
Lemma shift_above m e l B :
  0 < m -> -1074 <= e -> 2 ^ (B - e) <= m ->
  let '(mrs, e1) := shr_fexp prec emax m e l in
  e <= e1 /\ 0 < shr_m mrs /\ 2 ^ (B - e1) <= shr_m mrs.
Proof.
  intros Hm He HB.
  pose proof (shr_fexp_m m e l ltac:(lia)) as S.
  destruct (shr_fexp prec emax m e l) as [mrs e1]. destruct S as [E1 M1].
  rewrite fexp_eq in E1.
  pose proof (Zdigits2_bounds m Hm) as [L U].
  set (d := Zdigits2 m) in *.
  assert (Hd : 1 <= d).
  { destruct (Z.le_gt_cases 1 d); [assumption|exfalso].
    assert (2 ^ d <= 2 ^ 0) by (apply Z.pow_le_mono_r; lia). cbn in *. lia. }
  assert (K : 0 <= e1 - e <= d - 1) by lia.
  split; [lia|].
  assert (Pos1 : 2 ^ (d - 1 - (e1 - e)) <= shr_m mrs)
    by (rewrite M1; apply div_pow2_above; lia).
  assert (0 < 2 ^ (d - 1 - (e1 - e))) by (apply Z.pow_pos_nonneg; lia).
  split; [lia|].
  destruct (Z.le_gt_cases (e1 - e) (B - e)) as [Hle|Hgt].
  - replace (B - e1) with (B - e - (e1 - e)) by lia. rewrite M1.
    apply div_pow2_above; lia.
  - rewrite Z.pow_neg_r by lia. lia.
Qed.

(** Rounding a positive number, whatever was cut off before, gives a
    positive number of at least the same magnitude. *)
Lemma binary_round_aux_above mx ex lx :
  0 < mx -> -1074 <= ex ->
  sf_above (Zdigits2 mx + ex) (binary_round_aux prec emax false mx ex lx).
Proof.
  intros Hm He. unfold binary_round_aux.
  pose proof (Zdigits2_bounds mx Hm) as [L _].
  pose proof (shift_above mx ex lx (Zdigits2 mx + ex - 1) Hm He) as S1.
  replace (Zdigits2 mx + ex - 1 - ex) with (Zdigits2 mx - 1) in S1 by lia.
  specialize (S1 L).
  destruct (shr_fexp prec emax mx ex lx) as [mrs1 e1]. destruct S1 as (E1 & P1 & B1).
  pose proof (round_nearest_even_ge (shr_m mrs1) (loc_of_shr_record mrs1)) as R.
  set (m2 := round_nearest_even (shr_m mrs1) (loc_of_shr_record mrs1)) in *.
  pose proof (shift_above m2 e1 loc_Exact (Zdigits2 mx + ex - 1) ltac:(lia) ltac:(lia)
                ltac:(lia)) as S2.
  destruct (shr_fexp prec emax m2 e1 loc_Exact) as [mrs2 e2]. destruct S2 as (E2 & P2 & B2).
  destruct (shr_m mrs2) as [|m|m]; try lia.
  destruct (e2 <=? emax - prec); cbn [sf_above]; [|exact I].
  split; [lia|exact B2].
Qed.

Lemma Zdigits2_unique m j : 2 ^ (j - 1) <= m < 2 ^ j -> 0 < m -> Zdigits2 m = j.
Proof.
  intros [L U] Hm. pose proof (Zdigits2_bounds m Hm) as [L' U'].
  set (d := Zdigits2 m) in *.
  destruct (Z.lt_trichotomy d j) as [H|[H|H]]; [exfalso|assumption|exfalso].
  - assert (2 ^ d <= 2 ^ (j - 1)) by (apply Z.pow_le_mono_r; lia). lia.
  - assert (0 <= j).
    { destruct (Z.le_gt_cases 0 j); [assumption|]. rewrite Z.pow_neg_r in U by lia. lia. }
    assert (2 ^ j <= 2 ^ (d - 1)) by (apply Z.pow_le_mono_r; lia). lia.
Qed.

Lemma binary_round_above d e :
  -1074 <= e ->
  sf_above (Zpos (digits2_pos d) + e) (binary_round prec emax false d e).
Proof.
  intros He. unfold binary_round.
  set (e' := fexp prec emax (Zpos (digits2_pos d) + e)).
  assert (He' : -1074 <= e') by (subst e'; rewrite fexp_eq; lia).
  destruct (shl_align_spec d e e') as [S1 S2].
  destruct (shl_align d e e') as [mz ez]. cbn [fst snd] in S1, S2. subst ez.
  pose proof (digits2_pos_bounds d) as [L U].
  assert (P : 0 < 2 ^ (e - Z.min e e')) by (apply Z.pow_pos_nonneg; lia).
  assert (Dz : Zdigits2 (Zpos mz) = Zpos (digits2_pos d) + (e - Z.min e e')).
  { apply Zdigits2_unique; [|lia]. rewrite S2.
    replace (Zpos (digits2_pos d) + (e - Z.min e e') - 1)
      with (Zpos (digits2_pos d) - 1 + (e - Z.min e e')) by lia.
    rewrite !Z.pow_add_r by lia. nia. }
  pose proof (binary_round_aux_above (Zpos mz) (Z.min e e') loc_Exact ltac:(lia) ltac:(lia)) as A.
  rewrite Dz in A.
  now replace (Zpos (digits2_pos d) + (e - Z.min e e') + Z.min e e')
    with (Zpos (digits2_pos d) + e) in A by lia.
Qed.

Lemma sf_above_weaken M M' x : M' <= M -> sf_above M x -> sf_above M' x.
Proof.
  intros H. destruct x as [s|[]| |[] m e]; cbn [sf_above]; trivial.
  intros [He Hm]. split; [exact He|].
  destruct (Z.le_gt_cases 0 (M' - 1 - e)).
  - eapply Z.le_trans; [|exact Hm]. apply Z.pow_le_mono_r; lia.
  - rewrite Z.pow_neg_r by lia. lia.
Qed.

Lemma sf_above_pos M x : sf_above M x -> sf_pos x = true.
Proof. destruct x as [s|[]| |[] m e]; cbn; trivial; contradiction. Qed.

Lemma pow2_lt_inv a b : 0 <= a -> 2 ^ a < 2 ^ b -> a < b.
Proof.
  intros Ha H. destruct (Z.lt_ge_cases a b) as [|G]; [assumption|exfalso].
  destruct (Z.le_gt_cases 0 b).
  - assert (2 ^ b <= 2 ^ a) by (apply Z.pow_le_mono_r; lia). lia.
  - rewrite (Z.pow_neg_r 2 b) in H by lia.
    assert (0 < 2 ^ a) by (apply Z.pow_pos_nonneg; lia). lia.
Qed.

(** The number of bits of a canonical mantissa. *)
Lemma bounded_digits m e :
  bounded prec emax m e = true ->
  -1074 <= e /\ 1 <= Zpos (digits2_pos m) <= 53 /\ Zpos m < 2 ^ 53.
Proof.
  intros V. apply bounded_inv in V. destruct V as (V1 & V2 & _). unfold prec, emax in *.
  pose proof (digits2_pos_bounds m) as [L U].
  split; [lia|]. split; [|exact V2]. split; [lia|].
  assert (Zpos (digits2_pos m) - 1 < 53) by (apply pow2_lt_inv; lia). lia.
Qed.

(** The difference of two positive numbers, the first above the second, is
    at least one unit in the last place of the second. *)
Lemma SFsub_above mm em mb eb :
  bounded prec emax mm em = true -> bounded prec emax mb eb = true ->
  lex3 (sf_key (S754_finite false mb eb)) (sf_key (S754_finite false mm em)) = Lt ->
  sf_above (eb + 1)
    (SFsub prec emax (S754_finite false mm em) (S754_finite false mb eb)).
Proof.
  intros Vm Vb K. cbn [sf_key] in K. apply lex3_Lt in K.
  pose proof (bounded_digits _ _ Vb) as (Eb & _ & Mb).
  apply bounded_inv in Vm. destruct Vm as (_ & _ & Vm3). unfold prec, emax in Vm3.
  change (2 ^ (53 - 1)) with (2 ^ 52) in Vm3.
  assert (He : eb <= em) by lia.
  unfold SFsub. replace (Z.min em eb) with eb by lia.
  rewrite !shl_align_fst by lia. cbn [cond_Zopp].
  rewrite Z.sub_diag, Z.pow_0_r, Z.mul_1_r.
  assert (D : 0 < Zpos mm * 2 ^ (em - eb) - Zpos mb).
  { destruct (Z.eq_dec em eb) as [->|Hne].
    - rewrite Z.sub_diag, Z.pow_0_r. lia.
    - pose proof (pow2_ge_2 (em - eb) ltac:(lia)).
      assert (2 ^ 52 <= Zpos mm) by (apply Vm3; lia).
      change (2 ^ 53) with (2 * 2 ^ 52) in Mb. nia. }
  destruct (Zpos mm * 2 ^ (em - eb) - Zpos mb) as [|d|d]; try lia.
  cbn [binary_normalize].
  apply sf_above_weaken with (M := Zpos (digits2_pos d) + eb); [lia|].
  now apply binary_round_above.
Qed.

(** The quotient of such a difference by the second number does not
    underflow. *)
Lemma SFdiv_above m1 e1 mb eb :
  bounded prec emax m1 e1 = true -> bounded prec emax mb eb = true ->
  sf_above (eb + 1) (S754_finite false m1 e1) ->
  sf_above (-104) (SFdiv prec emax (S754_finite false m1 e1) (S754_finite false mb eb)).
Proof.
  intros V1 Vb A.
  pose proof (bounded_digits _ _ V1) as (E1 & [D1l D1u] & M1).
  pose proof (bounded_digits _ _ Vb) as (Eb & [D2l D2u] & Mb).
  pose proof (digits2_pos_bounds m1) as [L1 U1].
  pose proof (digits2_pos_bounds mb) as [L2 U2].
  cbn [sf_above] in A. destruct A as [_ A].
  replace (eb + 1 - 1 - e1) with (eb - e1) in A by lia.
  set (d1 := Zpos (digits2_pos m1)) in *. set (d2 := Zpos (digits2_pos mb)) in *.
  assert (Mag : eb + 1 <= d1 + e1).
  { destruct (Z.le_gt_cases 0 (eb - e1)) as [H|H]; [|lia].
    assert (eb - e1 < d1) by (apply pow2_lt_inv; lia). lia. }
  unfold SFdiv, SFdiv_core_binary. cbn [Zdigits2 xorb]. fold d1 d2.
  rewrite fexp_eq.
  replace (Z.min (Z.max (d1 + e1 - (d2 + eb) - 53) (-1074)) (e1 - eb))
    with (d1 + e1 - (d2 + eb) - 53) by lia.
  replace (e1 - eb - (d1 + e1 - (d2 + eb) - 53)) with (d2 - d1 + 53) by lia.
  destruct (d2 - d1 + 53) as [|s|s] eqn:S; try lia.
  rewrite Z.shiftl_mul_pow2 by lia.
  assert (P : 0 < 2 ^ Zpos s) by (apply Z.pow_pos_nonneg; lia).
  assert (Q : 1 <= Zpos m1 * 2 ^ Zpos s / Zpos mb).
  { apply Z.div_le_lower_bound; [lia|].
    assert (2 ^ d2 <= 2 ^ (d1 - 1) * 2 ^ Zpos s).
    { rewrite <- Z.pow_add_r by lia. apply Z.pow_le_mono_r; lia. }
    nia. }
  unfold Z.div in Q.
  destruct (Z.div_eucl (Zpos m1 * 2 ^ Zpos s) (Zpos mb)) as [q r]. cbn [fst] in Q.
  apply sf_above_weaken with (M := Zdigits2 q + (d1 + e1 - (d2 + eb) - 53)).
  - pose proof (Zdigits2_bounds q ltac:(lia)) as [Lq Uq].
    assert (1 <= Zdigits2 q).
    { destruct (Z.le_gt_cases 1 (Zdigits2 q)); [assumption|exfalso].
      assert (2 ^ Zdigits2 q <= 2 ^ 0) by (apply Z.pow_le_mono_r; [lia|lia]).
      destruct (Z.le_gt_cases 0 (Zdigits2 q)).
      - change (2 ^ 0) with 1 in *. lia.
      - rewrite Z.pow_neg_r in Uq by lia. lia. }
    lia.
  - apply binary_round_aux_above; lia.
Qed.

(** The percentage does not underflow either. *)
Lemma SFmul_hundred_pos m2 e2 :
  bounded prec emax m2 e2 = true ->
  sf_above (-104) (S754_finite false m2 e2) ->
  sf_pos (SFmul prec emax (S754_finite false m2 e2) (Prim2SF 100)) = true.
Proof.
  intros V A. pose proof (bounded_digits _ _ V) as (_ & _ & M2).
  cbn [sf_above] in A. destruct A as [_ A].
  replace (-104 - 1 - e2) with (-105 - e2) in A by lia.
  assert (He : -158 <= e2).
  { destruct (Z.le_gt_cases 0 (-105 - e2)) as [H|H]; [|lia].
    assert (-105 - e2 < 53) by (apply pow2_lt_inv; lia). lia. }
  change (Prim2SF 100) with (S754_finite false 7036874417766400 (-46)).
  cbn [SFmul xorb].
  eapply sf_above_pos. apply binary_round_aux_above; lia.
Qed.

#[local] Open Scope float_scope.

(** With a positive baseline [b], every [m] above it has a positive
    percentage. *)
Lemma percent_diff_of_faster m b :
  (0 <? b) = true -> (b <? m) = true -> (0 <? (m - b) / b * 100) = true.
Proof.
  intros Hb Hm. rewrite zero_ltb_pos in *.
  apply ltb_key in Hm. destruct Hm as (Nb & Nm & K). rewrite is_nan_spec in Nb, Nm.
  pose proof (Prim2SF_valid b) as Vb. pose proof (Prim2SF_valid m) as Vm.
  pose proof (Prim2SF_valid (m - b)) as V1. pose proof (Prim2SF_valid ((m - b) / b)) as V2.
  rewrite mul_spec. rewrite div_spec in V2 |- *. rewrite sub_spec in V1, V2 |- *.
  unfold SF64mul, SF64div, SF64sub in *.
  destruct (Prim2SF b) as [sb|[|]| |[|] mb eb]; try discriminate Hb.
  - (* the baseline is the positive infinity: nothing is above it *)
    exfalso. destruct (Prim2SF m) as [sm|[|]| |[|] mm em]; cbn in K; discriminate.
  - destruct (Prim2SF m) as [sm|[|]| |[|] mm em]; try (cbn in K; discriminate).
    + reflexivity.
    + cbn [valid_binary] in Vb, Vm.
      pose proof (SFsub_above mm em mb eb Vm Vb K) as A1.
      destruct (SFsub prec emax (S754_finite false mm em) (S754_finite false mb eb))
        as [s1|[|]| |[|] m1 e1]; try contradiction; [reflexivity|].
      cbn [valid_binary] in V1.
      pose proof (SFdiv_above m1 e1 mb eb V1 Vb A1) as A2.
      destruct (SFdiv prec emax (S754_finite false m1 e1) (S754_finite false mb eb))
        as [s2|[|]| |[|] m2 e2]; try contradiction; [reflexivity|].
      cbn [valid_binary] in V2.
      now apply SFmul_hundred_pos.
Qed.

End DoubleAbove.

(** ** The comparison against a positive baseline *)

Section PositiveBaseline.
Import std bencher.
Context {F : Format} {C : Casts}.
#[local] Open Scope float_scope.

Lemma faster_iff_above (b m : performance_metrics) :
  (0 <? thr b) = true -> is_faster b m = (thr b <? thr m).
Proof.
  intros Hb. unfold is_faster, diff_percentage. fold thr.
  destruct (thr b <? thr m) eqn:L.
  - now apply DoubleAbove.percent_diff_of_faster.
  - destruct (0 <? (thr m - thr b) / thr b * 100) eqn:P; [|reflexivity].
    assert (N : (thr b <? 0) = false) by now apply DoubleOrder.ltb_asym.
    assert (Z : (thr b =? 0) = false).
    { destruct (thr b =? 0) eqn:Z; [|reflexivity].
      apply DoubleOrder.eqb_not_ltb in Z. destruct Z as [_ Z]. congruence. }
    pose proof (DoubleSign.percent_diff_pos (thr m) (thr b) N Z P). congruence.
Qed.

(** X16.  With a baseline of positive throughput the comparison loop of
    [print_results] reports exactly the records whose throughput is strictly
    greater than the baseline's, in the order of the results, and writes
    nothing to [std::cerr]: in binary64 arithmetic the percentage
    [((m - b) / b) * 100] is positive exactly when [b < m], it never
    underflows to zero. *)
Theorem positive_baseline_reports_exactly_the_faster (b : performance_metrics)
  (metrics : list performance_metrics) (c : console) :
  (0 <? thr b) = true ->
  for_each metrics (compare_to_baseline b) c
  = (Returned tt,
     {| cout := cout c
                ++ join (map (faster_line b) (filter (fun m => thr b <? thr m) metrics));
        cerr := cerr c |}) /\
  (forall m, (0 <? diff_percentage b m) = (thr b <? thr m)).
Proof.
  intros Hb. split; [|intros m; now apply faster_iff_above].
  rewrite comparison_loop. unfold reported_faster, zero_baseline_error.
  assert (Z : (thr b =? 0) = false).
  { destruct (thr b =? 0) eqn:Z; [|reflexivity].
    apply DoubleOrder.eqb_not_ltb in Z. destruct Z as [_ Z]. congruence. }
  rewrite Z, StringFacts.append_nil_r.
  rewrite (filter_ext (is_faster b) (fun m => thr b <? thr m))
    by (intros m; now apply faster_iff_above).
  reflexivity.
Qed.

End PositiveBaseline.

(** ** [to_markdown] and the order of the results *)

Section MarkdownOrder.
Import std bencher.
Context {F : Format}.
#[local] Open Scope float_scope.

Lemma pairs_permuted {A : Type} (P : A -> A -> Prop) (l l' : list A) :
  (forall a b, P a b -> P b a) ->
  Permutation l l' -> ForallOrdPairs P l -> ForallOrdPairs P l'.
Proof.
  intros Sym Hp. induction Hp as [|x l l' Hp IH|x y l|l l' l'' _ IH1 _ IH2]; intros H.
  - constructor.
  - inversion H as [|? ? Hx Hl]; subst. constructor; [|now apply IH].
    rewrite Forall_forall in *. intros z Hz. apply Hx.
    now apply (Permutation_in _ (Permutation_sym Hp)).
  - inversion H as [|? ? Hy Hl]; subst. inversion Hl as [|? ? Hx Hl']; subst.
    inversion Hy as [|? ? Hyx Hyl]; subst.
    constructor; [constructor; [now apply Sym|assumption]|].
    constructor; assumption.
  - auto.
Qed.

(** Two sorted arrangements of the same pairwise different records are the
    same sequence. *)
Lemma sorted_arrangement_unique (l1 : list performance_metrics) : forall l2,
  distinct_throughputs l1 ->
  StronglySorted (in_order performance_metrics.gt) l1 ->
  StronglySorted (in_order performance_metrics.gt) l2 ->
  Permutation l1 l2 -> l1 = l2.
Proof.
  induction l1 as [|x l1 IH]; intros l2 Hd S1 S2 Hp.
  - apply Permutation_nil in Hp. now subst.
  - destruct l2 as [|y l2]; [apply Permutation_sym, Permutation_nil in Hp; discriminate|].
    inversion Hd as [|? ? Dx Dl]; subst.
    inversion S1 as [|? ? S1l S1x]; subst. inversion S2 as [|? ? S2l S2y]; subst.
    assert (E : x = y).
    { pose proof (Permutation_in x Hp (or_introl eq_refl)) as [E|Ix]; [now subst|].
      pose proof (Permutation_in y (Permutation_sym Hp) (or_introl eq_refl)) as [E|Iy];
        [assumption|exfalso].
      rewrite Forall_forall in Dx, S1x, S2y.
      specialize (Dx y Iy). specialize (S1x y Iy). specialize (S2y x Ix).
      unfold in_order, performance_metrics.gt in S1x, S2y. fold thr in S1x, S2y.
      destruct Dx; congruence. }
    subst y. f_equal. apply IH; trivial. exact (Permutation_cons_inv Hp).
Qed.

(** Among records with pairwise different throughputs, not preceding is
    transitive. *)
Lemma distinct_incomparable (l : list performance_metrics) :
  distinct_throughputs l ->
  forall a b c, In a l -> In b l -> In c l ->
    performance_metrics.gt a b = false -> performance_metrics.gt b c = false ->
    performance_metrics.gt a c = false.
Proof.
  intros Hd a b c Ia Ib Ic Hab Hbc. unfold performance_metrics.gt in *. fold thr in *.
  destruct (thr c <? thr a) eqn:E; [exfalso|reflexivity].
  destruct (ForallOrdPairs_In Hd a b Ia Ib) as [<-|Cab]; [congruence|].
  destruct (ForallOrdPairs_In Hd b c Ib Ic) as [<-|Cbc]; [congruence|].
  assert (Lab : (thr a <? thr b) = true) by (destruct Cab as [[?|?]|[?|?]]; congruence).
  assert (Lbc : (thr b <? thr c) = true) by (destruct Cbc as [[?|?]|[?|?]]; congruence).
  pose proof (DoubleOrder.ltb_trans _ _ _ Lab Lbc) as T.
  apply DoubleOrder.ltb_asym in T. congruence.
Qed.

(** X17.  For records whose throughputs are pairwise different numbers,
    [to_markdown] does not depend on the order in which the records were
    appended: two stages with the same name, the same labels and the same
    records in any order render the same ranking and the same text. *)
Theorem to_markdown_ignores_the_order_of_insertion (s s' : stage) :
  distinct_throughputs (stage.results s) ->
  Permutation (stage.results s) (stage.results s') ->
  stage.name s = stage.name s' ->
  stage.processed_units_label s = stage.processed_units_label s' ->
  stage.throughput_units_label s = stage.throughput_units_label s' ->
  metrics (to_markdown_frame s) = metrics (to_markdown_frame s') /\
  to_markdown s = to_markdown s'.
Proof.
  intros Hd Hp En Ep Et.
  assert (Asym : forall a b, performance_metrics.gt a b = true -> performance_metrics.gt b a = false)
    by (intros a b; apply DoubleOrder.ltb_asym).
  assert (Trans : forall a b c, performance_metrics.gt a b = true ->
                                performance_metrics.gt b c = true ->
                                performance_metrics.gt a c = true)
    by (intros a b c Hab Hbc; exact (DoubleOrder.ltb_trans _ _ _ Hbc Hab)).
  assert (E : sort performance_metrics.gt (stage.results s)
              = sort performance_metrics.gt (stage.results s')).
  { apply sorted_arrangement_unique.
    - apply (pairs_permuted _ (stage.results s)); [intros a b; tauto| |exact Hd].
      apply Permutation_sym, AlgorithmFacts.sort_perm.
    - apply AlgorithmFacts.sort_sorted with (P := fun m => In m (stage.results s));
        [assumption|assumption|now apply distinct_incomparable|].
      apply Forall_forall. trivial.
    - apply AlgorithmFacts.sort_sorted with (P := fun m => In m (stage.results s'));
        [assumption|assumption| |].
      + apply distinct_incomparable.
        apply (pairs_permuted _ (stage.results s)); [intros a b; tauto|exact Hp|exact Hd].
      + apply Forall_forall. trivial.
    - eapply Permutation_trans; [apply AlgorithmFacts.sort_perm|].
      eapply Permutation_trans; [exact Hp|]. apply Permutation_sym, AlgorithmFacts.sort_perm. }
  unfold to_markdown. rewrite !to_markdown_frame_eq. cbn [metrics markdown].
  now rewrite E, En, Ep, Et.
Qed.

End MarkdownOrder.

(** ** The embedding at concrete inputs *)

Section Examples.
Import std bencher BarChart.
#[local] Existing Instance reference_format.reference.
#[local] Existing Instance zero_casts.
#[local] Open Scope float_scope.

(** C1, as stated, fails: for a stage with no results the call with the
    comparison enabled is not distinguishable from the call with the
    comparison disabled -- same text on [std::cout], nothing on [std::cerr],
    no exception -- so nothing tells that a comparison was unavailable. *)
Lemma print_results_empty_stage_counterexample :
  ~ (forall (s : stage) (c : console),
       stage.results s = [] -> print_results s true c <> print_results s false c) /\
  print_results (stage_of "demo" "" []) true empty_streams
    = print_results (stage_of "demo" "" []) false empty_streams /\
  print_results (stage_of "demo" "" []) true empty_streams
    = (Returned tt,
       {| cout := nl ++ "Performance Metrics for: demo" ++ nl ++ rule_dashes ++ nl;
          cerr := "" |}).
Proof.
  split; [|split; vm_compute; reflexivity].
  intros H. apply (H (stage_of "demo" "" []) empty_streams); reflexivity.
Qed.

Lemma print_results_empty_stage_skips_comparison_witness :
  print_results (stage_of "demo" "" []) true empty_streams =
    (Returned tt,
     {| cout := cout empty_streams
                ++ (nl ++ "Performance Metrics for: " ++ stage.name (stage_of "demo" "" []) ++ nl)
                ++ (rule_dashes ++ nl);
        cerr := cerr empty_streams |}) /\
  print_results (stage_of "demo" "" []) true empty_streams
    = print_results (stage_of "demo" "" []) false empty_streams.
Proof.
  apply (print_results_empty_stage_skips_comparison (stage_of "demo" "" []) empty_streams).
  reflexivity.
Defined.

Lemma void_body_run_has_zero_throughput_witness :
  performance_metrics.bytes_processed (snd (run steady_platform fresh_bench "void_bench" (fun _ => None)))
    = Some 0 /\
  performance_metrics.throughput_mb_per_sec
    (snd (run steady_platform fresh_bench "void_bench" (fun _ => None))) = 0.
Proof.
  destruct (void_body_run_has_zero_throughput steady_platform fresh_bench "void_bench"
              (fun _ => None) (fun _ => eq_refl)) as (Hb & Ht & _).
  exact (conj Hb Ht).
Defined.

Lemma metrics_comparison_is_strict_on_throughput_witness :
  performance_metrics.gt (record "a" 100) (record "c" 25) = true.
Proof.
  apply (proj1 (proj2 (proj2 (proj2 (proj2 metrics_comparison_is_strict_on_throughput))))
           (record "a" 100) (record "b" 50) (record "c" 25)); reflexivity.
Defined.

Lemma to_markdown_ranks_by_descending_throughput_witness :
  map performance_metrics.name (metrics (to_markdown_frame two_records)) = ["b"; "a"] /\
  stage_ref (to_markdown_frame two_records) = two_records /\
  StronglySorted
    (fun a b => (performance_metrics.throughput_mb_per_sec b
                 <=? performance_metrics.throughput_mb_per_sec a) = true)
    (metrics (to_markdown_frame two_records)) /\
  exists sections,
    to_markdown two_records = "## Performance Metrics for: demo" ++ nl ++ nl ++ join sections /\
    List.length sections = 2%nat.
Proof.
  pose proof (to_markdown_ranks_by_descending_throughput two_records) as H. cbv zeta in H.
  destruct H as (Hs & _ & _ & Hd & sections & Ht & Hf).
  split; [vm_compute; reflexivity|]. split; [exact Hs|].
  split; [apply Hd; repeat constructor|].
  exists sections. split; [exact Ht|].
  apply Forall2_length in Hf. rewrite <- Hf. vm_compute. reflexivity.
Defined.

Lemma to_json_serializes_name_and_results_witness :
  @to_json names_writer two_records
  = "{" ++ quoted "name" ++ ":" ++ quoted "demo" ++ "," ++ quoted "results" ++ ":"
    ++ "[" ++ "{" ++ quoted "name" ++ ":" ++ quoted "a" ++ "}"
    ++ "," ++ "{" ++ quoted "name" ++ ":" ++ quoted "b" ++ "}" ++ "]" ++ "}" /\
  @to_json failing_writer two_records = "{}".
Proof.
  split.
  - rewrite (proj1 (proj2 (@to_json_serializes_name_and_results names_writer)) two_records eq_refl).
    reflexivity.
  - exact (proj1 (proj2 (proj2 (@to_json_serializes_name_and_results failing_writer)))
             two_records eq_refl).
Defined.

Lemma print_results_baseline_and_faster_witness :
  exists b warning,
    min_element slower (stage.results two_records) = Some b /\ warning = "" /\
    forall m, In m (reported_faster b (stage.results two_records)) ->
              (performance_metrics.throughput_mb_per_sec b
               <? performance_metrics.throughput_mb_per_sec m) = true.
Proof.
  destruct (print_results_baseline_and_faster two_records empty_streams)
    as (b & warning & Hin & Hempty & _ & _ & _ & _ & _ & Hgreater).
  - cbn. lia.
  - exists b, warning. destruct (Hempty eq_refl) as [Hmin Hw].
    split; [exact Hmin|]. split; [exact Hw|].
    apply Hgreater.
    assert (E : Some b = Some (record "a" 50)) by (rewrite <- Hmin; reflexivity).
    injection E as ->. reflexivity.
Defined.

(** C8, as stated, fails: the baseline "a" is named by the stage and has a
    throughput of -10; the record "b", with a throughput of -20, is slower,
    and [print_results] reports it as 100.0% faster than "a". *)
Lemma print_results_negative_baseline_counterexample :
  ~ (forall (s : stage) (b : performance_metrics) (c c' : console),
       (2 <= List.length (stage.results s))%nat ->
       find_baseline s (stage.results s) c = (Returned (Some b), c') ->
       forall m, In m (reported_faster b (stage.results s)) ->
                 (performance_metrics.throughput_mb_per_sec b
                  <? performance_metrics.throughput_mb_per_sec m) = true) /\
  find_baseline negative_baseline (stage.results negative_baseline) empty_streams
    = (Returned (Some (record "a" (-10))), empty_streams) /\
  reported_faster (record "a" (-10)) (stage.results negative_baseline) = [record "b" (-20)] /\
  ((-20) <? (-10)) = true /\
  print_results negative_baseline true empty_streams
    = (Returned tt,
       {| cout := cout (snd (print_results negative_baseline false empty_streams))
                  ++ "b is 100.0% faster than a" ++ nl
                  ++ rule_equals ++ nl ++ nl
                  ++ format_bar_chart ["a"; "b"] [-10; -20];
          cerr := "" |}).
Proof.
  split; [|repeat split; vm_compute; reflexivity].
  intros H.
  specialize (H negative_baseline (record "a" (-10)) empty_streams empty_streams).
  assert (T : ((-10) <? (-20)) = true).
  { apply (H ltac:(cbn; lia) ltac:(vm_compute; reflexivity) (record "b" (-20))).
    vm_compute. left. reflexivity. }
  vm_compute in T. discriminate.
Qed.

Lemma format_bar_chart_lines_and_zero_maximum_witness :
  format_bar_chart ["Zero"; "Also Zero"] [0; 0]
  = join [repeat_string 40 " " ++ bar_label "Zero" 0;
          repeat_string 40 " " ++ bar_label "Also Zero" 0].
Proof.
  destruct (proj2 format_bar_chart_lines_and_zero_maximum ["Zero"; "Also Zero"] [0; 0]
              eq_refl ltac:(discriminate))
    as (mx & Hmax & _ & _ & _ & _ & _ & _ & _ & Hzero).
  assert (E : Some mx = Some 0) by (rewrite <- Hmax; reflexivity).
  injection E as E.
  exact (proj2 (Hzero ltac:(rewrite E; reflexivity))).
Defined.

End Examples.

(** ** The charts and the colours at concrete inputs *)

Section ChartExamples.
Import std bencher BarChart.
#[local] Existing Instance reference_format.reference.
#[local] Existing Instance zero_casts.
#[local] Existing Instance zero_int_casts.
#[local] Existing Instance integral_text.
#[local] Open Scope float_scope.

Lemma hex_to_rgb_reads_the_low_three_bytes_witness :
  hex_to_rgb "#FFF" = Returned {| r := 0; g := 15; b := 255 |} /\
  (0 * 65536 + 15 * 256 + 255 = hex_value (hex_prefix "FFF") mod 16777216)%Z.
Proof.
  split; [reflexivity|].
  destruct (hex_to_rgb_reads_the_low_three_bytes "#FFF" {| r := 0; g := 15; b := 255 |} eq_refl)
    as (_ & _ & _ & H & _).
  exact H.
Defined.

Lemma darken_color_never_brightens_witness :
  exists d,
    darken_color "#FFFFFF" 0.5 = Returned (rgb_to_hex d) /\
    (0 <= r d <= 255)%Z /\ (0 <= g d <= 255)%Z /\ (0 <= b d <= 255)%Z.
Proof.
  destruct (darken_color_never_brightens "#FFFFFF" 0.5 {| r := 255; g := 255; b := 255 |}
              eq_refl eq_refl eq_refl) as (d & H & _ & _ & _ & Hr & Hg & Hb).
  exists d. auto.
Defined.

Lemma darken_color_at_the_ends_witness :
  darken_color "#4caf50" 0 = Returned "#4CAF50" /\
  darken_color "#4caf50" 1 = Returned "#000000".
Proof.
  exact (darken_color_at_the_ends "#4caf50" {| r := 76; g := 175; b := 80 |} eq_refl).
Defined.

Lemma generate_bar_chart_svg_document_witness :
  match generate_bar_chart_svg ["A"; "B"; "C"] [100; 200; 150] chart_config.default with
  | Returned svg =>
      starts_with "<svg width=" svg /\ ends_with ("</svg>" ++ nl) svg /\
      occurs_in ("B" ++ "</text>") svg
  | Thrown _ => False
  end.
Proof.
  destruct (generate_bar_chart_svg ["A"; "B"; "C"] [100; 200; 150] chart_config.default)
    as [svg|e] eqn:E.
  - destruct (generate_bar_chart_svg_document _ _ _ _ E) as (_ & Hs & He & _ & Hn).
    split; [exact Hs|]. split; [exact He|]. apply Hn. cbn. auto.
  - vm_compute in E. discriminate.
Defined.

Lemma bars_are_filled_with_defined_gradients_witness :
  match generate_bar_chart_svg ["A"; "B"; "C"] [100; 200; 150] chart_config.default with
  | Returned svg => occurs_in ("    <linearGradient id=" ++ quoted "grad1") svg
  | Thrown _ => False
  end.
Proof.
  destruct (generate_bar_chart_svg ["A"; "B"; "C"] [100; 200; 150] chart_config.default)
    as [svg|e] eqn:E.
  - exact (proj2 (bars_are_filled_with_defined_gradients _ _ _ _ E 0 0 0 1%nat)).
  - vm_compute in E. discriminate.
Defined.

Lemma positive_baseline_reports_exactly_the_faster_witness :
  (0 <? diff_percentage (record "a" 50) (record "b" 120)) = true /\
  (0 <? diff_percentage (record "a" 50) (record "a" 50)) = false.
Proof.
  destruct (positive_baseline_reports_exactly_the_faster (record "a" 50) [] empty_streams
              eq_refl) as [_ H].
  split; rewrite H; reflexivity.
Defined.

Lemma to_markdown_ignores_the_order_of_insertion_witness :
  to_markdown two_records = to_markdown two_records_swapped.
Proof.
  apply (to_markdown_ignores_the_order_of_insertion two_records two_records_swapped);
    try reflexivity.
  - repeat constructor.
  - apply perm_swap.
Defined.

End ChartExamples.
